(** * File-search ledger tool: a shallow embedding of [rag.py]

    The development follows the class [FileSearchTool]: Python strings are
    sequences of code points, the ledger is a finite map from resolved
    paths to entries, and the remote service and the host system are
    interfaces whose answers the code cannot control. *)

From Stdlib Require Import NArith ZArith String Ascii Lia.
From stdpp Require Import base option list gmap.

Local Open Scope N_scope.

(** ** Python strings *)

(** A [str] is a sequence of code points; [py] reads an ASCII literal. *)
Abbreviation pystr := (list N).

Definition py (s : string) : pystr :=
  map N_of_ascii (list_ascii_of_string s).

(** Every code point of a Python [str] is at most U+10FFFF. *)
Definition is_codepoint (c : N) : bool := c <=? 1114111.

(** The surrogate range U+D800..U+DFFF: code points a [str] may hold but
    that are no characters and have no UTF-8 form. *)
Definition is_surrogate (c : N) : bool := (55296 <=? c) && (c <=? 57343).

(** The dynamically typed values the tool passes around where the
    annotations say [str]. *)
Inductive pyval : Type :=
  | PNone
  | PBool (b : bool)
  | PInt (z : Z)
  | PStr (s : pystr).

Fixpoint take_while {A} (p : A → bool) (l : list A) : list A :=
  match l with
  | [] => []
  | x :: l' => if p x then x :: take_while p l' else []
  end.

Fixpoint drop_while {A} (p : A → bool) (l : list A) : list A :=
  match l with
  | [] => []
  | x :: l' => if p x then drop_while p l' else l
  end.

(** [s.startswith(pre)] *)
Fixpoint startswith (s pre : pystr) {struct pre} : bool :=
  match pre, s with
  | [], _ => true
  | p :: pre', c :: s' => (c =? p) && startswith s' pre'
  | _ :: _, [] => false
  end.

(** [s.split(sep, 1)] for a one-character separator: one or two pieces. *)
Fixpoint split_once (sep : N) (s : pystr) : list pystr :=
  match s with
  | [] => [[]]
  | c :: s' =>
      if c =? sep then [[]; s']
      else match split_once sep s' with
           | a :: r => (c :: a) :: r
           | [] => []
           end
  end.

(** [s.strip("-")], [s.rstrip("-")] and the like, for one character. *)
Definition lstrip (c : N) (s : pystr) : pystr := drop_while (N.eqb c) s.
Definition rstrip (c : N) (s : pystr) : pystr := reverse (lstrip c (reverse s)).
Definition strip (c : N) (s : pystr) : pystr := rstrip c (lstrip c s).

(** [s.lower()] on a string that is already ASCII. *)
Definition lower_char (c : N) : N :=
  if (65 <=? c) && (c <=? 90) then c + 32 else c.
Definition lower (s : pystr) : pystr := map lower_char s.

(** [s.encode("ascii", "ignore").decode("ascii")]: code points from 128
    on are dropped. *)
Definition ascii_ignore (s : pystr) : pystr := filter (λ c, c < 128) s.

(** [s.isascii()] *)
Definition isascii (s : pystr) : bool := forallb (λ c, c <? 128) s.

(** ** Regular expressions of the tool *)

(** The class [[a-z0-9-]] of [_is_valid_file_id]. *)
Definition id_char (c : N) : bool :=
  (97 <=? c) && (c <=? 122) || (48 <=? c) && (c <=? 57) || (c =? 45).

(** The class [[a-z0-9]] whose complement [_ascii_safe] replaces. *)
Definition alnum_char (c : N) : bool :=
  (97 <=? c) && (c <=? 122) || (48 <=? c) && (c <=? 57).

(** [re.match(r"^[a-z0-9-]+$", s)] as a truth value. The greedy run of
    class characters starts at position 0 and must be non-empty; [$]
    then matches at the end of the string, and, as always in Python's
    [re], also just before a newline that ends the string. *)
Definition re_match_id (s : pystr) : bool :=
  match take_while id_char s with
  | [] => false
  | _ :: _ =>
      match drop_while id_char s with
      | [] => true
      | [c] => c =? 10
      | _ => false
      end
  end.

(** [re.sub(r"[^a-z0-9]+", "-", s)]: every maximal run of characters
    outside the class becomes one dash. [in_run] tells that the previous
    character was outside the class, so its dash is already written. *)
Fixpoint re_sub_dash_from (in_run : bool) (s : pystr) : pystr :=
  match s with
  | [] => []
  | c :: s' =>
      if alnum_char c then c :: re_sub_dash_from false s'
      else if in_run then re_sub_dash_from true s'
      else 45 :: re_sub_dash_from true s'
  end.

Definition re_sub_dash (s : pystr) : pystr := re_sub_dash_from false s.

(** ** Identifier validity: [_is_valid_file_id] *)

(** The code calls the function on whatever the ledger holds, so the
    argument is a dynamically typed value. [file_ref.split("/", 1)[1]]
    exists whenever the prefix test passed; the [None] branch below is
    the [IndexError] that can therefore not happen. *)
Definition _is_valid_file_id (file_ref : pyval) : bool :=
  match file_ref with
  | PStr file_ref =>
      if negb (startswith file_ref (py "files/")) then false
      else
        match split_once 47 file_ref !! 1%nat with
        | None => false
        | Some file_id =>
            if bool_decide (file_id = []) then false
            else if (40 <? length file_id)%nat then false
            else re_match_id file_id
        end
  | _ => false
  end.

(** The identifier syntax in the words of the specification: the id
    portion matches [^[a-z0-9-]{1,40}$], read as "one to forty characters,
    each a lowercase letter, a digit or a dash". *)
Definition spec_id_syntax (id : pystr) : bool :=
  (1 <=? length id)%nat && (length id <=? 40)%nat && forallb id_char id.

(** A reference is valid, in the specification's words, when it starts
    with ["files/"] and its id portion has that syntax. *)
Definition spec_valid_ref (file_ref : pystr) : bool :=
  startswith file_ref (py "files/") && spec_id_syntax (drop 6 file_ref).

(** ** Name sanitizer: the pure stages of [_ascii_safe] *)

(** [os.path] is [posixpath] or [ntpath]; for [splitext] they differ in
    the separators only: [/] on the one, [\] and [/] on the other. *)
Inductive Platform : Type := Posix | Nt.

Definition is_sep (pf : Platform) (c : N) : bool :=
  match pf with
  | Posix => c =? 47
  | Nt => (c =? 92) || (c =? 47)
  end.

Definition is_dot (c : N) : bool := c =? 46.

(** [os.path.splitext(p)]: the extension is what follows the last dot
    of the last path component, leading dots of that component not
    counting; root and extension concatenate to [p]. The path is cut
    after its last separator, the leading dots of the last component are
    set aside, and what remains is cut before its last dot, if it has
    one. *)
Definition splitext (pf : Platform) (p : pystr) : pystr * pystr :=
  let rp := reverse p in
  let fname := reverse (take_while (λ c, negb (is_sep pf c)) rp) in
  let dir := reverse (drop_while (λ c, negb (is_sep pf c)) rp) in
  let dots := take_while is_dot fname in
  let rest := reverse (drop_while is_dot fname) in
  match drop_while (λ c, negb (is_dot c)) rest with
  | [] => (p, [])
  | dot :: stem =>
      (dir ++ dots ++ reverse stem,
       dot :: reverse (take_while (λ c, negb (is_dot c)) rest))
  end.

(** A file name proper, for [splitext]: no separator in it, and not
    made of dots alone. *)
Definition file_stem (pf : Platform) (stem : pystr) : bool :=
  forallb (λ c, negb (is_sep pf c)) stem && existsb (λ c, negb (is_dot c)) stem.

(** A plain extension, without its dot: neither separator nor dot. *)
Definition plain_ext (pf : Platform) (e : pystr) : bool :=
  forallb (λ c, negb (is_sep pf c)) e && forallb (λ c, negb (is_dot c)) e.

(** The slug before the fallback: NFKD, ASCII only, lowercase, runs
    outside [[a-z0-9]] to one dash, dashes stripped at both ends.
    [nfkd] is [unicodedata.normalize("NFKD", _)], a table of the Unicode
    database. *)
Definition slug_of (nfkd : pystr → pystr) (base : pystr) : pystr :=
  let normalized := nfkd base in
  let ascii_base := ascii_ignore normalized in
  strip 45 (re_sub_dash (lower ascii_base)).

(** [slug[:40].rstrip("-")] when the slug is longer than 40. *)
Definition enforce_max (slug : pystr) : pystr :=
  if (40 <? length slug)%nat then rstrip 45 (take 40 slug) else slug.

(** ** [uuid.uuid4().hex] *)

Definition hex_digit (d : N) : N := if d <? 10 then 48 + d else 87 + d.

(** [n] lowercase hexadecimal digits of [x], most significant first. *)
Fixpoint hex_fixed (n : nat) (x : N) : pystr :=
  match n with
  | O => []
  | S n' => hex_fixed n' (x / 16) ++ [hex_digit (x mod 16)]
  end.

(** The 128-bit integer of a version-4 UUID made from 16 random bytes
    [r]: variant and version bits are forced, the rest is random. *)
Definition uuid4_int (r : N) : N :=
  let i := r mod 2 ^ 128 in
  let i := N.ldiff i (N.shiftl 49152 48) in
  let i := N.lor i (N.shiftl 32768 48) in
  let i := N.ldiff i (N.shiftl 61440 64) in
  N.lor i (N.shiftl 4 76).

Definition uuid4_hex (r : N) : pystr := hex_fixed 32 (uuid4_int r).

(** ** UTF-8, as [write_text] and [read_text] use it *)

(** A file is a sequence of bytes, each below 256. *)
Abbreviation bytes := (list N).

(** The strict UTF-8 form of one code point; [None] is the
    [UnicodeEncodeError] raised for a surrogate. *)
Definition utf8_encode_char (c : N) : option bytes :=
  if c <? 128 then Some [c]
  else if c <? 2048 then Some [192 + c / 64; 128 + c mod 64]
  else if c <? 65536 then
    if is_surrogate c then None
    else Some [224 + c / 4096; 128 + (c / 64) mod 64; 128 + c mod 64]
  else if is_codepoint c then
    Some [240 + c / 262144; 128 + (c / 4096) mod 64;
          128 + (c / 64) mod 64; 128 + c mod 64]
  else None.

(** [text.encode("utf-8")] *)
Fixpoint utf8_encode (s : pystr) : option bytes :=
  match s with
  | [] => Some []
  | c :: s' =>
      match utf8_encode_char c, utf8_encode s' with
      | Some b, Some bs => Some (b ++ bs)
      | _, _ => None
      end
  end.

Definition in_range (lo hi b : N) : bool := (lo <=? b) && (b <=? hi).

(** [data.decode("utf-8")]: the strict decoder, which refuses overlong
    forms, surrogates and values above U+10FFFF; [None] is the
    [UnicodeDecodeError]. *)
Fixpoint utf8_decode (bs : bytes) : option pystr :=
  match bs with
  | [] => Some []
  | b0 :: r0 =>
      if b0 <? 128 then cons b0 <$> utf8_decode r0
      else if in_range 194 223 b0 then
        match r0 with
        | b1 :: r1 =>
            if in_range 128 191 b1
            then cons ((b0 - 192) * 64 + (b1 - 128)) <$> utf8_decode r1
            else None
        | _ => None
        end
      else if in_range 224 239 b0 then
        match r0 with
        | b1 :: b2 :: r2 =>
            if in_range (if b0 =? 224 then 160 else 128)
                        (if b0 =? 237 then 159 else 191) b1
               && in_range 128 191 b2
            then cons ((b0 - 224) * 4096 + (b1 - 128) * 64 + (b2 - 128))
                   <$> utf8_decode r2
            else None
        | _ => None
        end
      else if in_range 240 244 b0 then
        match r0 with
        | b1 :: b2 :: b3 :: r3 =>
            if in_range (if b0 =? 240 then 144 else 128)
                        (if b0 =? 244 then 143 else 191) b1
               && in_range 128 191 b2 && in_range 128 191 b3
            then cons ((b0 - 240) * 262144 + (b1 - 128) * 4096
                       + (b2 - 128) * 64 + (b3 - 128))
                   <$> utf8_decode r3
            else None
        | _ => None
        end
      else None
  end.

(** ** JSON, as [json.dumps] and [json.loads] use it *)

#[local] Set Warnings "-register-all".


(** The documents of the model: everything JSON has except numbers. *)
Inductive json : Type :=
  | JNull
  | JBool (b : bool)
  | JStr (s : pystr)
  | JArr (items : list json)
  | JObj (members : list (pystr * json)).

(** One character of a string literal under [ensure_ascii=False]: the
    quote, the backslash and the control characters below U+0020 are
    escaped, every other code point is written as it is. *)
Definition escape_char (c : N) : pystr :=
  if c =? 34 then [92; 34]
  else if c =? 92 then [92; 92]
  else if c =? 10 then [92; 110]
  else if c =? 13 then [92; 114]
  else if c =? 9 then [92; 116]
  else if c =? 8 then [92; 98]
  else if c =? 12 then [92; 102]
  else if c <? 32 then [92; 117] ++ hex_fixed 4 c
  else [c].

Definition encode_basestring (s : pystr) : pystr :=
  [34] ++ flat_map escape_char s ++ [34].

(** A line break and the indentation of [level], for [indent=2]. *)
Definition newline_indent (level : nat) : pystr :=
  10 :: replicate (2 * level) 32.

(** [json.dumps(j, indent=2, ensure_ascii=False)] below [level] open
    containers: an empty container is written closed; otherwise every
    item starts on a line of its own, a comma after each but the last,
    and the closing bracket is on the line after. *)
Fixpoint dumps_at (level : nat) (j : json) {struct j} : pystr :=
  match j with
  | JNull => py "null"
  | JBool true => py "true"
  | JBool false => py "false"
  | JStr s => encode_basestring s
  | JArr [] => py "[]"
  | JArr (x :: xs) =>
      [91] ++ newline_indent (S level) ++ dumps_at (S level) x
      ++ flat_map (λ y, [44] ++ newline_indent (S level) ++ dumps_at (S level) y) xs
      ++ newline_indent level ++ [93]
  | JObj [] => py "{}"
  | JObj (kv :: ms) =>
      [123] ++ newline_indent (S level)
      ++ encode_basestring kv.1 ++ py ": " ++ dumps_at (S level) kv.2
      ++ flat_map (λ kv', [44] ++ newline_indent (S level)
                          ++ encode_basestring kv'.1 ++ py ": "
                          ++ dumps_at (S level) kv'.2) ms
      ++ newline_indent level ++ [125]
  end.

Definition json_dumps (j : json) : pystr := dumps_at 0 j.

(** The decoder's whitespace: space, tab, line feed, carriage return. *)
Definition is_ws (c : N) : bool :=
  (c =? 32) || (c =? 9) || (c =? 10) || (c =? 13).

Definition skip_ws (s : pystr) : pystr := drop_while is_ws s.

Definition hex_value (c : N) : option N :=
  if in_range 48 57 c then Some (c - 48)
  else if in_range 97 102 c then Some (c - 87)
  else if in_range 65 70 c then Some (c - 55)
  else None.

(** The four hexadecimal digits of a [\uXXXX] escape. *)
Definition hex4 (a b c d : N) : option N :=
  match hex_value a, hex_value b, hex_value c, hex_value d with
  | Some a, Some b, Some c, Some d => Some (((a * 16 + b) * 16 + c) * 16 + d)
  | _, _, _, _ => None
  end.

(** The character a one-letter escape stands for. *)
Definition unescape (e : N) : option N :=
  if e =? 34 then Some 34
  else if e =? 92 then Some 92
  else if e =? 47 then Some 47
  else if e =? 98 then Some 8
  else if e =? 102 then Some 12
  else if e =? 110 then Some 10
  else if e =? 114 then Some 13
  else if e =? 116 then Some 9
  else None.

(** The decoder's [scanstring], started after the opening quote:
    the string and the text after its closing quote. Raw control
    characters are refused (strict mode); a high surrogate escape
    followed by a low surrogate escape is one code point. *)
Fixpoint scanstring (s : pystr) : option (pystr * pystr) :=
  let more (c : N) (r : option (pystr * pystr)) :=
    match r with Some (str, rest) => Some (c :: str, rest) | None => None end in
  match s with
  | [] => None
  | c :: r =>
      if c =? 34 then Some ([], r)
      else if c =? 92 then
        match r with
        | [] => None
        | e :: r' =>
            if e =? 117 then
              match r' with
              | a :: b :: c' :: d :: r1 =>
                  match hex4 a b c' d with
                  | None => None
                  | Some uni =>
                      if in_range 55296 56319 uni then
                        match r1 with
                        | b1 :: u1 :: a2 :: b2 :: c2 :: d2 :: r2 =>
                            if (b1 =? 92) && (u1 =? 117) then
                              match hex4 a2 b2 c2 d2 with
                              | None => None
                              | Some uni2 =>
                                  if in_range 56320 57343 uni2
                                  then more (65536 + ((uni - 55296) * 1024
                                                      + (uni2 - 56320)))
                                            (scanstring r2)
                                  else more uni (scanstring r1)
                              end
                            else more uni (scanstring r1)
                        | _ =>
                            if startswith r1 [92; 117] then None
                            else more uni (scanstring r1)
                        end
                      else more uni (scanstring r1)
                  end
              | _ => None
              end
            else
              match unescape e with
              | Some x => more x (scanstring r')
              | None => None
              end
        end
      else if c <? 32 then None
      else more c (scanstring r)
  end.

(** The elements of an array after the first value has been announced:
    value, then [,] and on, or [\]] and out. [value] is the scanner for
    one value, [n] bounds the number of elements. *)
Fixpoint scan_items (value : pystr → option (json * pystr)) (n : nat)
    (s : pystr) : option (list json * pystr) :=
  match n with
  | O => None
  | S n' =>
      match value s with
      | None => None
      | Some (v, r) =>
          match skip_ws r with
          | c :: r' =>
              if c =? 93 then Some ([v], r')
              else if c =? 44 then
                match scan_items value n' (skip_ws r') with
                | Some (vs, r'') => Some (v :: vs, r'')
                | None => None
                end
              else None
          | [] => None
          end
      end
  end.

(** The members of an object, started at the quote of a key. *)
Fixpoint scan_members (value : pystr → option (json * pystr)) (n : nat)
    (s : pystr) : option (list (pystr * json) * pystr) :=
  match n with
  | O => None
  | S n' =>
      match s with
      | q :: s0 =>
          if q =? 34 then
            match scanstring s0 with
            | None => None
            | Some (key, r0) =>
                match skip_ws r0 with
                | colon :: r1 =>
                    if colon =? 58 then
                      match value (skip_ws r1) with
                      | None => None
                      | Some (v, r2) =>
                          match skip_ws r2 with
                          | c :: r3 =>
                              if c =? 125 then Some ([(key, v)], r3)
                              else if c =? 44 then
                                match scan_members value n' (skip_ws r3) with
                                | Some (ms, r4) => Some ((key, v) :: ms, r4)
                                | None => None
                                end
                              else None
                          | [] => None
                          end
                      end
                    else None
                | [] => None
                end
            end
          else None
      | [] => None
      end
  end.

(** The decoder's [scan_once]: one value at the head of the text.
    Numbers are outside the model and scan as an error. *)
Fixpoint scan_once (fuel : nat) (s : pystr) : option (json * pystr) :=
  match fuel with
  | O => None
  | S f =>
      match s with
      | [] => None
      | c :: r =>
          if c =? 34 then
            match scanstring r with
            | Some (str, r') => Some (JStr str, r')
            | None => None
            end
          else if c =? 123 then
            match skip_ws r with
            | c' :: r' =>
                if c' =? 125 then Some (JObj [], r')
                else
                  match scan_members (scan_once f) f (c' :: r') with
                  | Some (ms, r'') => Some (JObj ms, r'')
                  | None => None
                  end
            | [] => None
            end
          else if c =? 91 then
            match skip_ws r with
            | c' :: r' =>
                if c' =? 93 then Some (JArr [], r')
                else
                  match scan_items (scan_once f) f (c' :: r') with
                  | Some (vs, r'') => Some (JArr vs, r'')
                  | None => None
                  end
            | [] => None
            end
          else if startswith s (py "null") then Some (JNull, drop 4 s)
          else if startswith s (py "true") then Some (JBool true, drop 4 s)
          else if startswith s (py "false") then Some (JBool false, drop 5 s)
          else None
      end
  end.

(** [json.loads(text)]: leading whitespace, one value, trailing
    whitespace and nothing more; [None] is the [JSONDecodeError]. *)
Definition json_loads (text : pystr) : option json :=
  match scan_once (S (length text)) (skip_ws text) with
  | Some (j, rest) =>
      match skip_ws rest with
      | [] => Some j
      | _ :: _ => None
      end
  | None => None
  end.

(** ** The ledger *)

(** An entry is the Python dict of one uploaded file: field name to a
    string or [None]. The ledger maps the resolved path to the entry.
    Python keeps a dict in insertion order; equality of dicts ignores the
    order, and so does the finite map used here. *)
Abbreviation entry := (gmap pystr (option pystr)).
Abbreviation ledger := (gmap pystr (gmap pystr (option pystr))).

(** [d.get(name)] on an entry, as a Python value: a missing field and a
    field holding [None] both read as [None]. *)
Definition entry_get (e : entry) (name : pystr) : pyval :=
  match e !! name with
  | Some (Some s) => PStr s
  | _ => PNone
  end.

(** Python's truth value. *)
Definition truthy (v : pyval) : bool :=
  match v with
  | PNone => false
  | PBool b => b
  | PInt z => negb (z =? 0)%Z
  | PStr s => negb (bool_decide (s = []))
  end.

Definition field_to_json (f : option pystr) : json :=
  match f with
  | None => JNull
  | Some s => JStr s
  end.

Definition entry_to_json (e : entry) : json :=
  JObj (map_to_list (field_to_json <$> e)).

Definition ledger_to_json (l : ledger) : json :=
  JObj (map_to_list (entry_to_json <$> l)).

(** The dict the decoder builds from the members of an object: a key
    that occurs twice keeps its last value. *)
Definition dict_of_pairs {A} (l : list (pystr * A)) : gmap pystr A :=
  foldl (λ m kv, <[kv.1 := kv.2]> m) ∅ l.

Definition field_of_json (j : json) : option (option pystr) :=
  match j with
  | JNull => Some None
  | JStr s => Some (Some s)
  | _ => None
  end.

Definition entry_of_json (j : json) : option entry :=
  match j with
  | JObj ms =>
      let d := dict_of_pairs ms in
      if decide (map_Forall (λ _ v, is_Some (field_of_json v)) d)
      then Some (omap field_of_json d)
      else None
  | _ => None
  end.

(** A document read as a ledger. [None] means the document is well-formed
    JSON of another shape (a list at top level, an entry that is no
    object, a field that is neither a string nor null): the tool would
    keep such a value as its state, but it is no ledger and this
    development does not follow it further. *)
Definition ledger_of_json (j : json) : option ledger :=
  match j with
  | JObj ms =>
      let d := dict_of_pairs ms in
      if decide (map_Forall (λ _ v, is_Some (entry_of_json v)) d)
      then Some (omap entry_of_json d)
      else None
  | _ => None
  end.

(** ** The world around the tool *)

(** A [pathlib.Path] of the listing: [str(p)], [p.name] and
    [str(p.resolve())]. *)
Record Path : Type := {
  path_str : pystr;
  path_name : pystr;
  path_resolved : pystr
}.

(** A remote store with [name] and, when it has one, [display_name]. *)
Record StoreRef : Type := {
  sr_name : pystr;
  sr_display_name : option pystr
}.

(** The resource an upload returns; [name] is optional in the client. *)
Record RemoteFile : Type := { rf_name : option pystr }.

(** A long-running remote operation. *)
Record Operation : Type := {
  op_done : bool;
  op_name : pystr
}.

(** An exception: its class and [str(e)]. *)
Record exn : Type := {
  exn_class : pystr;
  exn_msg : pystr
}.

Definition UnicodeEncodeError : exn :=
  {| exn_class := py "UnicodeEncodeError"; exn_msg := py "surrogates not allowed" |}.
Definition FileNotFoundError (dir : pystr) : exn :=
  {| exn_class := py "FileNotFoundError"; exn_msg := py "Docs dir not found: " ++ dir |}.
Definition KeyError (key : pystr) : exn :=
  {| exn_class := py "KeyError"; exn_msg := key |}.

(** The attributes of [self] that never change during a run. *)
Record Config : Type := {
  docs_dir : pystr;
  store_display_name : pystr;
  prefer_utf8 : bool
}.

(** [genai.Client], as far as the tool calls it. Each call takes the
    world to its next state and returns or raises. *)
Class Client (World : Type) : Type := {
  files_upload : pystr → pystr → pystr → World → (exn + RemoteFile) * World;
  file_search_stores_list : World → (exn + list StoreRef) * World;
  file_search_stores_create : pystr → World → (exn + StoreRef) * World;
  file_search_stores_import_file :
    pystr → pystr → World → (exn + Operation) * World;
  operations_get : Operation → World → (exn + Operation) * World
}.

(** The host: the standard library's tables and the file system. *)
Class Host (World : Type) : Type := {
  platform : Platform;
  unicodedata_nfkd : pystr → pystr;
  unicode_lower : pystr → pystr;
  mimetypes_guess_type : pystr → option pystr;
  os_urandom16 : World → N * World;
  dir_exists : pystr → World → bool;
  rglob_files : pystr → World → (exn + list Path) * World;
  shutil_copy2 : Path → pystr → World → (exn + pystr) * World;
  unlink_if_exists : pystr → World → (exn + unit) * World
}.

(** What [safe_print] writes. *)
Inductive message : Type :=
  | MsgPreparing
  | MsgNoFiles
  | MsgAllDone
  | MsgUploading (name : pystr)
  | MsgFallbackUpload
  | MsgFallbackStore
  | MsgUploadFailed (name : pystr) (e : exn)
  | MsgNoFileId (name : pystr)
  | MsgImportSkipped (name : pystr)
  | MsgImportingFailed (name : pystr) (e : exn)
  | MsgSkipMissing (store : pystr)
  | MsgSkipInvalid (file_ref : pystr)
  | MsgImporting (file_ref store : pystr)
  | MsgImportFailed (file_ref store msg : pystr)
  | MsgHintInvalidArgument
  | MsgHintPermissionDenied
  | MsgRemoving (key : pystr) (file_id : pyval).

(** What the tool does to the world, in order. *)
Inductive event : Type :=
  | CallListStores
  | CallCreateStore (display_name : pystr)
  | CallUpload (file name mime : pystr)
  | CallImport (store file_ref : pystr)
  | CallGetOperation (op : Operation)
  | Sleep (seconds : N)
  | WriteText (data : option bytes)
  | Print (msg : message).

(** An event that contacts the remote service. *)
Definition is_remote (e : event) : bool :=
  match e with
  | CallListStores | CallCreateStore _ | CallUpload _ _ _
  | CallImport _ _ | CallGetOperation _ => true
  | _ => false
  end.

Definition is_upload (e : event) : bool :=
  match e with CallUpload _ _ _ => true | _ => false end.

Definition is_import (e : event) : bool :=
  match e with CallImport _ _ => true | _ => false end.

Definition is_write (e : event) : bool :=
  match e with WriteText _ => true | _ => false end.

(** ** The machine and its monad *)

(** How a call ends: it returns, it raises, or it never comes back
    because a remote operation was not done when the fuel of the polling
    loop ran out. *)
Inductive outcome (A : Type) : Type :=
  | Ok (a : A)
  | Raise (e : exn)
  | Blocked.
Arguments Ok {A} a.
Arguments Raise {A} e.
Arguments Blocked {A}.

Section Tool.
Context {World : Type} `{!Client World, !Host World}.

(** The world, [self.state], the bytes of [.file_index.json] (or no
    file), and what happened so far. *)
Record Machine : Type := {
  m_world : World;
  m_state : ledger;
  m_file : option bytes;
  m_trace : list event
}.

Definition set_world (w : World) (m : Machine) : Machine :=
  {| m_world := w; m_state := m_state m; m_file := m_file m; m_trace := m_trace m |}.
Definition set_state (st : ledger) (m : Machine) : Machine :=
  {| m_world := m_world m; m_state := st; m_file := m_file m; m_trace := m_trace m |}.
Definition set_file (f : option bytes) (m : Machine) : Machine :=
  {| m_world := m_world m; m_state := m_state m; m_file := f; m_trace := m_trace m |}.
Definition add_event (e : event) (m : Machine) : Machine :=
  {| m_world := m_world m; m_state := m_state m; m_file := m_file m;
     m_trace := m_trace m ++ [e] |}.

Definition M (A : Type) : Type := Machine → outcome A * Machine.

#[global] Instance M_ret : MRet M := λ A a m, (Ok a, m).

#[global] Instance M_bind : MBind M := λ A B f c m,
  match c m with
  | (Ok a, m') => f a m'
  | (Raise e, m') => (Raise e, m')
  | (Blocked, m') => (Blocked, m')
  end.

Definition raise {A} (e : exn) : M A := λ m, (Raise e, m).

(** [try: c except Exception: handler] *)
Definition try_except {A} (c : M A) (handler : exn → M A) : M A := λ m,
  match c m with
  | (Raise e, m') => handler e m'
  | r => r
  end.

(** [try: c finally: fin], for a [fin] that swallows its own errors. *)
Definition try_finally {A} (c : M A) (fin : M unit) : M A := λ m,
  match c m with
  | (r, m') =>
      match fin m' with
      | (Blocked, m'') => (Blocked, m'')
      | (_, m'') => (r, m'')
      end
  end.

Definition emit (e : event) : M unit := λ m, (Ok (), add_event e m).
Definition safe_print (msg : message) : M unit := emit (Print msg).

Definition get_state : M ledger := λ m, (Ok (m_state m), m).
Definition put_state (st : ledger) : M unit := λ m, (Ok (), set_state st m).

(** A call into the client or the host. *)
Definition call {A} (f : World → (exn + A) * World) : M A := λ m,
  match f (m_world m) with
  | (inl e, w) => (Raise e, set_world w m)
  | (inr a, w) => (Ok a, set_world w m)
  end.

Fixpoint for_each {A} (xs : list A) (body : A → M unit) : M unit :=
  match xs with
  | [] => mret ()
  | x :: xs' => body x ;; for_each xs' body
  end.

Fixpoint fold_loop {A B} (body : B → A → M B) (acc : B) (xs : list A) : M B :=
  match xs with
  | [] => mret acc
  | x :: xs' => acc' ← body acc x; fold_loop body acc' xs'
  end.

Variable self : Config.

(** ** Persistence: [_load_state] and [_save_state] *)

(** [write_text] opens the file for writing, which empties it, and then
    encodes and writes the text in one piece. *)
Definition _save_state : M unit := λ m,
  let text := json_dumps (ledger_to_json (m_state m)) in
  match utf8_encode text with
  | Some data =>
      (Ok (), add_event (WriteText (Some data)) (set_file (Some data) m))
  | None =>
      (Raise UnicodeEncodeError,
       add_event (WriteText None) (set_file (Some []) m))
  end.

(** The ledger held by a state file: no file, undecodable bytes and
    unparsable text all give the empty ledger. *)
Definition _load_state (file : option bytes) : ledger :=
  match file with
  | None => ∅
  | Some data =>
      match utf8_decode data with
      | None => ∅
      | Some text =>
          match json_loads text with
          | None => ∅
          | Some j => default ∅ (ledger_of_json j)
          end
      end
  end.

(** ** [_list_docs] *)

Definition _list_docs : M (list Path) := λ m,
  if dir_exists (docs_dir self) (m_world m)
  then call (rglob_files (docs_dir self)) m
  else (Raise (FileNotFoundError (docs_dir self)), m).

(** ** [_ascii_safe] *)

Definition uuid4 : M pystr := λ m,
  match os_urandom16 (m_world m) with
  | (r, w) => (Ok (uuid4_hex r), set_world w m)
  end.

(** What [_ascii_safe] does with the base name once the extension is
    split off: slug, random fallback for an empty slug, length limit. *)
Definition sanitize_base (base : pystr) : M pystr :=
  let slug := slug_of unicodedata_nfkd base in
  slug ← (if bool_decide (slug = [])
          then hex ← uuid4; mret (py "file-" ++ hex)
          else mret slug);
  mret (enforce_max slug).

Definition _ascii_safe (s : pystr) : M pystr :=
  let base := (splitext platform s).1 in
  sanitize_base base.

(** ** [create_or_get_file_search_store] *)

Definition list_stores : M (list StoreRef) :=
  emit CallListStores ;; call file_search_stores_list.

Definition create_store (display_name : pystr) : M StoreRef :=
  emit (CallCreateStore display_name) ;;
  call (file_search_stores_create display_name).

Definition create_or_get_file_search_store : M StoreRef :=
  stores ← list_stores;
  safe_display ← _ascii_safe (store_display_name self);
  match find (λ s, bool_decide (sr_display_name s = Some (store_display_name self))
                   || bool_decide (sr_display_name s = Some safe_display)) stores with
  | Some s => mret s
  | None =>
      if prefer_utf8 self then
        try_except (create_store (store_display_name self))
          (λ _, safe_print MsgFallbackStore ;; create_store safe_display)
      else create_store safe_display
  end.

(** ** [upload_file] *)

Definition default_mime : pystr := py "application/octet-stream".

(** The inner [try_upload_with_name]: a name that is not ASCII has the
    file copied to the temporary directory first, and the copy removed
    whatever the upload did. *)
Definition try_upload_with_name (file_path : Path) (name : pystr) : M RemoteFile :=
  let mime_type :=
    match mimetypes_guess_type (path_name file_path) with
    | Some (c :: t) => c :: t
    | _ => default_mime
    end in
  if negb (isascii (path_name file_path)) then
    temp_path ← call (shutil_copy2 file_path name);
    try_finally
      (emit (CallUpload temp_path name mime_type) ;;
       call (files_upload temp_path name mime_type))
      (try_except (call (unlink_if_exists temp_path)) (λ _, mret ()))
  else
    emit (CallUpload (path_str file_path) name mime_type) ;;
    call (files_upload (path_str file_path) name mime_type).

Definition file_info (resource : RemoteFile) (file_path : Path)
    (safe_name : pystr) : entry :=
  <[py "file_id" := rf_name resource]>
    (<[py "file_name" := rf_name resource]>
       (<[py "original_file_name" := Some (path_name file_path)]>
          (<[py "safe_file_name" := Some safe_name]> ∅))).

Definition upload_file (file_path : Path) : M entry :=
  let key := path_resolved file_path in
  st ← get_state;
  if truthy (entry_get (default ∅ (st !! key)) (py "file_id")) then
    match st !! key with
    | Some e => mret e
    | None => raise (KeyError key)
    end
  else
    safe_print (MsgUploading (path_name file_path)) ;;
    safe_name ← _ascii_safe (path_name file_path);
    resource ←
      (if prefer_utf8 self then
         try_except (try_upload_with_name file_path (path_name file_path))
           (λ _, safe_print MsgFallbackUpload ;;
                 try_upload_with_name file_path safe_name)
       else try_upload_with_name file_path safe_name);
    let info := file_info resource file_path safe_name in
    st ← get_state;
    put_state (<[key := info]> st) ;;
    _save_state ;;
    mret info.

(** ** [import_file_to_store] *)

(** [needle in hay] *)
Fixpoint contains (hay needle : pystr) : bool :=
  startswith hay needle
  || match hay with
     | [] => false
     | _ :: hay' => contains hay' needle
     end.

(** [while not op.done: time.sleep(2); op = self.client.operations.get(op)];
    [fuel] bounds the number of rounds the model follows. *)
Fixpoint wait_done (fuel : nat) (op : Operation) : M Operation :=
  if op_done op then mret op
  else
    match fuel with
    | O => λ m, (Blocked, m)
    | S fuel' =>
        emit (Sleep 2) ;;
        emit (CallGetOperation op) ;;
        op' ← call (operations_get op);
        wait_done fuel' op'
    end.

Definition import_failed (store_name file_ref : pystr) (e : exn)
    : M (option Operation) :=
  let msg := exn_msg e in
  safe_print (MsgImportFailed file_ref store_name msg) ;;
  (if contains msg (py "INVALID_ARGUMENT")
      || contains (unicode_lower msg) (py "invalid argument")
   then safe_print MsgHintInvalidArgument else mret ()) ;;
  (if contains msg (py "PERMISSION_DENIED")
      || contains (unicode_lower msg) (py "permission_denied")
   then safe_print MsgHintPermissionDenied else mret ()) ;;
  mret None.

(** The reference normalized to the form [files/<id>]. *)
Definition normalize_ref (file_name : pystr) : pystr :=
  if startswith file_name (py "files/") then file_name
  else py "files/" ++ file_name.

Definition import_file_to_store (fuel : nat) (store_name file_name : pystr)
    : M (option Operation) :=
  if bool_decide (file_name = []) then
    safe_print (MsgSkipMissing store_name) ;; mret None
  else
    let file_ref := normalize_ref file_name in
    if negb (_is_valid_file_id (PStr file_ref)) then
      safe_print (MsgSkipInvalid file_ref) ;; mret None
    else
      safe_print (MsgImporting file_ref store_name) ;;
      issued ←
        try_except
          (emit (CallImport store_name file_ref) ;;
           op ← call (file_search_stores_import_file store_name file_ref);
           mret (Some op))
          (import_failed store_name file_ref);
      match issued with
      | None => mret None
      | Some op => op' ← wait_done fuel op; mret (Some op')
      end.

(** ** [clean_state] *)

Definition invalid_file_id (file_id : pyval) : bool :=
  negb (truthy file_id) || negb (_is_valid_file_id file_id).

(** One round of the loop over [list(self.state.items())]. *)
Definition clean_item (changed : bool) (kv : pystr * entry) : M bool :=
  let file_id := entry_get kv.2 (py "file_id") in
  if invalid_file_id file_id then
    safe_print (MsgRemoving kv.1 file_id) ;;
    st ← get_state;
    put_state (delete kv.1 st) ;;
    mret true
  else mret changed.

Definition clean_state : M unit :=
  st ← get_state;
  changed ← fold_loop clean_item false (map_to_list st);
  if changed : bool then _save_state else mret ().

(** ** [prepare] *)

(** The body of the loop over the files; [continue] ends the round. *)
Definition prepare_file (fuel : nat) (store_name : pystr) (f : Path) : M unit :=
  uploaded ←
    try_except (info ← upload_file f; mret (Some info))
      (λ e, safe_print (MsgUploadFailed (path_name f) e) ;; mret None);
  match uploaded with
  | None => mret ()
  | Some info =>
      if bool_decide (info = ∅) || negb (truthy (entry_get info (py "file_id")))
      then safe_print (MsgNoFileId (path_name f))
      else
        try_except
          (file_id ← match info !! py "file_id" with
                     | Some (Some s) => mret s
                     | _ => raise (KeyError (py "file_id"))
                     end;
           op ← import_file_to_store fuel store_name file_id;
           match op with
           | None => safe_print (MsgImportSkipped (path_name f))
           | Some _ => mret ()
           end)
          (λ e, safe_print (MsgImportingFailed (path_name f) e))
  end.

Definition prepare (fuel : nat) : M StoreRef :=
  safe_print MsgPreparing ;;
  store ← create_or_get_file_search_store;
  let store_name := sr_name store in
  files ← _list_docs;
  match files with
  | [] => safe_print MsgNoFiles ;; mret store
  | _ :: _ =>
      clean_state ;;
      for_each files (prepare_file fuel store_name) ;;
      safe_print MsgAllDone ;;
      mret store
  end.

End Tool.

(** ** A simulated world

    A small deterministic service and host on which the operations can
    be run: uploads get the name they ask for, except the name
    ["broken"], which is refused; the import of ["files/denied"] is
    refused; every other import is done after one poll, except for the
    file ["files/lost"], whose poll fails. *)
Module Sim.

Record world : Type := {
  rng : N;
  files : list Path
}.

Definition remote_error : exn :=
  {| exn_class := py "ClientError"; exn_msg := py "400 INVALID_ARGUMENT" |}.

#[global] Instance client : Client world := {|
  files_upload := λ _ name _ w,
    if bool_decide (name = py "broken") then (inl remote_error, w)
    else (inr {| rf_name := Some (py "files/" ++ name) |}, w);
  file_search_stores_list := λ w, (inr [], w);
  file_search_stores_create := λ d w,
    (inr {| sr_name := py "fileSearchStores/" ++ d; sr_display_name := Some d |}, w);
  file_search_stores_import_file := λ _ file_ref w,
    if bool_decide (file_ref = py "files/denied") then (inl remote_error, w)
    else (inr {| op_done := false; op_name := file_ref |}, w);
  operations_get := λ op w,
    if bool_decide (op_name op = py "files/lost") then (inl remote_error, w)
    else (inr {| op_done := true; op_name := op_name op |}, w)
|}.

#[global] Instance host : Host world := {|
  platform := Posix;
  unicodedata_nfkd := λ s, s;
  unicode_lower := lower;
  mimetypes_guess_type := λ _, None;
  os_urandom16 := λ w, (rng w, {| rng := rng w + 1; files := files w |});
  dir_exists := λ _ _, true;
  rglob_files := λ _ w, (inr (files w), w);
  shutil_copy2 := λ _ name w, (inr (py "/tmp/" ++ name), w);
  unlink_if_exists := λ _ w, (inr (), w)
|}.

Definition file (name : string) : Path :=
  {| path_str := py "docs/" ++ py name;
     path_name := py name;
     path_resolved := py "/srv/docs/" ++ py name |}.

Definition config : Config :=
  {| docs_dir := py "docs"; store_display_name := py "my-docs"; prefer_utf8 := false |}.

(** A fresh machine: nothing in the ledger, no state file. *)
Definition boot (fs : list Path) : Machine :=
  {| m_world := {| rng := 0; files := fs |};
     m_state := ∅; m_file := None; m_trace := [] |}.

(** The ledger of three entries: one with an empty id, one with an id
    of fifty characters, one valid. *)
Definition entry_with (file_id : pystr) : entry :=
  <[py "file_id" := Some file_id]> (<[py "file_name" := Some file_id]> ∅).

Definition ledger3 : ledger :=
  <[py "/srv/docs/empty.txt" := entry_with []]>
    (<[py "/srv/docs/long.txt" := entry_with (py "files/" ++ replicate 50 97)]>
       (<[py "/srv/docs/ok.txt" := entry_with (py "files/ok-1")]> ∅)).

Definition seeded (st : ledger) : Machine :=
  {| m_world := {| rng := 0; files := [] |};
     m_state := st; m_file := None; m_trace := [] |}.

End Sim.

(** ** A simulated service that keeps its stores

    The world is the list of the stores of the service: the listing
    returns it, and a creation adds a store whose display name is the
    one asked for. Uploads and imports succeed at once. The host has
    one directory, [docs], and it is empty. *)
Module Listed.

Record world : Type := { stores : list StoreRef }.

Definition new_store (d : pystr) : StoreRef :=
  {| sr_name := py "fileSearchStores/" ++ d; sr_display_name := Some d |}.

#[global] Instance client : Client world | 100 := {|
  files_upload := λ _ name _ w, (inr {| rf_name := Some (py "files/" ++ name) |}, w);
  file_search_stores_list := λ w, (inr (stores w), w);
  file_search_stores_create := λ d w,
    (inr (new_store d), {| stores := stores w ++ [new_store d] |});
  file_search_stores_import_file := λ _ file_ref w,
    (inr {| op_done := true; op_name := file_ref |}, w);
  operations_get := λ op w, (inr op, w)
|}.

#[global] Instance host : Host world | 100 := {|
  platform := Posix;
  unicodedata_nfkd := λ s, s;
  unicode_lower := lower;
  mimetypes_guess_type := λ _, None;
  os_urandom16 := λ w, (0, w);
  dir_exists := λ d _, bool_decide (d = py "docs");
  rglob_files := λ _ w, (inr [], w);
  shutil_copy2 := λ _ name w, (inr (py "/tmp/" ++ name), w);
  unlink_if_exists := λ _ w, (inr (), w)
|}.

Definition config : Config :=
  {| docs_dir := py "docs"; store_display_name := py "My Docs"; prefer_utf8 := false |}.

Definition boot (ss : list StoreRef) : Machine :=
  {| m_world := {| stores := ss |}; m_state := ∅; m_file := None; m_trace := [] |}.

End Listed.

(** ** Standard output: the module-level [safe_print]

    The tool itself sees a print as one event. This is what a print does
    to a text stream whose error handler is [strict], as that of
    [sys.stdout] is: [print] writes its arguments one by one, a space
    between them and a line feed after them, and a write raises
    [UnicodeEncodeError] when the stream cannot encode a character of
    its text, what was written before staying written. *)
Module Console.

(** The encodings of the stream that are followed here. *)
Inductive Codec : Type := Ascii | Latin1 | Utf8.

Definition encodable (k : Codec) (c : N) : bool :=
  match k with
  | Ascii => c <? 128
  | Latin1 => c <? 256
  | Utf8 => is_codepoint c && negb (is_surrogate c)
  end.

(** [s.encode(encoding)] does not raise. *)
Definition can_encode (k : Codec) (s : pystr) : bool := forallb (encodable k) s.

(** [s.encode(encoding, errors="replace").decode(encoding)]: a question
    mark for every character the encoding does not have. *)
Definition replaced (k : Codec) (s : pystr) : pystr :=
  map (λ c, if encodable k c then c else 63) s.

(** [stream.write(s)]: the text written so far, and whether the write
    returned ([true]) or raised [UnicodeEncodeError] ([false]). *)
Definition write (k : Codec) (s : pystr) (out : pystr) : bool * pystr :=
  if can_encode k s then (true, out ++ s) else (false, out).

(** The arguments of [print] after the first. *)
Fixpoint print_rest (k : Codec) (args : list pystr) (out : pystr) : bool * pystr :=
  match args with
  | [] => write k [10] out
  | a :: args' =>
      match write k [32] out with
      | (true, out1) =>
          match write k a out1 with
          | (true, out2) => print_rest k args' out2
          | r => r
          end
      | r => r
      end
  end.

(** [print] of the arguments with the default separator and end. *)
Definition print (k : Codec) (args : list pystr) (out : pystr) : bool * pystr :=
  match args with
  | [] => write k [10] out
  | a :: args' =>
      match write k a out with
      | (true, out1) => print_rest k args' out1
      | r => r
      end
  end.

(** [safe_print] of the arguments: [print], and after a [UnicodeEncodeError] a
    second [print] of the arguments made encodable. *)
Definition safe_print (k : Codec) (args : list pystr) (out : pystr) : bool * pystr :=
  match print k args out with
  | (true, out') => (true, out')
  | (false, out') =>
      let safe_args :=
        map (λ s, if can_encode k s then s else replaced k s) args in
      print k safe_args out'
  end.



End Console.

(** ** A simulated service whose imports never finish

    Uploads get the name they ask for, except the name ["broken"],
    which is refused. An import request is accepted, and its operation
    is never done: every poll returns the operation as it was. *)
Module Stalled.

Record world : Type := { files : list Path }.

#[global] Instance client : Client world | 100 := {|
  files_upload := λ _ name _ w,
    if bool_decide (name = py "broken") then (inl Sim.remote_error, w)
    else (inr {| rf_name := Some (py "files/" ++ name) |}, w);
  file_search_stores_list := λ w, (inr [], w);
  file_search_stores_create := λ d w,
    (inr {| sr_name := py "fileSearchStores/" ++ d; sr_display_name := Some d |}, w);
  file_search_stores_import_file := λ _ file_ref w,
    (inr {| op_done := false; op_name := file_ref |}, w);
  operations_get := λ op w, (inr op, w)
|}.

#[global] Instance host : Host world | 100 := {|
  platform := Posix;
  unicodedata_nfkd := λ s, s;
  unicode_lower := lower;
  mimetypes_guess_type := λ _, None;
  os_urandom16 := λ w, (0, w);
  dir_exists := λ _ _, true;
  rglob_files := λ _ w, (inr (files w), w);
  shutil_copy2 := λ _ name w, (inr (py "/tmp/" ++ name), w);
  unlink_if_exists := λ _ w, (inr (), w)
|}.

(** A fresh machine: nothing in the ledger, no state file. *)
Definition boot (fs : list Path) : Machine :=
  {| m_world := {| files := fs |};
     m_state := ∅; m_file := None; m_trace := [] |}.

End Stalled.

(** ** Vocabulary of the statements *)

(** An entry stays when its [file_id] is non-empty and passes the
    identifier predicate. *)
Definition keeps (e : entry) : bool :=
  negb (invalid_file_id (entry_get e (py "file_id"))).

(** The ledger after the rounds over [items]. *)
Definition pruned (st : ledger) (items : list (pystr * entry)) : ledger :=
  foldl (λ st kv, if keeps kv.2 then st else delete kv.1 st) st items.

Definition removal (kv : pystr * entry) : list event :=
  if keeps kv.2 then []
  else [Print (MsgRemoving kv.1 (entry_get kv.2 (py "file_id")))].


(** What a run of [c] adds to the trace satisfies [P], from every
    machine; and, when [nb] is set, the run is never blocked. *)
Definition runs {World : Type} (P : event → Prop) (nb : bool) {A : Type}
    (c : @M World A) : Prop :=
  ∀ m, (∃ t, m_trace (c m).2 = m_trace m ++ t ∧ Forall P t)
       ∧ (nb = true → (c m).1 ≠ Blocked).

(** The events of store resolution and listing: no upload, no import,
    no write. *)
Definition resolution_event (e : event) : Prop :=
  match e with
  | CallListStores | CallCreateStore _ | Print _ => True
  | _ => False
  end.

(** The events of the prune: a removal report or the write of the file. *)
Definition prune_event (e : event) : Prop :=
  match e with
  | Print (MsgRemoving _ _) | WriteText _ => True
  | _ => False
  end.

(** An import request, if the event is one, carries a reference that
    passes the identifier predicate. *)
Definition valid_import (e : event) : Prop :=
  match e with
  | CallImport _ file_ref => _is_valid_file_id (PStr file_ref) = true
  | _ => True
  end.

(** No run of [c] ends in an exception. *)
Definition never_raises {World : Type} {A : Type} (c : @M World A) : Prop :=
  ∀ m e, (c m).1 ≠ Raise e.

(** A Unicode scalar value: a code point that is no surrogate. These
    are the characters; they are what UTF-8 can write. *)
Definition is_scalar (c : N) : bool := is_codepoint c && negb (is_surrogate c).

(** A string of characters. *)
Definition scalar_str (s : pystr) : Prop := forallb is_scalar s = true.

(** A ledger all of whose keys, field names and values are strings of
    characters. *)
Definition scalar_ledger (l : ledger) : Prop :=
  map_Forall (λ k (e : entry),
    scalar_str k
    ∧ map_Forall (λ f (v : option pystr),
        scalar_str f ∧ ∀ s, v = Some s → scalar_str s) e) l.

(** The strings of a document are strings of characters. *)
Fixpoint scalar_json (j : json) : Prop :=
  match j with
  | JNull | JBool _ => True
  | JStr s => scalar_str s
  | JArr l => foldr (λ x acc, scalar_json x ∧ acc) True l
  | JObj ms => foldr (λ kv acc, scalar_str kv.1 ∧ scalar_json kv.2 ∧ acc) True ms
  end.

(** The fuel that scanning a document needs. *)
Fixpoint weight (j : json) : nat :=
  match j with
  | JArr l => S (foldr (λ x acc, weight x + acc)%nat 0%nat l)
  | JObj ms => S (foldr (λ kv acc, weight kv.2 + acc)%nat 0%nat ms)
  | _ => 1%nat
  end.

(** The characters a document can start with. *)
Definition opens (c : N) : Prop :=
  c = 110 ∨ c = 116 ∨ c = 102 ∨ c = 34 ∨ c = 91 ∨ c = 123.

(** A run of [c] leaves the ledger and the state file as they were. *)
Definition frames {World : Type} {A : Type} (c : @M World A) : Prop :=
  ∀ m, m_state (c m).2 = m_state m ∧ m_file (c m).2 = m_file m.

(** The upload proper of [upload_file]: with [prefer_utf8] the original
    name first and the safe name after a failure, without it the safe
    name alone. *)
Definition attempt {World : Type} `{!Client World, !Host World}
    (self : Config) (file_path : Path) (safe_name : pystr) : @M World RemoteFile :=
  if prefer_utf8 self then
    try_except (try_upload_with_name file_path (path_name file_path))
      (λ _, safe_print MsgFallbackUpload ;;
            try_upload_with_name file_path safe_name)
  else try_upload_with_name file_path safe_name.

(** The test of [create_or_get_file_search_store] on a listed store:
    its display name is the name asked for or the sanitized name. *)
Definition matches_name (self : Config) (safe_display : pystr) (s : StoreRef) : bool :=
  bool_decide (sr_display_name s = Some (store_display_name self))
  || bool_decide (sr_display_name s = Some safe_display).

(** The events of an import: the request, the sleeps and polls of the
    wait, and what is printed. No upload, no write. *)
Definition import_event (e : event) : Prop :=
  match e with
  | Print _ | CallImport _ _ | Sleep _ | CallGetOperation _ => True
  | _ => False
  end.

(** Every entry of [st] that stays under [clean_state] is an entry of
    [st']. *)
Definition extends (st st' : ledger) : Prop :=
  ∀ k e, st !! k = Some e → keeps e = true → st' !! k = Some e.

(** A run of [c] keeps every such entry of the ledger. *)
Definition preserves {World : Type} {A : Type} (c : @M World A) : Prop :=
  ∀ m, extends (m_state m) (m_state (c m).2).

(** The MIME type [try_upload_with_name] sends: the guess of the host
    for the file name, or the default when there is none. *)
Definition mime_of {World : Type} `{!Host World} (file_path : Path) : pystr :=
  match mimetypes_guess_type (path_name file_path) with
  | Some (c :: t) => c :: t
  | _ => default_mime
  end.

(** A run of [c] adds at most [n] events of the kind [p] to the trace. *)
Definition calls {World : Type} {A : Type} (p : event → bool) (n : nat)
    (c : @M World A) : Prop :=
  ∀ m, ∃ t, m_trace (c m).2 = m_trace m ++ t
            ∧ (length (filter (λ e, p e = true) t) ≤ n)%nat.

(** ** Decidable equality

    Equality of the values of the model is decidable, so that a run of
    the model can be compared with its expected result by evaluation. *)
#[global] Instance pyval_eq_dec : EqDecision pyval.
Proof. solve_decision. Defined.
#[global] Instance Path_eq_dec : EqDecision Path.
Proof. solve_decision. Defined.
#[global] Instance StoreRef_eq_dec : EqDecision StoreRef.
Proof. solve_decision. Defined.
#[global] Instance RemoteFile_eq_dec : EqDecision RemoteFile.
Proof. solve_decision. Defined.
#[global] Instance Operation_eq_dec : EqDecision Operation.
Proof. solve_decision. Defined.
#[global] Instance exn_eq_dec : EqDecision exn.
Proof. solve_decision. Defined.
#[global] Instance message_eq_dec : EqDecision message.
Proof. solve_decision. Defined.
#[global] Instance event_eq_dec : EqDecision event.
Proof. solve_decision. Defined.
#[global] Instance outcome_eq_dec {A} `{EqDecision A} : EqDecision (outcome A).
Proof. solve_decision. Defined.
#[global] Instance Machine_eq_dec {World} `{EqDecision World} :
  EqDecision (@Machine World).
Proof. solve_decision. Defined.
#[global] Instance Sim_world_eq_dec : EqDecision Sim.world.
Proof. solve_decision. Defined.
#[global] Instance Listed_world_eq_dec : EqDecision Listed.world.
Proof. solve_decision. Defined.
#[global] Instance Stalled_world_eq_dec : EqDecision Stalled.world.
Proof. solve_decision. Defined.

(** * Properties *)

(** Decides a closed statement about a run of the model by evaluating
    its decision procedure. *)
Ltac run_eq := apply (bool_decide_unpack _); vm_compute; exact I.

(** ** Lists cut by a predicate *)

Section Spans.
Context {A : Type} (p : A → bool).

Lemma take_drop_while (l : list A) : take_while p l ++ drop_while p l = l.
Proof. induction l as [|x l IH]; simpl; [done|]. destruct (p x); simpl; congruence. Qed.

Lemma take_while_all (l : list A) : forallb p (take_while p l) = true.
Proof.
  induction l as [|x l IH]; simpl; [done|].
  destruct (p x) eqn:E; simpl; [by rewrite E|done].
Qed.

Lemma take_while_id (l : list A) : forallb p l = true → take_while p l = l.
Proof.
  induction l as [|x l IH]; simpl; [done|].
  intros [Hx Hl]%andb_prop. rewrite Hx. f_equal. auto.
Qed.

Lemma drop_while_all (l : list A) : forallb p l = true → drop_while p l = [].
Proof.
  induction l as [|x l IH]; simpl; [done|].
  intros [Hx Hl]%andb_prop. rewrite Hx. auto.
Qed.

Lemma drop_while_nil (l : list A) : drop_while p l = [] → forallb p l = true.
Proof.
  induction l as [|x l IH]; simpl; [done|].
  destruct (p x); [auto|done].
Qed.

Lemma drop_while_head (l : list A) x r : drop_while p l = x :: r → p x = false.
Proof.
  induction l as [|y l IH]; simpl; [done|].
  destruct (p y) eqn:E; [auto|]. intros [= <- <-]. done.
Qed.

Lemma take_while_stop (a : list A) x b :
  forallb p a = true → p x = false → take_while p (a ++ x :: b) = a.
Proof.
  induction a as [|y a IH]; simpl; intros Ha Hx.
  - by rewrite Hx.
  - apply andb_prop in Ha as [Hy Ha]. rewrite Hy. f_equal. auto.
Qed.

Lemma drop_while_stop (a : list A) x b :
  forallb p a = true → p x = false → drop_while p (a ++ x :: b) = x :: b.
Proof.
  induction a as [|y a IH]; simpl; intros Ha Hx.
  - by rewrite Hx.
  - apply andb_prop in Ha as [Hy Ha]. rewrite Hy. auto.
Qed.

(** Whatever precedes a character the predicate refuses, the cut never
    goes past it. *)
Lemma drop_while_keeps (a : list A) x b :
  p x = false → ∃ l, drop_while p (a ++ x :: b) = l ++ x :: b.
Proof.
  intros Hx. induction a as [|y a [l IH]]; simpl.
  - rewrite Hx. by exists [].
  - destruct (p y); [by exists l|]. by exists (y :: a).
Qed.

Lemma drop_while_length (l : list A) : (length (drop_while p l) ≤ length l)%nat.
Proof. induction l as [|x l IH]; simpl; [done|]. destruct (p x); simpl; lia. Qed.

Lemma drop_while_Forall (Q : A → Prop) (l : list A) :
  Forall Q l → Forall Q (drop_while p l).
Proof.
  induction 1 as [|x l Hx Hl IH]; simpl; [done|].
  destruct (p x); [done|by constructor].
Qed.

End Spans.

Lemma forallb_Forall_iff {A} (p : A → bool) (l : list A) :
  forallb p l = true ↔ Forall (λ x, p x = true) l.
Proof.
  induction l as [|x l IH]; simpl.
  - split; [constructor|done].
  - rewrite andb_true_iff, IH. split.
    + intros [??]. by constructor.
    + by inversion 1.
Qed.

(** ** Prefixes *)

Lemma py_files : py "files/" = [102; 105; 108; 101; 115; 47].
Proof. reflexivity. Qed.

Lemma startswith_app (pre t : pystr) : startswith (pre ++ t) pre = true.
Proof. induction pre as [|c pre IH]; simpl; [done|]. by rewrite N.eqb_refl. Qed.

Lemma startswith_inv (s pre : pystr) :
  startswith s pre = true → s = pre ++ drop (length pre) s.
Proof.
  revert s. induction pre as [|c pre IH]; intros [|x s]; simpl; try done.
  intros [Hc Hs]%andb_prop. apply N.eqb_eq in Hc as ->. f_equal. auto.
Qed.

(** ** The identifier predicate *)

Lemma split_once_files (id : pystr) :
  split_once 47 (py "files/" ++ id) !! 1%nat = Some id.
Proof. rewrite py_files. reflexivity. Qed.

(** The id portion of a prefixed reference is what follows the prefix. *)
Lemma is_valid_prefixed (id : pystr) :
  _is_valid_file_id (PStr (py "files/" ++ id)) =
    negb (bool_decide (id = [])) && (length id <=? 40)%nat && re_match_id id.
Proof.
  unfold _is_valid_file_id. rewrite startswith_app, split_once_files.
  change (negb true) with false. cbv iota.
  destruct (bool_decide (id = [])); [done|].
  rewrite Nat.ltb_antisym. by destruct (length id <=? 40)%nat.
Qed.

(** On a string of class characters the pattern matches as soon as the
    string is not empty. *)
Lemma re_match_id_class (id : pystr) :
  forallb id_char id = true → re_match_id id = negb (bool_decide (id = [])).
Proof.
  intros H. unfold re_match_id.
  rewrite (take_while_id _ _ H), (drop_while_all _ _ H).
  by destruct id.
Qed.

(** A match is a non-empty run of class characters, followed by nothing
    or by one line feed. *)
Lemma re_match_id_inv (id : pystr) :
  re_match_id id = true →
  ∃ run, run ≠ [] ∧ forallb id_char run = true ∧ (id = run ∨ id = run ++ [10]).
Proof.
  unfold re_match_id. intros H.
  exists (take_while id_char id).
  pose proof (take_drop_while id_char id) as Hsplit.
  pose proof (take_while_all id_char id) as Hall.
  destruct (take_while id_char id) as [|c run] eqn:Et; [done|].
  split; [done|]. split; [done|].
  destruct (drop_while id_char id) as [|x [|y r]] eqn:Ed; [| |done].
  - left. by rewrite app_nil_r in Hsplit.
  - right. apply N.eqb_eq in H as ->. done.
Qed.

(** Everything the specification calls valid, the code accepts. *)
Lemma spec_valid_is_valid (file_ref : pystr) :
  spec_valid_ref file_ref = true → _is_valid_file_id (PStr file_ref) = true.
Proof.
  unfold spec_valid_ref, spec_id_syntax.
  intros [Hpre [[Hlo Hhi]%andb_prop Hall]%andb_prop]%andb_prop.
  rewrite (startswith_inv _ _ Hpre). change (length (py "files/")) with 6%nat.
  rewrite is_valid_prefixed, re_match_id_class, Hhi by done.
  destruct (drop 6 file_ref); [done|]. by rewrite bool_decide_eq_false_2.
Qed.

(** What the code accepts is valid in the specification's sense as long
    as the reference holds no line feed. *)
Lemma is_valid_spec_valid (file_ref : pystr) :
  10 ∉ file_ref →
  _is_valid_file_id (PStr file_ref) = true → spec_valid_ref file_ref = true.
Proof.
  intros Hnl. unfold _is_valid_file_id.
  destruct (startswith file_ref (py "files/")) eqn:Hpre; [|done].
  pose proof (startswith_inv _ _ Hpre) as Hs.
  change (length (py "files/")) with 6%nat in Hs.
  unfold spec_valid_ref, spec_id_syntax. rewrite Hpre.
  rewrite Hs at 1. rewrite split_once_files.
  change (negb true) with false. cbv iota.
  case_bool_decide as Hne; [done|].
  destruct (40 <? length (drop 6 file_ref))%nat eqn:Hlen; [done|].
  intros (run & Hrun & Hall & [Hid|Hid])%re_match_id_inv.
  - apply Nat.ltb_ge in Hlen. rewrite Hid in *.
    rewrite !andb_true_iff. split_and!; [done| |by apply Nat.leb_le|done].
    by destruct run.
  - exfalso. apply Hnl. rewrite Hs, Hid. set_solver.
Qed.

(** A reference whose id portion holds a slash is refused. *)
Lemma is_valid_no_slash (a b : pystr) :
  _is_valid_file_id (PStr (py "files/" ++ a ++ [47] ++ b)) = false.
Proof.
  rewrite is_valid_prefixed.
  apply andb_false_intro2. unfold re_match_id.
  destruct (take_while id_char (a ++ [47] ++ b)); [done|].
  destruct (drop_while_keeps id_char a 47 b eq_refl) as [k Hk].
  simpl. rewrite Hk.
  destruct k as [|x [|y k]], b; done.
Qed.

(** C4, the cases of the specification: the code decides them as stated. *)
Lemma is_valid_file_id_examples :
  _is_valid_file_id (PStr (py "files/abc-123")) = true
  ∧ _is_valid_file_id (PStr (py "files/")) = false
  ∧ _is_valid_file_id
      (PStr (py "files/aaaaaaaaaaaaaaaaaaaaaaaaaaaaaaaaaaaaaaaaa")) = false
  ∧ _is_valid_file_id (PStr (py "files/ABC")) = false
  ∧ _is_valid_file_id (PStr (py "abc-123")) = false.
Proof. repeat split; reflexivity. Qed.

(** C4: [_is_valid_file_id] accepts the reference ["files/abc\n"], whose
    id portion ends in a line feed and so is no string of one to forty
    lowercase letters, digits and dashes: the [$] of the pattern also
    matches before a final line feed. *)
Theorem is_valid_file_id_trailing_newline :
  _is_valid_file_id (PStr (py "files/abc" ++ [10])) = true
  ∧ spec_valid_ref (py "files/abc" ++ [10]) = false
  ∧ forallb id_char (drop 6 (py "files/abc" ++ [10])) = false.
Proof. repeat split; reflexivity. Qed.

(** C10: [_is_valid_file_id] is false on every value that is no string,
    and on every reference whose id portion, the text after ["files/"],
    holds a further slash. *)
Theorem is_valid_file_id_rejects :
  _is_valid_file_id PNone = false
  ∧ (∀ b, _is_valid_file_id (PBool b) = false)
  ∧ (∀ z, _is_valid_file_id (PInt z) = false)
  ∧ (∀ a b, _is_valid_file_id (PStr (py "files/" ++ a ++ [47] ++ b)) = false)
  ∧ _is_valid_file_id (PStr (py "files/abc/def")) = false.
Proof.
  split; [done|]. split; [done|]. split; [done|].
  split; [apply is_valid_no_slash|reflexivity].
Qed.

(** ** The sanitizer *)

Lemma forallb_reverse {A} (p : A → bool) (l : list A) :
  forallb p (reverse l) = forallb p l.
Proof.
  induction l as [|x l IH]; [done|].
  rewrite reverse_cons, forallb_app, IH. simpl.
  rewrite andb_true_r. apply andb_comm.
Qed.

Lemma forallb_drop_while {A} (p q : A → bool) (l : list A) :
  forallb p l = true → forallb p (drop_while q l) = true.
Proof.
  rewrite !forallb_Forall_iff. apply drop_while_Forall.
Qed.

Lemma forallb_take {A} (p : A → bool) n (l : list A) :
  forallb p l = true → forallb p (take n l) = true.
Proof. rewrite !forallb_Forall_iff. apply Forall_take. Qed.

Lemma rstrip_class (p : N → bool) c (s : pystr) :
  forallb p s = true → forallb p (rstrip c s) = true.
Proof.
  intros H. unfold rstrip, lstrip.
  rewrite forallb_reverse. apply forallb_drop_while. by rewrite forallb_reverse.
Qed.

Lemma strip_class (p : N → bool) c (s : pystr) :
  forallb p s = true → forallb p (strip c s) = true.
Proof.
  intros H. unfold strip. apply rstrip_class. by apply forallb_drop_while.
Qed.

Lemma rstrip_length c (s : pystr) : (length (rstrip c s) ≤ length s)%nat.
Proof.
  unfold rstrip, lstrip. rewrite length_reverse.
  etrans; [apply drop_while_length|]. by rewrite length_reverse.
Qed.

Lemma alnum_id_char c : alnum_char c = true → id_char c = true.
Proof. unfold id_char, alnum_char. intros ->. done. Qed.

Lemma re_sub_dash_class b (s : pystr) :
  forallb id_char (re_sub_dash_from b s) = true.
Proof.
  revert b. induction s as [|c s IH]; intros b; [done|].
  cbn [re_sub_dash_from]. destruct (alnum_char c) eqn:E.
  - cbn [forallb]. by rewrite (alnum_id_char _ E), IH.
  - destruct b; [apply IH|]. cbn [forallb]. by rewrite IH.
Qed.

Lemma slug_of_class nfkd (base : pystr) :
  forallb id_char (slug_of nfkd base) = true.
Proof. unfold slug_of. apply strip_class, re_sub_dash_class. Qed.

Lemma enforce_max_length (slug : pystr) : (length (enforce_max slug) ≤ 40)%nat.
Proof.
  unfold enforce_max. destruct (40 <? length slug)%nat eqn:E.
  - etrans; [apply rstrip_length|]. rewrite length_take. lia.
  - apply Nat.ltb_ge in E. done.
Qed.

Lemma enforce_max_class (p : N → bool) (slug : pystr) :
  forallb p slug = true → forallb p (enforce_max slug) = true.
Proof.
  intros H. unfold enforce_max. destruct (40 <? length slug)%nat; [|done].
  by apply rstrip_class, forallb_take.
Qed.

Lemma hex_digit_class d : d < 16 → id_char (hex_digit d) = true.
Proof.
  intros H. unfold hex_digit, id_char.
  destruct (N.ltb_spec d 10).
  - apply orb_true_intro; left. apply orb_true_intro; right.
    apply andb_true_intro; split; apply N.leb_le; lia.
  - apply orb_true_intro; left. apply orb_true_intro; left.
    apply andb_true_intro; split; apply N.leb_le; lia.
Qed.

Lemma hex_fixed_class n x : forallb id_char (hex_fixed n x) = true.
Proof.
  revert x. induction n as [|n IH]; intros x; simpl; [done|].
  rewrite forallb_app, IH. simpl.
  rewrite hex_digit_class; [done|]. by apply N.mod_lt.
Qed.

Lemma hex_fixed_length n x : length (hex_fixed n x) = n.
Proof.
  revert x. induction n as [|n IH]; intros x; simpl; [done|].
  rewrite length_app, IH. simpl. lia.
Qed.

Lemma fallback_class r : forallb id_char (py "file-" ++ uuid4_hex r) = true.
Proof. rewrite forallb_app. unfold uuid4_hex. by rewrite hex_fixed_class. Qed.

Lemma fallback_length r : length (py "file-" ++ uuid4_hex r) = 37%nat.
Proof. rewrite length_app. unfold uuid4_hex. by rewrite hex_fixed_length. Qed.

(** No class character is a dot or a separator of either platform. *)
Lemma id_char_plain c :
  id_char c = true → c ≠ 46 ∧ c ≠ 47 ∧ c ≠ 92.
Proof.
  unfold id_char. rewrite !orb_true_iff, !andb_true_iff, !N.leb_le, N.eqb_eq. lia.
Qed.

(** [splitext] cuts a plain extension off a file name: the stem has no
    separator and is not made of dots alone, the extension has neither
    dot nor separator. *)
Lemma existsb_first {A} (p : A → bool) (l : list A) :
  existsb p l = true →
  ∃ a x b, l = a ++ x :: b ∧ forallb (λ y, negb (p y)) a = true ∧ p x = true.
Proof.
  induction l as [|y l IH]; simpl; [done|].
  destruct (p y) eqn:E.
  - intros _. by exists [], y, l.
  - intros (a & x & b & -> & Ha & Hx)%IH.
    exists (y :: a), x, b. simpl. by rewrite E.
Qed.

Lemma splitext_plain pf (stem e : pystr) :
  file_stem pf stem = true → plain_ext pf e = true →
  splitext pf (stem ++ 46 :: e) = (stem, 46 :: e).
Proof.
  unfold file_stem, plain_ext.
  intros [Hsep Hex]%andb_prop [Hesep Hedot]%andb_prop.
  assert (Hall : forallb (λ c, negb (is_sep pf c)) (reverse (stem ++ 46 :: e)) = true).
  { rewrite forallb_reverse, forallb_app. simpl.
    rewrite Hsep, Hesep. by destruct pf. }
  unfold splitext.
  rewrite (take_while_id _ _ Hall), (drop_while_all _ _ Hall), reverse_involutive.
  apply existsb_first in Hex as (d & x & t & -> & Hd & Hx).
  assert (Hd' : forallb is_dot d = true).
  { clear -Hd. induction d as [|y d IH]; simpl in *; [done|].
    apply andb_prop in Hd as [Hy Hd]. rewrite IH by done.
    by destruct (is_dot y). }
  apply negb_true_iff in Hx.
  rewrite <-!app_assoc. simpl.
  rewrite (take_while_stop is_dot d x _ Hd' Hx).
  rewrite (drop_while_stop is_dot d x _ Hd' Hx).
  change (x :: t ++ 46 :: e) with ((x :: t) ++ 46 :: e).
  rewrite reverse_app, reverse_cons.
  rewrite <-(app_assoc (reverse e) [46]). simpl.
  assert (Hre : forallb (λ c, negb (is_dot c)) (reverse e) = true)
    by by rewrite forallb_reverse.
  rewrite (drop_while_stop _ (reverse e) 46 _ Hre eq_refl).
  rewrite (take_while_stop _ (reverse e) 46 _ Hre eq_refl).
  by rewrite !reverse_involutive.
Qed.

Section Sanitizer.
Context {World : Type} `{!Client World, !Host World}.
Local Abbreviation M := (@M World).
Local Abbreviation Machine := (@Machine World).

(** What [sanitize_base] returns, and that only the random draw touches
    the machine. *)
Lemma sanitize_base_run (base : pystr) (m : Machine) :
  sanitize_base base m =
    if bool_decide (slug_of unicodedata_nfkd base = [])
    then (Ok (enforce_max (py "file-" ++ uuid4_hex (os_urandom16 (m_world m)).1)),
          set_world (os_urandom16 (m_world m)).2 m)
    else (Ok (enforce_max (slug_of unicodedata_nfkd base)), m).
Proof.
  unfold sanitize_base, mbind, M_bind, mret, M_ret, uuid4.
  case_bool_decide; [|done].
  by destruct (os_urandom16 (m_world m)).
Qed.

Lemma sanitize_base_total (base : pystr) (m : Machine) :
  ∃ out m', sanitize_base base m = (Ok out, m')
    ∧ (length out ≤ 40)%nat ∧ forallb id_char out = true
    ∧ m_state m' = m_state m ∧ m_file m' = m_file m ∧ m_trace m' = m_trace m.
Proof.
  rewrite sanitize_base_run. case_bool_decide.
  - eexists _, _. split; [done|].
    split; [apply enforce_max_length|].
    split; [apply enforce_max_class, fallback_class|done].
  - eexists _, _. split; [done|].
    split; [apply enforce_max_length|].
    split; [apply enforce_max_class, slug_of_class|done].
Qed.

(** C3: for every input and in every state, [_ascii_safe] returns a
    string of at most 40 characters, all of them in [[a-z0-9-]] (the
    random fallback included), hence without dot, slash or backslash;
    and the extension of a file name takes no part in the result, which
    is what the rest of the function makes of the stem alone. *)
Theorem ascii_safe_output (s : pystr) (m : Machine) :
  ∃ out m', _ascii_safe s m = (Ok out, m')
    ∧ (length out ≤ 40)%nat
    ∧ forallb id_char out = true
    ∧ (∀ c, c ∈ out → c ≠ 46 ∧ c ≠ 47 ∧ c ≠ 92)
    ∧ (∀ stem e, file_stem platform stem = true → plain_ext platform e = true →
         s = stem ++ 46 :: e → sanitize_base stem m = (Ok out, m')).
Proof.
  unfold _ascii_safe.
  destruct (sanitize_base_total (splitext platform s).1 m)
    as (out & m' & Hrun & Hlen & Hclass & _).
  exists out, m'. split; [done|]. split; [done|]. split; [done|]. split.
  - intros c Hc. apply id_char_plain.
    apply forallb_Forall_iff in Hclass.
    by apply (proj1 (Forall_forall _ _) Hclass).
  - intros stem e Hstem Hext ->.
    by rewrite (splitext_plain _ _ _ Hstem Hext) in Hrun.
Qed.

(** C7, as the code has it: when the slug of the input is not empty,
    the result is that slug cut to length, whatever the state the call
    starts in, and the call leaves the state alone; two applications
    then agree. *)
Theorem ascii_safe_deterministic (s : pystr) (m1 m2 : Machine) :
  slug_of unicodedata_nfkd (splitext platform s).1 ≠ [] →
  (_ascii_safe s m1).1 = (_ascii_safe s m2).1
  ∧ (_ascii_safe s m1).2 = m1
  ∧ (_ascii_safe s m1).1 =
      Ok (enforce_max (slug_of unicodedata_nfkd (splitext platform s).1)).
Proof.
  intros Hslug. unfold _ascii_safe. rewrite !sanitize_base_run.
  by rewrite !bool_decide_eq_false_2.
Qed.

End Sanitizer.

(** C3 at the file name ["Report 2024.txt"]. *)
Lemma ascii_safe_output_witness :
  ∃ out m', _ascii_safe (py "Report 2024.txt") (Sim.boot []) = (Ok out, m')
    ∧ (length out ≤ 40)%nat
    ∧ forallb id_char out = true
    ∧ (∀ c, c ∈ out → c ≠ 46 ∧ c ≠ 47 ∧ c ≠ 92)
    ∧ sanitize_base (py "Report 2024") (Sim.boot []) = (Ok out, m').
Proof.
  destruct (ascii_safe_output (py "Report 2024.txt") (Sim.boot []))
    as (out & m' & Hrun & Hlen & Hclass & Hplain & Hext).
  exists out, m'. split; [done|]. split; [done|]. split; [done|]. split; [done|].
  apply (Hext (py "Report 2024") (py "txt")); reflexivity.
Defined.

(** C7 at the name ["a.txt"], from two different states of the random
    source. *)
Lemma ascii_safe_deterministic_witness :
  (_ascii_safe (py "a.txt") (Sim.boot [])).1
  = (_ascii_safe (py "a.txt") (_ascii_safe (py "") (Sim.boot [])).2).1.
Proof.
  refine (proj1 (ascii_safe_deterministic (py "a.txt") _ _ _)).
  vm_compute. discriminate.
Defined.

(** C7 as stated fails: the empty name sanitizes to the random fallback,
    and two applications in a row return two different tokens. *)
Lemma ascii_safe_two_runs_differ :
  (_ascii_safe (py "") (Sim.boot [])).1
  ≠ (_ascii_safe (py "") (_ascii_safe (py "") (Sim.boot [])).2).1.
Proof. vm_compute. discriminate. Qed.

(** ** Running the monad *)

Section Runs.
Context {World : Type} `{!Client World, !Host World}.
Local Abbreviation M := (@M World).
Local Abbreviation Machine := (@Machine World).

Lemma bind_run {A B} (c : M A) (f : A → M B) (m : Machine) :
  (c ≫= f) m =
    match c m return outcome B * Machine with
    | (Ok a, m') => f a m'
    | (Raise e, m') => (Raise e, m')
    | (Blocked, m') => (Blocked, m')
    end.
Proof. reflexivity. Qed.

Lemma bind_ok {A B} (c : M A) (f : A → M B) (m m' : Machine) a :
  c m = (Ok a, m') → (c ≫= f) m = f a m'.
Proof. intros H. by rewrite bind_run, H. Qed.

(** A sequence that returns has returned from its first part. *)
Lemma bind_inv_ok {A B} (c : M A) (f : A → M B) (m m' : Machine) b :
  (c ≫= f) m = (Ok b, m') →
  ∃ a m1, c m = (Ok a, m1) ∧ f a m1 = (Ok b, m').
Proof.
  rewrite bind_run. destruct (c m) as [[a|e|] m1]; [|done..].
  intros H. by exists a, m1.
Qed.

Lemma machine_eta (m : Machine) :
  {| m_world := m_world m; m_state := m_state m; m_file := m_file m;
     m_trace := m_trace m |} = m.
Proof. by destruct m. Qed.

(** ** Pruning: [clean_state] *)

Lemma clean_item_run (changed : bool) (kv : pystr * entry) (m : Machine) :
  clean_item changed kv m =
    (Ok (changed || negb (keeps kv.2)),
     {| m_world := m_world m;
        m_state := if keeps kv.2 then m_state m else delete kv.1 (m_state m);
        m_file := m_file m;
        m_trace := m_trace m ++ removal kv |}).
Proof.
  unfold clean_item, removal, keeps.
  destruct (invalid_file_id _) eqn:E; simpl.
  - by rewrite orb_true_r.
  - by rewrite orb_false_r, app_nil_r, machine_eta.
Qed.

Lemma clean_loop_run (items : list (pystr * entry)) (changed : bool) (m : Machine) :
  fold_loop clean_item changed items m =
    (Ok (changed || existsb (λ kv, negb (keeps kv.2)) items),
     {| m_world := m_world m;
        m_state := pruned (m_state m) items;
        m_file := m_file m;
        m_trace := m_trace m ++ concat (removal <$> items) |}).
Proof.
  revert changed m. induction items as [|kv items IH]; intros changed m.
  - simpl. by rewrite orb_false_r, app_nil_r, machine_eta.
  - cbn [fold_loop]. rewrite (bind_ok _ _ _ _ _ (clean_item_run _ _ _)).
    rewrite IH. simpl. by rewrite orb_assoc, app_assoc.
Qed.

Lemma pruned_lookup (items : list (pystr * entry)) (st : ledger) k e :
  pruned st items !! k = Some e ↔
  st !! k = Some e ∧ ∀ e', (k, e') ∈ items → keeps e' = true.
Proof.
  revert st. induction items as [|[k' e'] items IH]; intros st.
  - simpl. split; [|by intros [? _]]. intros H. split; [done|]. by intros ? ?%elem_of_nil.
  - cbn [pruned foldl]. fold (pruned (if keeps e' then st else delete k' st) items).
    rewrite IH. cbn [fst snd]. split.
    + intros [Hl Hall]. destruct (keeps e') eqn:Ek.
      * split; [done|]. intros e'' [[= -> ->]|?]%elem_of_cons; auto.
      * apply lookup_delete_Some in Hl as [Hne Hl]. split; [done|].
        intros e'' [[= -> ->]|?]%elem_of_cons; [done|auto].
    + intros [Hl Hall]. split.
      * destruct (keeps e') eqn:Ek; [done|].
        apply lookup_delete_Some. split; [|done].
        intros ->. specialize (Hall e' ltac:(left)). congruence.
      * intros e'' ?. apply Hall. by right.
Qed.

Lemma pruned_filter (st : ledger) :
  pruned st (map_to_list st) = filter (λ kv, keeps kv.2 = true) st.
Proof.
  apply map_eq. intros k. apply option_eq. intros e.
  rewrite pruned_lookup, map_lookup_filter_Some. cbn [snd]. split.
  - intros [Hl Hall]. split; [done|]. apply Hall. by apply elem_of_map_to_list.
  - intros [Hl Hk]. split; [done|].
    intros e' He'%elem_of_map_to_list. congruence.
Qed.

(** The ledger after [clean_state], whether or not the write that
    follows a removal succeeds. *)
Lemma clean_state_state (m : Machine) :
  m_state (clean_state m).2 = filter (λ kv, keeps kv.2 = true) (m_state m).
Proof.
  unfold clean_state. rewrite bind_run. cbn [get_state].
  rewrite bind_run, clean_loop_run. rewrite <-pruned_filter.
  destruct (_ || _); [|done].
  unfold _save_state. cbn [m_state]. by destruct (utf8_encode _).
Qed.

(** C5: [clean_state] leaves in the ledger exactly the entries whose
    [file_id] is non-empty and passes [_is_valid_file_id], and removes
    all others; on a ledger that has only such entries it changes
    nothing: same ledger, same state file, nothing written, nothing
    printed. *)
Theorem clean_state_prunes (m : Machine) :
  m_state (clean_state m).2 = filter (λ kv, keeps kv.2 = true) (m_state m)
  ∧ (∀ k e, m_state m !! k = Some e →
       m_state (clean_state m).2 !! k =
         if truthy (entry_get e (py "file_id"))
            && _is_valid_file_id (entry_get e (py "file_id"))
         then Some e else None)
  ∧ (map_Forall (λ _ e, keeps e = true) (m_state m) → clean_state m = (Ok (), m)).
Proof.
  pose proof (clean_state_state m) as Hst.
  split; [done|]. split.
  - intros k e Hl. rewrite Hst.
    replace (truthy _ && _is_valid_file_id _) with (keeps e)
      by (unfold keeps, invalid_file_id; by rewrite negb_orb, !negb_involutive).
    destruct (keeps e) eqn:Ek.
    + by apply map_lookup_filter_Some.
    + apply map_lookup_filter_None. right. intros e' ?. cbn. congruence.
  - intros Hall. unfold clean_state. rewrite bind_run. cbn [get_state].
    rewrite bind_run, clean_loop_run.
    assert (Hno : existsb (λ kv, negb (keeps kv.2)) (map_to_list (m_state m)) = false).
    { apply not_true_is_false. intros (kv & Hin & Hk)%existsb_exists.
      apply list_elem_of_In in Hin. destruct kv as [k e].
      apply elem_of_map_to_list in Hin. apply Hall in Hin. cbn in *.
      rewrite Hin in Hk. done. }
    rewrite Hno. cbn [orb]. unfold mret, M_ret. f_equal.
    assert (Hnil : concat (removal <$> map_to_list (m_state m)) = []).
    { clear Hno. revert Hall. generalize (m_state m). intros st Hall.
      assert (Hl : ∀ kv, kv ∈ map_to_list st → keeps kv.2 = true).
      { intros [k e] Hin%elem_of_map_to_list. by apply Hall in Hin. }
      induction (map_to_list st) as [|kv l IH]; [done|].
      cbn. unfold removal at 1. rewrite Hl by left. cbn. apply IH.
      intros ??. apply Hl. by right. }
    rewrite Hnil, app_nil_r, pruned_filter.
    rewrite (map_filter_id _ (m_state m)); [apply machine_eta|].
    intros k e Hl. by apply Hall in Hl.
Qed.

End Runs.

(** C5 on the ledger of three entries: the valid entry stays, the entry
    with the long id goes, and a second pruning is the identity. *)
Lemma clean_state_prunes_witness :
  let m := Sim.seeded Sim.ledger3 in
  let m' := (clean_state m).2 in
  m_state m' !! py "/srv/docs/ok.txt" = Some (Sim.entry_with (py "files/ok-1"))
  ∧ m_state m' !! py "/srv/docs/long.txt" = None
  ∧ clean_state m' = (Ok (), m').
Proof.
  intros m m'.
  destruct (clean_state_prunes m) as (_ & Hlook & _).
  destruct (clean_state_prunes m') as (_ & _ & Hclean).
  split; [|split].
  - apply (Hlook _ (Sim.entry_with (py "files/ok-1"))). run_eq.
  - apply (Hlook _ (Sim.entry_with (py "files/" ++ replicate 50 97))).
    run_eq.
  - apply Hclean. apply (bool_decide_unpack _). vm_compute. exact I.
Defined.

(** The example of the specification, run: two keys are reported and
    removed, the valid entry is what remains, and the file is written. *)
Example clean_state_three_entries :
  let m' := (clean_state (Sim.seeded Sim.ledger3)).2 in
  m_state m' = {[ py "/srv/docs/ok.txt" := Sim.entry_with (py "files/ok-1") ]}
  ∧ length (filter (λ e, is_write e = true) (m_trace m')) = 1%nat
  ∧ length (m_trace m') = 3%nat.
Proof. intros m'. split; [|split]; run_eq. Qed.

(** ** Uploads: [upload_file] *)

Section Upload.
Context {World : Type} `{!Client World, !Host World}.
Local Abbreviation M := (@M World).
Local Abbreviation Machine := (@Machine World).
Variable self : Config.

Lemma save_state_state (m : Machine) : m_state (_save_state m).2 = m_state m.
Proof. unfold _save_state. by destruct (utf8_encode _). Qed.

(** A path whose entry has a non-empty [file_id] is answered from the
    ledger, and nothing at all happens to the machine. *)
Lemma upload_file_hit (file_path : Path) (m : Machine) (e : entry) :
  m_state m !! path_resolved file_path = Some e →
  truthy (entry_get e (py "file_id")) = true →
  upload_file self file_path m = (Ok e, m).
Proof.
  intros Hl Ht. unfold upload_file. rewrite bind_run. cbn [get_state].
  rewrite Hl. change (default ∅ (Some e)) with e. by rewrite Ht.
Qed.

(** The entry a call returns is the entry the ledger then holds. *)
Lemma upload_file_records (file_path : Path) (m m1 : Machine) (info : entry) :
  upload_file self file_path m = (Ok info, m1) →
  m_state m1 !! path_resolved file_path = Some info.
Proof.
  unfold upload_file. rewrite bind_run. cbn [get_state].
  destruct (truthy _).
  - destruct (m_state m !! path_resolved file_path) as [e|] eqn:Hl; [|done].
    by intros [= <- <-].
  - intros (u0 & m2 & _ & H)%bind_inv_ok.
    apply bind_inv_ok in H as (safe_name & m3 & _ & H).
    apply bind_inv_ok in H as (resource & m4 & _ & H).
    rewrite bind_run in H. cbn [get_state] in H.
    apply bind_inv_ok in H as (u1 & m5 & Hput & H).
    apply bind_inv_ok in H as (u2 & m6 & Hsave & H).
    injection H as <- <-. injection Hput as _ <-.
    pose proof (save_state_state (set_state
      (<[path_resolved file_path:=file_info resource file_path safe_name]> (m_state m4)) m4)) as Hs.
    rewrite Hsave in Hs. cbn in Hs. rewrite Hs. apply lookup_insert_eq.
Qed.

(** C1: a path whose ledger entry has a non-empty [file_id] (a valid one
    in particular) gets that entry back from [upload_file] with the
    machine untouched: no remote call, no write, same ledger; and once a
    call has returned an entry with a non-empty [file_id], the next call
    on the path returns the same entry, again with the machine
    untouched. *)
Theorem upload_file_idempotent (file_path : Path) :
  (∀ (m : Machine) e,
     m_state m !! path_resolved file_path = Some e →
     keeps e = true →
     upload_file self file_path m = (Ok e, m))
  ∧ (∀ (m m1 : Machine) info,
       upload_file self file_path m = (Ok info, m1) →
       truthy (entry_get info (py "file_id")) = true →
       upload_file self file_path m1 = (Ok info, m1)).
Proof.
  split.
  - intros m e Hl Hk. apply upload_file_hit; [done|].
    unfold keeps, invalid_file_id in Hk.
    apply negb_true_iff, orb_false_elim in Hk as [Ht _].
    by apply negb_false_iff in Ht.
  - intros m m1 info Hrun Ht.
    apply upload_file_hit; [|done]. by apply upload_file_records in Hrun.
Qed.

End Upload.

(** C1 in the simulated world: the second upload of ["a.txt"] returns
    what the first returned and leaves the machine, its trace included,
    as the first left it; and a seeded valid entry is returned as it
    is. *)
Lemma upload_file_idempotent_witness :
  let first := upload_file Sim.config (Sim.file "a.txt") (Sim.boot []) in
  upload_file Sim.config (Sim.file "a.txt") first.2 = (first.1, first.2)
  ∧ upload_file Sim.config (Sim.file "ok.txt") (Sim.seeded Sim.ledger3)
    = (Ok (Sim.entry_with (py "files/ok-1")), Sim.seeded Sim.ledger3).
Proof.
  intros first.
  destruct (upload_file_idempotent Sim.config (Sim.file "a.txt")) as [_ Hsecond].
  destruct (upload_file_idempotent Sim.config (Sim.file "ok.txt")) as [Hhit _].
  split.
  - assert (Hr : match first.1 with
                 | Ok info => truthy (entry_get info (py "file_id"))
                 | _ => false
                 end = true) by run_eq.
    destruct first as [[info|e|] m1] eqn:E; cbn [fst snd] in Hr |- *;
      [|discriminate Hr..].
    exact (Hsecond (Sim.boot []) m1 info E Hr).
  - apply Hhit; run_eq.
Defined.

(** ** Traces of runs *)

Section Traces.
Context {World : Type} `{!Client World, !Host World}.
Local Abbreviation M := (@M World).
Local Abbreviation Machine := (@Machine World).
Variables (P : event → Prop) (nb : bool).

Lemma runs_intro {A} (c : M A) :
  (∀ m, ∃ t, m_trace (c m).2 = m_trace m ++ t ∧ Forall P t) →
  (nb = true → ∀ m, (c m).1 ≠ Blocked) →
  runs P nb c.
Proof. intros H1 H2 m. split; [apply H1|]. intros ?. by apply H2. Qed.

Lemma runs_silent {A} (c : M A) :
  (∀ m, m_trace (c m).2 = m_trace m) → (∀ m, (c m).1 ≠ Blocked) → runs P nb c.
Proof.
  intros H1 H2 m. split; [|by intros _].
  exists []. by rewrite app_nil_r.
Qed.

Lemma runs_ret {A} (a : A) : runs P nb (mret a : M A).
Proof. by apply runs_silent. Qed.

Lemma runs_raise {A} (e : exn) : runs P nb (raise e : M A).
Proof. by apply runs_silent. Qed.

Lemma runs_get_state : runs P nb (get_state : M ledger).
Proof. by apply runs_silent. Qed.

Lemma runs_put_state st : runs P nb (put_state st : M unit).
Proof. by apply runs_silent. Qed.

Lemma runs_call {A} (f : World → (exn + A) * World) : runs P nb (call f).
Proof.
  apply runs_silent; intros m; unfold call;
    by destruct (f (m_world m)) as [[e|a] w].
Qed.

Lemma runs_uuid4 : runs P nb (uuid4 : M pystr).
Proof.
  apply runs_silent; intros m; unfold uuid4; by destruct (os_urandom16 _).
Qed.

Lemma runs_emit (e : event) : P e → runs P nb (emit e : M unit).
Proof.
  intros He m. split; [|by intros _]. exists [e]. split; [done|]. by constructor.
Qed.

Lemma runs_save_state_gen :
  (∀ d, P (WriteText d)) → runs P nb (_save_state : M unit).
Proof.
  intros HW. apply runs_intro.
  - intros m. unfold _save_state. destruct (utf8_encode _); cbn.
    + eexists [_]. split; [done|]. by constructor.
    + eexists [_]. split; [done|]. by constructor.
  - intros _ m. unfold _save_state. by destruct (utf8_encode _).
Qed.

Lemma runs_list_docs self : runs P nb (_list_docs self : M (list Path)).
Proof.
  apply runs_silent; intros m; unfold _list_docs;
    (case_match; [|done]); unfold call;
    by destruct (rglob_files _ _) as [[e|a] w].
Qed.

Lemma runs_bind {A B} (c : M A) (f : A → M B) :
  runs P nb c → (∀ a, runs P nb (f a)) → runs P nb (c ≫= f).
Proof.
  intros Hc Hf m. rewrite bind_run.
  destruct (Hc m) as [(t & Ht & HP) Hb].
  destruct (c m) as [[a|e|] m1] eqn:E; cbn [fst snd] in *.
  - destruct (Hf a m1) as [(t' & Ht' & HP') Hb']. split; [|done].
    exists (t ++ t'). rewrite Ht', Ht, app_assoc. split; [done|].
    by apply Forall_app.
  - split; [by exists t|by intros _].
  - split; [by exists t|]. intros Hn. by destruct (Hb Hn).
Qed.

Lemma runs_try_except {A} (c : M A) (h : exn → M A) :
  runs P nb c → (∀ e, runs P nb (h e)) → runs P nb (try_except c h).
Proof.
  intros Hc Hh m. unfold try_except.
  destruct (Hc m) as [(t & Ht & HP) Hb].
  destruct (c m) as [[a|e|] m1] eqn:E; cbn [fst snd] in *.
  - split; [by exists t|by intros _].
  - destruct (Hh e m1) as [(t' & Ht' & HP') Hb']. split; [|done].
    exists (t ++ t'). rewrite Ht', Ht, app_assoc. split; [done|].
    by apply Forall_app.
  - split; [by exists t|]. intros Hn. by destruct (Hb Hn).
Qed.

Lemma runs_try_finally {A} (c : M A) (fin : M unit) :
  runs P nb c → runs P nb fin → runs P nb (try_finally c fin).
Proof.
  intros Hc Hf m. unfold try_finally.
  destruct (Hc m) as [(t & Ht & HP) Hb].
  destruct (c m) as [r m1] eqn:E; cbn [fst snd] in *.
  destruct (Hf m1) as [(t' & Ht' & HP') Hb'].
  assert (Htr : ∃ t0, m_trace (fin m1).2 = m_trace m ++ t0 ∧ Forall P t0).
  { exists (t ++ t'). rewrite Ht', Ht, app_assoc. split; [done|].
    by apply Forall_app. }
  destruct (fin m1) as [[u|e|] m2] eqn:E'; cbn [fst snd] in *.
  - by split.
  - by split.
  - split; [done|]. intros Hn. by destruct (Hb' Hn).
Qed.

Lemma runs_for_each {A} (xs : list A) (body : A → M unit) :
  (∀ x, runs P nb (body x)) → runs P nb (for_each xs body).
Proof.
  intros Hb. induction xs as [|x xs IH]; cbn [for_each].
  - apply runs_ret.
  - apply runs_bind; [apply Hb|]. by intros _.
Qed.

Lemma runs_fold_loop {A B} (body : B → A → M B) (acc : B) (xs : list A) :
  (∀ acc x, runs P nb (body acc x)) → runs P nb (fold_loop body acc xs).
Proof.
  intros Hb. revert acc. induction xs as [|x xs IH]; intros acc; cbn [fold_loop].
  - apply runs_ret.
  - apply runs_bind; [apply Hb|]. apply IH.
Qed.

End Traces.

(** ** Traces of the operations *)

Create HintDb runs.

Section Operations.
Context {World : Type} `{!Client World, !Host World}.
Local Abbreviation M := (@M World).
Local Abbreviation Machine := (@Machine World).
Variables (P : event → Prop) (nb : bool) (fuel : nat) (self : Config).

(** [P] holds of every event, the import requests with a refused
    reference set aside. *)
Hypothesis HP : ∀ e, valid_import e → P e.
Hypothesis Hwait : nb = true → ∀ op (m : Machine), (wait_done fuel op m).1 ≠ Blocked.

Ltac runs_step :=
  first
    [ apply runs_ret | apply runs_raise | apply runs_get_state
    | apply runs_put_state | apply runs_call | apply runs_uuid4
    | apply runs_emit; apply HP; exact I
    | apply runs_bind; [|intros ?]
    | apply runs_try_except; [|intros ?]
    | apply runs_try_finally
    | solve [eauto 2 with runs] ].

Ltac runs_auto := repeat first [runs_step | case_match].

Lemma runs_print msg : runs P nb (safe_print msg : M unit).
Proof. apply runs_emit, HP. exact I. Qed.
#[local] Hint Resolve runs_print : runs.

Lemma runs_sanitize_base base : runs P nb (sanitize_base base : M pystr).
Proof. unfold sanitize_base. runs_auto. Qed.

Lemma runs_ascii_safe s : runs P nb (_ascii_safe s : M pystr).
Proof. apply runs_sanitize_base. Qed.
#[local] Hint Resolve runs_ascii_safe : runs.

Lemma runs_save_state : runs P nb (_save_state : M unit).
Proof. apply runs_save_state_gen. intros d. by apply HP. Qed.
#[local] Hint Resolve runs_save_state : runs.

Lemma runs_try_upload file_path name :
  runs P nb (try_upload_with_name file_path name : M RemoteFile).
Proof. unfold try_upload_with_name. runs_auto. Qed.
#[local] Hint Resolve runs_try_upload : runs.

Lemma runs_upload_file file_path :
  runs P nb (upload_file self file_path : M entry).
Proof. unfold upload_file. runs_auto. Qed.
#[local] Hint Resolve runs_upload_file : runs.

Lemma wait_done_trace op : runs P false (wait_done fuel op : M Operation).
Proof.
  clear Hwait. revert op. induction fuel as [|n IH]; intros op; cbn [wait_done].
  - destruct (op_done op); [apply runs_ret|].
    apply runs_intro; [|done]. intros m. exists []. by rewrite app_nil_r.
  - destruct (op_done op); [apply runs_ret|].
    apply runs_bind; [apply runs_emit, HP; exact I|]. intros _.
    apply runs_bind; [apply runs_emit, HP; exact I|]. intros _.
    apply runs_bind; [apply runs_call|]. apply IH.
Qed.

Lemma runs_wait_done op : runs P nb (wait_done fuel op : M Operation).
Proof.
  intros m. split; [apply (wait_done_trace op m)|].
  intros Hn. by apply Hwait.
Qed.
#[local] Hint Resolve runs_wait_done : runs.

Lemma runs_import_failed store file_ref e :
  runs P nb (import_failed store file_ref e : M (option Operation)).
Proof. unfold import_failed. runs_auto. Qed.
#[local] Hint Resolve runs_import_failed : runs.

Lemma runs_import store file_name :
  runs P nb (import_file_to_store fuel store file_name : M (option Operation)).
Proof.
  unfold import_file_to_store.
  case_bool_decide; [runs_auto|].
  destruct (_is_valid_file_id (PStr (normalize_ref file_name))) eqn:Hv;
    cbn [negb]; [|runs_auto].
  apply runs_bind; [runs_auto|]. intros _.
  apply runs_bind; [|intros ?; runs_auto].
  apply runs_try_except; [|intros ?; runs_auto].
  apply runs_bind; [|intros ?; runs_auto].
  apply runs_emit, HP. exact Hv.
Qed.
#[local] Hint Resolve runs_import : runs.

Lemma runs_prepare_file store f :
  runs P nb (prepare_file self fuel store f : M unit).
Proof. unfold prepare_file. runs_auto. Qed.

End Operations.

(** ** Imports: [import_file_to_store] *)

Section Importing.
Context {World : Type} `{!Client World, !Host World}.
Local Abbreviation M := (@M World).
Local Abbreviation Machine := (@Machine World).

Lemma import_skip_missing fuel store (m : Machine) :
  import_file_to_store fuel store [] m =
    (Ok None, add_event (Print (MsgSkipMissing store)) m).
Proof. reflexivity. Qed.

Lemma import_skip_invalid fuel store file_name (m : Machine) :
  file_name ≠ [] →
  _is_valid_file_id (PStr (normalize_ref file_name)) = false →
  import_file_to_store fuel store file_name m =
    (Ok None, add_event (Print (MsgSkipInvalid (normalize_ref file_name))) m).
Proof.
  intros Hne Hv. unfold import_file_to_store.
  rewrite bool_decide_eq_false_2 by done. by rewrite Hv.
Qed.

(** The report of a failed import request: always returns [None], and
    says what failed. *)
Lemma import_failed_run store file_ref e (m : Machine) :
  ∃ m', import_failed store file_ref e m = (Ok None, m')
        ∧ Print (MsgImportFailed file_ref store (exn_msg e)) ∈ m_trace m'.
Proof.
  unfold import_failed.
  destruct (contains (exn_msg e) (py "INVALID_ARGUMENT")
            || contains (unicode_lower (exn_msg e)) (py "invalid argument"));
  destruct (contains (exn_msg e) (py "PERMISSION_DENIED")
            || contains (unicode_lower (exn_msg e)) (py "permission_denied"));
  (eexists; split; [reflexivity|]); cbn;
  rewrite ?elem_of_app, ?elem_of_cons; tauto.
Qed.

(** The machine on which the import request has just been issued. *)
Lemma import_issued fuel store file_name (m : Machine) r w :
  file_name ≠ [] →
  _is_valid_file_id (PStr (normalize_ref file_name)) = true →
  file_search_stores_import_file store (normalize_ref file_name) (m_world m) = (r, w) →
  import_file_to_store fuel store file_name m =
    let m2 := set_world w
                (add_event (CallImport store (normalize_ref file_name))
                   (add_event (Print (MsgImporting (normalize_ref file_name) store)) m)) in
    match r with
    | inl e => import_failed store (normalize_ref file_name) e m2
    | inr op => (wait_done fuel op ≫= λ op', mret (Some op')) m2
    end.
Proof.
  intros Hne Hv Hcall. unfold import_file_to_store.
  rewrite bool_decide_eq_false_2 by done. rewrite Hv. cbn [negb].
  rewrite bind_run. cbn [safe_print emit].
  rewrite bind_run. unfold try_except.
  rewrite bind_run. cbn [emit].
  rewrite bind_run. unfold call. cbn [m_world add_event].
  rewrite Hcall. destruct r as [e|op]; cbn.
  - by destruct (import_failed_run store (normalize_ref file_name) e
      (set_world w (add_event (CallImport store (normalize_ref file_name))
         (add_event (Print (MsgImporting (normalize_ref file_name) store)) m))))
      as (m' & -> & _).
  - done.
Qed.

(** A poll that raises ends the wait with that exception. *)
Lemma wait_done_raises fuel op (m : Machine) e w :
  op_done op = false →
  operations_get op (m_world m) = (inl e, w) →
  wait_done (S fuel) op m =
    (Raise e, set_world w (add_event (CallGetOperation op) (add_event (Sleep 2) m))).
Proof.
  intros Hd Hget. cbn [wait_done]. rewrite Hd.
  rewrite bind_run. cbn [emit]. rewrite bind_run. cbn [emit].
  rewrite bind_run. unfold call. cbn [m_world add_event]. by rewrite Hget.
Qed.

(** C2, as the code has it. An empty identifier, and one that
    [_is_valid_file_id] refuses once normalized to [files/<id>], return
    [None] after one diagnostic and nothing else: no request is issued.
    An exception raised by the import request is reported and turned
    into [None]. Once the request is issued, the call ends as the wait
    for the operation ends: an exception raised by a poll is not caught
    and reaches the caller. *)
Theorem import_file_to_store_outcomes fuel store file_name (m : Machine) :
  let file_ref := normalize_ref file_name in
  let issued w :=
    set_world w (add_event (CallImport store file_ref)
                   (add_event (Print (MsgImporting file_ref store)) m)) in
  (file_name = [] ∨ _is_valid_file_id (PStr file_ref) = false →
     ∃ msg, import_file_to_store fuel store file_name m =
              (Ok None, add_event (Print msg) m))
  ∧ (file_name ≠ [] → _is_valid_file_id (PStr file_ref) = true →
     ∀ e w, file_search_stores_import_file store file_ref (m_world m) = (inl e, w) →
       ∃ m', import_file_to_store fuel store file_name m = (Ok None, m')
             ∧ Print (MsgImportFailed file_ref store (exn_msg e)) ∈ m_trace m')
  ∧ (file_name ≠ [] → _is_valid_file_id (PStr file_ref) = true →
     ∀ op w, file_search_stores_import_file store file_ref (m_world m) = (inr op, w) →
       import_file_to_store fuel store file_name m =
         (wait_done fuel op ≫= λ op', mret (Some op')) (issued w))
  ∧ (file_name ≠ [] → _is_valid_file_id (PStr file_ref) = true →
     ∀ op w e w', file_search_stores_import_file store file_ref (m_world m) = (inr op, w) →
       op_done op = false → operations_get op w = (inl e, w') →
       (import_file_to_store (S fuel) store file_name m).1 = Raise e).
Proof.
  intros file_ref issued. split; [|split; [|split]].
  - intros [->|Hv].
    + eexists. apply import_skip_missing.
    + destruct (decide (file_name = [])) as [->|Hne].
      * eexists. apply import_skip_missing.
      * eexists. by apply import_skip_invalid.
  - intros Hne Hv e w Hcall.
    rewrite (import_issued _ _ _ _ _ _ Hne Hv Hcall). apply import_failed_run.
  - intros Hne Hv op w Hcall.
    by rewrite (import_issued _ _ _ _ _ _ Hne Hv Hcall).
  - intros Hne Hv op w e w' Hcall Hd Hget.
    rewrite (import_issued _ _ _ _ _ _ Hne Hv Hcall). cbn zeta.
    rewrite bind_run.
    pose proof (wait_done_raises fuel op (issued w) e w' Hd Hget) as Hw.
    unfold issued, file_ref in Hw. by rewrite Hw.
Qed.

End Importing.

(** C2 in the simulated world: ["Bad Id"] is skipped, the import of
    ["denied"] is refused by the service and reported, the import of
    ["abc"] is issued and waited for, and the failing poll of ["lost"]
    surfaces as an exception. *)
Lemma import_file_to_store_outcomes_witness :
  let store := py "fileSearchStores/my-docs" in
  (∃ msg, import_file_to_store 1 store (py "Bad Id") (Sim.boot []) =
            (Ok None, add_event (Print msg) (Sim.boot [])))
  ∧ (∃ m', import_file_to_store 1 store (py "denied") (Sim.boot []) = (Ok None, m'))
  ∧ (import_file_to_store 1 store (py "abc") (Sim.boot [])).1
    = Ok (Some {| op_done := true; op_name := py "files/abc" |})
  ∧ (import_file_to_store 1 store (py "lost") (Sim.boot [])).1 = Raise Sim.remote_error.
Proof.
  intros store.
  split; [|split; [|split]].
  - destruct (import_file_to_store_outcomes 1 store (py "Bad Id") (Sim.boot []))
      as (H & _). apply H. right. reflexivity.
  - destruct (import_file_to_store_outcomes 1 store (py "denied") (Sim.boot []))
      as (_ & H & _).
    destruct (H ltac:(discriminate) eq_refl Sim.remote_error (m_world (Sim.boot [])) eq_refl)
      as (m' & Hrun & _).
    by exists m'.
  - destruct (import_file_to_store_outcomes 1 store (py "abc") (Sim.boot []))
      as (_ & _ & H & _).
    rewrite (H ltac:(discriminate) eq_refl
               {| op_done := false; op_name := py "files/abc" |}
               (m_world (Sim.boot [])) eq_refl).
    reflexivity.
  - destruct (import_file_to_store_outcomes 0 store (py "lost") (Sim.boot []))
      as (_ & _ & _ & H).
    apply (H ltac:(discriminate) eq_refl
             {| op_done := false; op_name := py "files/lost" |}
             (m_world (Sim.boot [])) Sim.remote_error (m_world (Sim.boot [])));
      reflexivity.
Defined.

(** C2 as stated fails: the identifier ["lost"] is valid, its import is
    issued, the poll of the operation raises, and the exception leaves
    [import_file_to_store]. *)
Lemma import_poll_error_escapes :
  (import_file_to_store 1 (py "fileSearchStores/my-docs") (py "lost") (Sim.boot [])).1
  = Raise Sim.remote_error.
Proof. reflexivity. Qed.

(** ** The batch: [prepare] *)

Section Batch.
Context {World : Type} `{!Client World, !Host World}.
Local Abbreviation M := (@M World).
Local Abbreviation Machine := (@Machine World).
Variables (self : Config) (fuel : nat).

Lemma never_raises_ret {A} (a : A) : never_raises (mret a : M A).
Proof. by intros m e. Qed.

Lemma never_raises_print msg : never_raises (safe_print msg : M unit).
Proof. by intros m e. Qed.

Lemma never_raises_bind {A B} (c : M A) (f : A → M B) :
  never_raises c → (∀ a, never_raises (f a)) → never_raises (c ≫= f).
Proof.
  intros Hc Hf m e. rewrite bind_run.
  specialize (Hc m). destruct (c m) as [[a|e'|] m1]; cbn in *.
  - apply Hf.
  - by destruct (Hc e').
  - done.
Qed.

Lemma never_raises_try_except {A} (c : M A) (h : exn → M A) :
  (∀ e, never_raises (h e)) → never_raises (try_except c h).
Proof.
  intros Hh m e. unfold try_except.
  destruct (c m) as [[a|e'|] m1]; cbn; [done| |done]. apply Hh.
Qed.

Lemma never_raises_for_each {A} (xs : list A) (body : A → M unit) :
  (∀ x, never_raises (body x)) → never_raises (for_each xs body).
Proof.
  intros Hb. induction xs as [|x xs IH]; cbn [for_each].
  - apply never_raises_ret.
  - apply never_raises_bind; [apply Hb|]. by intros _.
Qed.

(** Every exception of a round is caught in the round. *)
Lemma prepare_file_never_raises store f :
  never_raises (prepare_file self fuel store f : M unit).
Proof.
  unfold prepare_file. apply never_raises_bind.
  - apply never_raises_try_except. intros e.
    apply never_raises_bind; [apply never_raises_print|].
    intros _. apply never_raises_ret.
  - intros [info|]; [|apply never_raises_ret].
    case_match; [apply never_raises_print|].
    apply never_raises_try_except. intros e. apply never_raises_print.
Qed.

(** A round returns, provided the polls of its import come to an end
    within the fuel. *)
Lemma prepare_file_returns store f (m : Machine) :
  (∀ op (mx : Machine), (wait_done fuel op mx).1 ≠ Blocked) →
  (prepare_file self fuel store f m).1 = Ok ().
Proof.
  intros Hwait.
  pose proof (prepare_file_never_raises store f m) as Hr.
  destruct (runs_prepare_file (λ _, True) true fuel self
              (λ _ _, I) (λ _, Hwait) store f m) as [_ Hb].
  destruct (prepare_file self fuel store f m) as [[[]|e|] m1]; cbn in *.
  - done.
  - by destruct (Hr e).
  - by destruct (Hb eq_refl).
Qed.

Lemma for_each_total {A} (xs : list A) (body : A → M unit) (m : Machine) :
  (∀ x mx, (body x mx).1 = Ok ()) →
  for_each xs body m = (Ok (), foldl (λ mx x, (body x mx).2) m xs).
Proof.
  intros Hb. revert m. induction xs as [|x xs IH]; intros m; [done|].
  cbn [for_each foldl]. rewrite bind_run.
  specialize (Hb x m). destruct (body x m) as [r m1]; cbn in *.
  rewrite Hb. apply IH.
Qed.

(** An upload that raises is reported, and the round is over. *)
Lemma prepare_file_upload_raises store f (m m' : Machine) e :
  upload_file self f m = (Raise e, m') →
  prepare_file self fuel store f m =
    (Ok (), add_event (Print (MsgUploadFailed (path_name f) e)) m').
Proof.
  intros Hu. unfold prepare_file. rewrite bind_run. unfold try_except.
  by rewrite bind_run, Hu.
Qed.

(** An import that raises is reported, and the round is over. *)
Lemma prepare_file_import_raises store f (m m' m'' : Machine) info file_id e :
  upload_file self f m = (Ok info, m') →
  info !! py "file_id" = Some (Some file_id) → file_id ≠ [] →
  import_file_to_store fuel store file_id m' = (Raise e, m'') →
  prepare_file self fuel store f m =
    (Ok (), add_event (Print (MsgImportingFailed (path_name f) e)) m'').
Proof.
  intros Hu Hid Hne Hi. unfold prepare_file. rewrite bind_run.
  unfold try_except at 1. rewrite bind_run, Hu. cbn [mret M_ret].
  assert (Hinfo : bool_decide (info = ∅) = false).
  { apply bool_decide_eq_false_2. intros ->. by rewrite lookup_empty in Hid. }
  assert (Ht : truthy (entry_get info (py "file_id")) = true).
  { unfold entry_get. rewrite Hid. cbn. by rewrite bool_decide_eq_false_2. }
  rewrite Hinfo, Ht. cbn [orb negb]. unfold try_except.
  rewrite bind_run, Hid. cbn [mret M_ret]. by rewrite bind_run, Hi.
Qed.

(** An import that never comes back: neither does the round. *)
Lemma prepare_file_import_blocked store f (m m' m'' : Machine) info file_id :
  upload_file self f m = (Ok info, m') →
  info !! py "file_id" = Some (Some file_id) → file_id ≠ [] →
  import_file_to_store fuel store file_id m' = (Blocked, m'') →
  prepare_file self fuel store f m = (Blocked, m'').
Proof.
  intros Hu Hid Hne Hi. unfold prepare_file. rewrite bind_run.
  unfold try_except at 1. rewrite bind_run, Hu. cbn [mret M_ret].
  assert (Hinfo : bool_decide (info = ∅) = false).
  { apply bool_decide_eq_false_2. intros ->. by rewrite lookup_empty in Hid. }
  assert (Ht : truthy (entry_get info (py "file_id")) = true).
  { unfold entry_get. rewrite Hid. cbn. by rewrite bool_decide_eq_false_2. }
  rewrite Hinfo, Ht. cbn [orb negb]. unfold try_except.
  rewrite bind_run, Hid. cbn [mret M_ret]. by rewrite bind_run, Hi.
Qed.

(** Past store resolution and listing, [prepare] is the prune followed
    by the loop over the files. *)
Lemma prepare_unfold (m m1 m2 : Machine) store files :
  create_or_get_file_search_store self (add_event (Print MsgPreparing) m) = (Ok store, m1) →
  _list_docs self m1 = (Ok files, m2) →
  files ≠ [] →
  prepare self fuel m =
    (clean_state ;;
     for_each files (prepare_file self fuel (sr_name store)) ;;
     safe_print MsgAllDone ;;
     mret store) m2.
Proof.
  intros Hs Hl Hne. unfold prepare.
  rewrite bind_run. cbn [safe_print emit].
  rewrite bind_run, Hs. rewrite bind_run, Hl.
  by destruct files.
Qed.

(** C6: once the store is resolved, the directory listed and found
    non-empty, and the ledger pruned, no exception of a file aborts the
    batch. A round whose upload or whose import raises reports it and
    returns; no round raises, and neither does [prepare]. When every
    wait for an import ends within the fuel, every round returns, and
    [prepare] returns the resolved store after having run the round of
    every file of the listing, in order. The waits are the one thing
    that can keep [prepare] from returning. *)
Theorem prepare_batch_resilient (m m1 m2 m3 : Machine) store files :
  create_or_get_file_search_store self (add_event (Print MsgPreparing) m) = (Ok store, m1) →
  _list_docs self m1 = (Ok files, m2) →
  files ≠ [] →
  clean_state m2 = (Ok (), m3) →
  let round mx f := prepare_file self fuel (sr_name store) f mx in
  (∀ f (mx mx' : Machine) e,
     upload_file self f mx = (Raise e, mx') →
     round mx f = (Ok (), add_event (Print (MsgUploadFailed (path_name f) e)) mx'))
  ∧ (∀ f (mx mx' mx'' : Machine) info file_id e,
       upload_file self f mx = (Ok info, mx') →
       info !! py "file_id" = Some (Some file_id) → file_id ≠ [] →
       import_file_to_store fuel (sr_name store) file_id mx' = (Raise e, mx'') →
       round mx f = (Ok (), add_event (Print (MsgImportingFailed (path_name f) e)) mx''))
  ∧ (∀ f mx e, (round mx f).1 ≠ Raise e)
  ∧ (∀ e, (prepare self fuel m).1 ≠ Raise e)
  ∧ ((∀ op (mx : Machine), (wait_done fuel op mx).1 ≠ Blocked) →
     (∀ f mx, (round mx f).1 = Ok ())
     ∧ prepare self fuel m =
         (Ok store,
          add_event (Print MsgAllDone) (foldl (λ mx f, (round mx f).2) m3 files))).
Proof.
  intros Hs Hl Hne Hc round.
  split; [|split; [|split; [|split]]].
  - intros. by apply prepare_file_upload_raises.
  - intros. by eapply prepare_file_import_raises.
  - intros f mx. apply prepare_file_never_raises.
  - rewrite (prepare_unfold _ _ _ _ _ Hs Hl Hne).
    rewrite bind_run, Hc.
    apply (never_raises_bind
             (for_each files (prepare_file self fuel (sr_name store)))
             (λ _, safe_print MsgAllDone ;; mret store)).
    + apply never_raises_for_each. intros f. apply prepare_file_never_raises.
    + intros _. apply never_raises_bind; [apply never_raises_print|].
      intros _. apply never_raises_ret.
  - intros Hwait. split; [intros f mx; by apply prepare_file_returns|].
    rewrite (prepare_unfold _ _ _ _ _ Hs Hl Hne).
    rewrite bind_run, Hc. rewrite bind_run.
    rewrite for_each_total by (intros; by apply prepare_file_returns).
    reflexivity.
Qed.

End Batch.

(** In the simulated world a wait of one round is never blocked. *)
Lemma sim_wait_done op (m : @Machine Sim.world) : (wait_done 1 op m).1 ≠ Blocked.
Proof.
  destruct op as [[|] name]; [done|].
  cbn [wait_done op_done]. rewrite !bind_run. cbn [emit].
  rewrite bind_run. unfold call. cbn. case_bool_decide; done.
Qed.

(** C6 on a directory of three files where the upload of the second is
    refused: [prepare] returns the store, and the first and the third
    file are uploaded and imported all the same. *)
Lemma prepare_batch_resilient_witness :
  let fs := [Sim.file "a.txt"; Sim.file "broken.pdf"; Sim.file "c.md"] in
  let r := prepare Sim.config 1 (Sim.boot fs) in
  r.1 = Ok {| sr_name := py "fileSearchStores/my-docs";
              sr_display_name := Some (py "my-docs") |}
  ∧ length (filter (λ e, is_upload e = true) (m_trace r.2)) = 3%nat
  ∧ length (filter (λ e, is_import e = true) (m_trace r.2)) = 2%nat
  ∧ dom (m_state r.2) = {[ py "/srv/docs/a.txt"; py "/srv/docs/c.md" ]}.
Proof.
  intros fs r.
  pose (store := {| sr_name := py "fileSearchStores/my-docs";
                    sr_display_name := Some (py "my-docs") |}).
  pose (m1 := (create_or_get_file_search_store Sim.config
                 (add_event (Print MsgPreparing) (Sim.boot fs))).2).
  pose (m2 := (_list_docs Sim.config m1).2).
  pose (m3 := (clean_state m2).2).
  destruct (prepare_batch_resilient Sim.config 1 (Sim.boot fs) m1 m2 m3 store fs)
    as (_ & _ & _ & _ & Hrun).
  - run_eq.
  - run_eq.
  - discriminate.
  - run_eq.
  - destruct (Hrun sim_wait_done) as [_ Heq]. subst r. rewrite Heq.
    split; [|split; [|split]]; run_eq.
Defined.

(** In the stalled world the wait for an operation that is not done
    never ends, whatever the fuel; it uploads nothing. *)
Lemma stalled_wait_done fuel op (m : @Machine Stalled.world) :
  op_done op = false →
  (wait_done fuel op m).1 = Blocked
  ∧ filter (λ e, is_upload e = true) (m_trace (wait_done fuel op m).2)
    = filter (λ e, is_upload e = true) (m_trace m).
Proof.
  intros Hd. revert m. induction fuel as [|n IH]; intros m;
    cbn [wait_done]; rewrite Hd; [done|].
  rewrite bind_run. cbn [emit]. rewrite bind_run. cbn [emit].
  rewrite bind_run. unfold call. cbn [operations_get Stalled.client].
  destruct (IH (set_world (m_world (add_event (CallGetOperation op)
                                      (add_event (Sleep 2) m)))
                  (add_event (CallGetOperation op) (add_event (Sleep 2) m))))
    as [H1 H2].
  split; [exact H1|]. rewrite H2. cbn [m_trace set_world add_event].
  rewrite !filter_app. cbn. by rewrite !app_nil_r.
Qed.

Lemma stalled_import fuel store file_id (m : @Machine Stalled.world) :
  file_id ≠ [] →
  _is_valid_file_id (PStr (normalize_ref file_id)) = true →
  (import_file_to_store fuel store file_id m).1 = Blocked
  ∧ filter (λ e, is_upload e = true)
      (m_trace (import_file_to_store fuel store file_id m).2)
    = filter (λ e, is_upload e = true) (m_trace m).
Proof.
  intros Hne Hv.
  assert (Hcall : file_search_stores_import_file store (normalize_ref file_id)
                    (m_world m)
                  = (inr {| op_done := false; op_name := normalize_ref file_id |},
                     m_world m)) by reflexivity.
  rewrite (import_issued fuel store file_id m _ _ Hne Hv Hcall).
  cbv zeta. rewrite bind_run.
  match goal with |- context [wait_done fuel ?op ?mx] =>
    destruct (stalled_wait_done fuel op mx eq_refl) as [H1 H2];
    destruct (wait_done fuel op mx) as [[op'|e|] mw] end;
    cbn [fst snd] in *; try discriminate H1.
  split; [done|]. rewrite H2. cbn [m_trace set_world add_event].
  rewrite !filter_app. cbn. by rewrite !app_nil_r.
Qed.

(** C6 as stated fails: of three files, the upload of the first raises
    and is reported, the second is uploaded and its import is issued,
    and the operation never reports done. Whatever the fuel, [prepare]
    does not return, and the third file is not attempted. *)
Lemma prepare_stalled_import :
  let fs := [Sim.file "broken.pdf"; Sim.file "a.txt"; Sim.file "c.md"] in
  (∀ fuel, (prepare Sim.config fuel (Stalled.boot fs)).1 = Blocked)
  ∧ (∀ fuel,
       filter (λ e, is_upload e = true)
         (m_trace (prepare Sim.config fuel (Stalled.boot fs)).2)
       = [CallUpload (py "docs/broken.pdf") (py "broken") default_mime;
          CallUpload (py "docs/a.txt") (py "a") default_mime]).
Proof.
  intros fs.
  pose (store := {| sr_name := py "fileSearchStores/my-docs";
                    sr_display_name := Some (py "my-docs") |}).
  pose (m1 := (create_or_get_file_search_store Sim.config
                 (add_event (Print MsgPreparing) (Stalled.boot fs))).2).
  pose (m2 := (upload_file Sim.config (Sim.file "broken.pdf") m1).2).
  pose (m3 := add_event (Print (MsgUploadFailed (py "broken.pdf") Sim.remote_error)) m2).
  pose (info := file_info {| rf_name := Some (py "files/a") |} (Sim.file "a.txt") (py "a")).
  pose (m4 := (upload_file Sim.config (Sim.file "a.txt") m3).2).
  assert (Hrun : ∀ fuel,
    prepare Sim.config fuel (Stalled.boot fs)
    = (Blocked, (import_file_to_store fuel (sr_name store) (py "files/a") m4).2)).
  { intros fuel.
    rewrite (prepare_unfold Sim.config fuel (Stalled.boot fs) m1 m1 store fs)
      by first [run_eq | discriminate].
    rewrite bind_run.
    assert (clean_state m1 = (Ok (), m1)) as -> by run_eq.
    rewrite bind_run. unfold fs. cbn [for_each]. rewrite bind_run.
    rewrite (prepare_file_upload_raises Sim.config fuel (sr_name store)
               (Sim.file "broken.pdf") m1 m2 Sim.remote_error) by run_eq.
    fold m3. rewrite bind_run.
    destruct (stalled_import fuel (sr_name store) (py "files/a") m4) as [Hb _];
      [discriminate|reflexivity|].
    rewrite (prepare_file_import_blocked Sim.config fuel (sr_name store)
               (Sim.file "a.txt") m3 m4
               (import_file_to_store fuel (sr_name store) (py "files/a") m4).2
               info (py "files/a")); [done|run_eq|reflexivity|discriminate|].
    destruct (import_file_to_store fuel (sr_name store) (py "files/a") m4)
      as [[r|e|] mi]; cbn [fst snd] in *; by try discriminate Hb. }
  split; intros fuel; rewrite Hrun; cbn [fst snd]; [done|].
  destruct (stalled_import fuel (sr_name store) (py "files/a") m4) as [_ ->];
    [discriminate|reflexivity|].
  run_eq.
Qed.

(** ** The prune comes first *)

Section Order.
Context {World : Type} `{!Client World, !Host World}.
Local Abbreviation M := (@M World).
Local Abbreviation Machine := (@Machine World).
Variables (self : Config) (fuel : nat).

Lemma runs_resolution nb :
  runs resolution_event nb (create_or_get_file_search_store self : M StoreRef).
Proof.
  unfold create_or_get_file_search_store, list_stores, create_store, safe_print.
  repeat first
    [ apply runs_ret | apply runs_call | apply runs_emit; exact I
    | apply runs_sanitize_base
    | apply runs_bind; [|intros ?]
    | apply runs_try_except; [|intros ?]
    | case_match ].
Qed.

Lemma runs_clean_state nb : runs prune_event nb (clean_state : M unit).
Proof.
  unfold clean_state.
  apply runs_bind; [apply runs_get_state|]. intros st.
  apply runs_bind.
  - apply runs_fold_loop. intros changed kv. unfold clean_item, safe_print.
    repeat first
      [ apply runs_ret | apply runs_get_state | apply runs_put_state
      | apply runs_emit; exact I
      | apply runs_bind; [|intros ?]
      | case_match ].
  - intros [|]; [|apply runs_ret]. by apply runs_save_state_gen.
Qed.

Lemma clean_state_clean (m : Machine) :
  map_Forall (λ _ e, keeps e = true) (m_state (clean_state m).2).
Proof.
  rewrite clean_state_state.
  intros k e [_ Hk]%map_lookup_filter_Some. exact Hk.
Qed.

End Order.

(** ** UTF-8: decoding what was encoded *)

(** Settles a test of the decoder on the range of a byte. *)
Ltac range_lia :=
  unfold in_range;
  repeat match goal with
  | |- context [N.eqb ?a ?b] => destruct (N.eqb_spec a b)
  end;
  rewrite ?andb_true_iff, ?andb_false_iff, ?N.leb_le, ?N.leb_gt,
    ?N.ltb_lt, ?N.ltb_ge; lia.

Lemma utf8_decode_1 c rest :
  c < 128 → utf8_decode (c :: rest) = cons c <$> utf8_decode rest.
Proof.
  intros. cbn [utf8_decode].
  by assert ((c <? 128) = true) as -> by range_lia.
Qed.

Lemma utf8_decode_2 q r rest :
  2 ≤ q → q < 32 → r < 64 →
  utf8_decode (192 + q :: 128 + r :: rest) = cons (q * 64 + r) <$> utf8_decode rest.
Proof.
  intros. cbn [utf8_decode].
  assert ((192 + q <? 128) = false) as -> by range_lia.
  assert (in_range 194 223 (192 + q) = true) as -> by range_lia.
  assert (in_range 128 191 (128 + r) = true) as -> by range_lia.
  do 2 f_equal. lia.
Qed.

Lemma utf8_decode_3 q2 q1 r rest :
  q2 < 16 → q1 < 64 → r < 64 → (q2 = 0 → 32 ≤ q1) → (q2 = 13 → q1 < 32) →
  utf8_decode (224 + q2 :: 128 + q1 :: 128 + r :: rest) =
    cons (q2 * 4096 + q1 * 64 + r) <$> utf8_decode rest.
Proof.
  intros. cbn [utf8_decode].
  assert ((224 + q2 <? 128) = false) as -> by range_lia.
  assert (in_range 194 223 (224 + q2) = false) as -> by range_lia.
  assert (in_range 224 239 (224 + q2) = true) as -> by range_lia.
  assert (in_range (if 224 + q2 =? 224 then 160 else 128)
                   (if 224 + q2 =? 237 then 159 else 191) (128 + q1)
          && in_range 128 191 (128 + r) = true) as -> by range_lia.
  do 2 f_equal. lia.
Qed.

Lemma utf8_decode_4 q3 q2 q1 r rest :
  q3 < 5 → q2 < 64 → q1 < 64 → r < 64 → (q3 = 0 → 16 ≤ q2) → (q3 = 4 → q2 < 16) →
  utf8_decode (240 + q3 :: 128 + q2 :: 128 + q1 :: 128 + r :: rest) =
    cons (q3 * 262144 + q2 * 4096 + q1 * 64 + r) <$> utf8_decode rest.
Proof.
  intros. cbn [utf8_decode].
  assert ((240 + q3 <? 128) = false) as -> by range_lia.
  assert (in_range 194 223 (240 + q3) = false) as -> by range_lia.
  assert (in_range 224 239 (240 + q3) = false) as -> by range_lia.
  assert (in_range 240 244 (240 + q3) = true) as -> by range_lia.
  assert (in_range (if 240 + q3 =? 240 then 144 else 128)
                   (if 240 + q3 =? 244 then 143 else 191) (128 + q2)
          && in_range 128 191 (128 + q1) && in_range 128 191 (128 + r) = true)
    as -> by range_lia.
  do 2 f_equal. lia.
Qed.

(** Linear arithmetic with quotients and remainders by constants. *)
Ltac lia_div := zify; Z.to_euclidean_division_equations; lia.

(** One character: its bytes decode to it, whatever follows. *)
Lemma utf8_char_roundtrip c rest :
  is_scalar c = true →
  ∃ b, utf8_encode_char c = Some b
       ∧ utf8_decode (b ++ rest) = cons c <$> utf8_decode rest.
Proof.
  unfold is_scalar, is_codepoint.
  intros [Hcp Hns]%andb_prop. apply N.leb_le in Hcp.
  apply negb_true_iff in Hns.
  unfold utf8_encode_char.
  destruct (N.ltb_spec c 128).
  { exists [c]. split; [done|]. cbn [app]. by apply utf8_decode_1. }
  destruct (N.ltb_spec c 2048).
  { eexists. split; [done|]. cbn [app].
    rewrite utf8_decode_2 by lia_div. do 2 f_equal. lia_div. }
  destruct (N.ltb_spec c 65536).
  { rewrite Hns. eexists. split; [done|]. cbn [app].
    unfold is_surrogate in Hns. apply andb_false_iff in Hns.
    rewrite !N.leb_gt in Hns.
    rewrite utf8_decode_3 by lia_div. do 2 f_equal. lia_div. }
  unfold is_codepoint. rewrite (proj2 (N.leb_le _ _) Hcp).
  eexists. split; [done|]. cbn [app].
  rewrite utf8_decode_4 by lia_div. do 2 f_equal. lia_div.
Qed.

Lemma utf8_roundtrip (s : pystr) :
  scalar_str s →
  ∃ data, utf8_encode s = Some data ∧ utf8_decode data = Some s.
Proof.
  unfold scalar_str. induction s as [|c s IH]; cbn [forallb utf8_encode].
  - by exists [].
  - intros [Hc Hs]%andb_prop.
    destruct (IH Hs) as (data & He & Hd).
    destruct (utf8_char_roundtrip c data Hc) as (b & Hb & Hdec).
    exists (b ++ data). rewrite Hb, He. split; [done|].
    by rewrite Hdec, Hd.
Qed.

(** A surrogate has no UTF-8 form: the text is not written. *)
Lemma utf8_encode_surrogate (s1 s2 : pystr) c :
  is_surrogate c = true → utf8_encode (s1 ++ c :: s2) = None.
Proof.
  intros Hc. induction s1 as [|x s1 IH]; cbn [app utf8_encode].
  - unfold utf8_encode_char.
    unfold is_surrogate in Hc. apply andb_prop in Hc as [H1 H2].
    apply N.leb_le in H1. apply N.leb_le in H2.
    destruct (N.ltb_spec c 128); [lia|].
    destruct (N.ltb_spec c 2048); [lia|].
    destruct (N.ltb_spec c 65536); [|lia].
    unfold is_surrogate.
    by rewrite (proj2 (N.leb_le _ _) H1), (proj2 (N.leb_le _ _) H2).
  - rewrite IH. by destruct (utf8_encode_char x).
Qed.

(** ** JSON: reading what was written *)

(** Induction on documents, with the hypothesis available for every
    element of an array and every value of an object. *)
Lemma json_ind' (P : json → Prop) :
  P JNull → (∀ b, P (JBool b)) → (∀ s, P (JStr s)) →
  (∀ l, Forall P l → P (JArr l)) →
  (∀ ms, Forall (λ kv, P kv.2) ms → P (JObj ms)) →
  ∀ j, P j.
Proof.
  intros Hn Hb Hs Ha Ho. fix IH 1. intros [| b | s | l | ms].
  - exact Hn.
  - apply Hb.
  - apply Hs.
  - apply Ha. induction l as [|x l IHl]; constructor; [apply IH|exact IHl].
  - apply Ho. induction ms as [|kv ms IHms]; constructor; [apply IH|exact IHms].
Qed.

(** One character of a string literal reads back as itself. *)
Lemma scan_more (c : N) (r : pystr) :
  scanstring (escape_char c ++ r) =
    match scanstring r with Some (str, rest) => Some (c :: str, rest) | None => None end.
Proof.
  unfold escape_char.
  destruct (N.eqb_spec c 34) as [->|H34]; [done|].
  destruct (N.eqb_spec c 92) as [->|H92]; [done|].
  destruct (N.eqb_spec c 10) as [->|?]; [done|].
  destruct (N.eqb_spec c 13) as [->|?]; [done|].
  destruct (N.eqb_spec c 9) as [->|?]; [done|].
  destruct (N.eqb_spec c 8) as [->|?]; [done|].
  destruct (N.eqb_spec c 12) as [->|?]; [done|].
  destruct (N.ltb_spec c 32) as [Hlt|Hge].
  - destruct c as [|p]; [done|].
    do 5 (try destruct p as [p|p|]); try lia; done.
  - cbn [app scanstring].
    rewrite (proj2 (N.eqb_neq _ _) H34), (proj2 (N.eqb_neq _ _) H92).
    by rewrite (proj2 (N.ltb_ge _ _) Hge).
Qed.

(** A string literal reads back as the string, whatever the string. *)
Lemma scanstring_escaped (s rest : pystr) :
  scanstring (flat_map escape_char s ++ 34 :: rest) = Some (s, rest).
Proof.
  induction s as [|c s IH]; [done|].
  cbn [flat_map]. by rewrite <-app_assoc, scan_more, IH.
Qed.

Lemma skip_ws_indent (level : nat) (s : pystr) :
  skip_ws (newline_indent level ++ s) = skip_ws s.
Proof.
  unfold newline_indent, skip_ws. cbn [app drop_while is_ws N.eqb orb].
  change (is_ws 10) with true. cbv iota.
  induction (2 * level)%nat as [|n IH]; [done|]. exact IH.
Qed.

(** A document starts with no whitespace, no closing bracket and no
    comma. *)
Lemma dumps_opens (level : nat) (j : json) :
  ∃ c t, dumps_at level j = c :: t ∧ opens c.
Proof.
  unfold opens.
  destruct j as [|[|]|s|[|x l]|[|kv ms]]; cbn [dumps_at]; eauto 10.
Qed.

Lemma skip_ws_opens c t : opens c → skip_ws (c :: t) = c :: t.
Proof. by intros [-> | [-> | [-> | [-> | [-> | ->]]]]]. Qed.

Lemma skip_ws_dumps (level : nat) (j : json) (r : pystr) :
  skip_ws (dumps_at level j ++ r) = dumps_at level j ++ r.
Proof.
  destruct (dumps_opens level j) as (c & t & -> & Hc). by apply skip_ws_opens.
Qed.

Lemma skip_ws_keep c t : is_ws c = false → skip_ws (c :: t) = c :: t.
Proof. intros H. unfold skip_ws. cbn [drop_while]. by rewrite H. Qed.

Lemma items_cons (L : nat) (y : json) (ys : list json) (t : pystr) :
  flat_map (λ y, [44] ++ newline_indent L ++ dumps_at L y) (y :: ys) ++ t =
  44 :: newline_indent L ++ dumps_at L y
     ++ flat_map (λ y, [44] ++ newline_indent L ++ dumps_at L y) ys ++ t.
Proof. cbn [flat_map]. by rewrite <-!app_assoc. Qed.

(** The elements of an array read back, given that each of them does. *)
Lemma scan_items_dumps (value : pystr → option (json * pystr)) (L level : nat) :
  ∀ xs x n rest,
  (∀ y r, y ∈ x :: xs → value (dumps_at L y ++ r) = Some (y, r)) →
  (length xs < n)%nat →
  scan_items value n
    (dumps_at L x
     ++ flat_map (λ y, [44] ++ newline_indent L ++ dumps_at L y) xs
     ++ newline_indent level ++ [93] ++ rest) = Some (x :: xs, rest).
Proof.
  induction xs as [|y ys IH]; intros x n rest Hv Hn;
    (destruct n as [|n]; [cbn in Hn; lia|]); cbn [scan_items];
    rewrite Hv by left.
  - cbn [flat_map app]. by rewrite skip_ws_indent.
  - rewrite items_cons, skip_ws_keep by done.
    change (44 =? 93) with false. change (44 =? 44) with true. cbv iota.
    rewrite skip_ws_indent, skip_ws_dumps, IH; [done| |cbn in Hn; lia].
    intros z r Hz. apply Hv. by right.
Qed.

Lemma skip_ws_space t : skip_ws (32 :: t) = skip_ws t.
Proof. reflexivity. Qed.

Lemma member_text (L : nat) (k : pystr) (v : json) (t : pystr) :
  encode_basestring k ++ py ": " ++ dumps_at L v ++ t =
  34 :: flat_map escape_char k ++ 34 :: 58 :: 32 :: dumps_at L v ++ t.
Proof. unfold encode_basestring. by rewrite <-!app_assoc. Qed.

Lemma members_cons (L : nat) (kv : pystr * json) (ms : list (pystr * json))
    (t : pystr) :
  flat_map (λ kv', [44] ++ newline_indent L ++ encode_basestring kv'.1
                   ++ py ": " ++ dumps_at L kv'.2) (kv :: ms) ++ t =
  44 :: newline_indent L ++ encode_basestring kv.1 ++ py ": " ++ dumps_at L kv.2
     ++ flat_map (λ kv', [44] ++ newline_indent L ++ encode_basestring kv'.1
                         ++ py ": " ++ dumps_at L kv'.2) ms ++ t.
Proof. cbn [flat_map]. by rewrite <-!app_assoc. Qed.

(** The members of an object read back, given that each value does. *)
Lemma scan_members_dumps (value : pystr → option (json * pystr)) (L level : nat) :
  ∀ ms kv n rest,
  (∀ kv' r, kv' ∈ kv :: ms → value (dumps_at L kv'.2 ++ r) = Some (kv'.2, r)) →
  (length ms < n)%nat →
  scan_members value n
    (encode_basestring kv.1 ++ py ": " ++ dumps_at L kv.2
     ++ flat_map (λ kv', [44] ++ newline_indent L ++ encode_basestring kv'.1
                         ++ py ": " ++ dumps_at L kv'.2) ms
     ++ newline_indent level ++ [125] ++ rest) = Some (kv :: ms, rest).
Proof.
  induction ms as [|kv' ms IH]; intros [k v] n rest Hv Hn;
    (destruct n as [|n]; [cbn in Hn; lia|]);
    rewrite member_text; cbn [scan_members fst snd];
    change (34 =? 34) with true; cbv iota;
    rewrite scanstring_escaped, skip_ws_keep by done;
    change (58 =? 58) with true; cbv iota;
    rewrite skip_ws_space, skip_ws_dumps, (Hv (k, v)) by left; cbn [fst snd].
  - cbn [flat_map app]. by rewrite skip_ws_indent.
  - rewrite members_cons, skip_ws_keep by done.
    change (44 =? 125) with false. change (44 =? 44) with true. cbv iota.
    rewrite skip_ws_indent.
    change (encode_basestring kv'.1) with (dumps_at L (JStr kv'.1)) at 1.
    rewrite skip_ws_dumps.
    change (dumps_at L (JStr kv'.1)) with (encode_basestring kv'.1).
    rewrite IH; [done| |cbn in Hn; lia].
    intros z r Hz. apply Hv. by right.
Qed.

(** ** The fuel of the scanner *)

Lemma weight_pos (j : json) : (1 ≤ weight j)%nat.
Proof. destruct j; cbn; lia. Qed.

Lemma weight_items (l : list json) :
  (length l ≤ foldr (λ x acc, weight x + acc) 0 l)%nat
  ∧ ∀ y, y ∈ l → (weight y ≤ foldr (λ x acc, weight x + acc) 0 l)%nat.
Proof.
  induction l as [|x l [IH1 IH2]]; cbn [foldr length].
  - split; [done|]. by intros ? ?%elem_of_nil.
  - pose proof (weight_pos x). split; [lia|].
    intros y [->|Hy]%elem_of_cons; [lia|]. specialize (IH2 y Hy). lia.
Qed.

Lemma weight_members (ms : list (pystr * json)) :
  (length ms ≤ foldr (λ kv acc, weight kv.2 + acc) 0 ms)%nat
  ∧ ∀ kv, kv ∈ ms → (weight kv.2 ≤ foldr (λ kv acc, weight kv.2 + acc) 0 ms)%nat.
Proof.
  induction ms as [|x l [IH1 IH2]]; cbn [foldr length].
  - split; [done|]. by intros ? ?%elem_of_nil.
  - pose proof (weight_pos x.2). split; [lia|].
    intros y [->|Hy]%elem_of_cons; [lia|]. specialize (IH2 y Hy). lia.
Qed.

Lemma scan_once_str f r :
  scan_once (S f) (34 :: r) =
    match scanstring r with Some (str, r') => Some (JStr str, r') | None => None end.
Proof. reflexivity. Qed.

Lemma scan_once_arr f r :
  scan_once (S f) (91 :: r) =
    match skip_ws r with
    | c' :: r' =>
        if c' =? 93 then Some (JArr [], r')
        else match scan_items (scan_once f) f (c' :: r') with
             | Some (vs, r'') => Some (JArr vs, r'')
             | None => None
             end
    | [] => None
    end.
Proof. reflexivity. Qed.

Lemma scan_once_obj f r :
  scan_once (S f) (123 :: r) =
    match skip_ws r with
    | c' :: r' =>
        if c' =? 125 then Some (JObj [], r')
        else match scan_members (scan_once f) f (c' :: r') with
             | Some (ms, r'') => Some (JObj ms, r'')
             | None => None
             end
    | [] => None
    end.
Proof. reflexivity. Qed.

(** The scanner, given fuel for the document, reads back what the
    printer wrote at any level of indentation, and leaves what follows. *)
Lemma scan_once_dumps :
  ∀ f j level rest,
  (weight j ≤ f)%nat → scan_once f (dumps_at level j ++ rest) = Some (j, rest).
Proof.
  induction f as [|f IH]; intros j level rest Hw.
  { pose proof (weight_pos j). lia. }
  destruct j as [|[|]|s|[|x l]|[|kv ms]]; cbn [dumps_at]; try reflexivity.
  - unfold encode_basestring. rewrite <-!app_assoc. cbn [app].
    by rewrite scan_once_str, scanstring_escaped.
  - rewrite <-!app_assoc. change ([91] ++ ?t) with (91 :: t).
    rewrite scan_once_arr, skip_ws_indent, skip_ws_dumps.
    cbn [weight] in Hw. destruct (weight_items (x :: l)) as [Hlen Hall].
    cbn [length] in Hlen.
    destruct (dumps_opens (S level) x) as (c & t & E & Hc). rewrite E.
    change ((c :: t) ++ ?r) with (c :: t ++ r). cbv beta iota.
    assert ((c =? 93) = false) as ->
      by (by destruct Hc as [-> | [-> | [-> | [-> | [-> | ->]]]]]).
    cbv iota. change (c :: t ++ ?r) with ((c :: t) ++ r). rewrite <-E.
    rewrite scan_items_dumps; [done| |lia].
    intros y r Hy. apply IH. specialize (Hall y Hy). lia.
  - rewrite <-!app_assoc. change ([123] ++ ?t) with (123 :: t).
    rewrite scan_once_obj, skip_ws_indent.
    cbn [weight] in Hw. destruct (weight_members (kv :: ms)) as [Hlen Hall].
    cbn [length] in Hlen.
    rewrite member_text, skip_ws_keep by done.
    change (34 =? 125) with false. cbv iota.
    rewrite <-member_text.
    rewrite scan_members_dumps; [done| |lia].
    intros y r Hy. apply IH. specialize (Hall y Hy). lia.
Qed.

(** The text of a document is at least as long as the fuel it needs. *)
Lemma weight_length (j : json) :
  ∀ level, (weight j ≤ length (dumps_at level j))%nat.
Proof.
  induction j as [|b|s|l IH|ms IH] using json_ind'; intros level.
  - cbn. lia.
  - destruct b; cbn; lia.
  - cbn [dumps_at weight]. unfold encode_basestring. rewrite !length_app. cbn. lia.
  - destruct l as [|x xs]; [cbn; lia|].
    apply Forall_cons in IH as [Hx Hxs].
    cbn [dumps_at weight foldr]. rewrite !length_app. cbn [length].
    specialize (Hx (S level)).
    assert (foldr (λ x acc, weight x + acc) 0 xs ≤
            length (flat_map (λ y, [44%N] ++ newline_indent (S level)
                                   ++ dumps_at (S level) y) xs))%nat.
    { induction Hxs as [|y ys Hy _ IHys]; [done|].
      cbn [foldr flat_map]. rewrite !length_app. specialize (Hy (S level)). lia. }
    lia.
  - destruct ms as [|kv ms]; [cbn; lia|].
    apply Forall_cons in IH as [Hx Hxs].
    cbn [dumps_at weight foldr]. rewrite !length_app. cbn [length].
    specialize (Hx (S level)).
    assert (foldr (λ kv acc, weight kv.2 + acc) 0 ms ≤
            length (flat_map (λ kv', [44%N] ++ newline_indent (S level)
                                     ++ encode_basestring kv'.1 ++ py ": "
                                     ++ dumps_at (S level) kv'.2) ms))%nat.
    { induction Hxs as [|y ys Hy _ IHys]; [done|].
      cbn [foldr flat_map]. rewrite !length_app. specialize (Hy (S level)). lia. }
    lia.
Qed.

(** [json.loads(json.dumps(j, indent=2, ensure_ascii=False))] is [j],
    for every document of the model. *)
Lemma json_loads_dumps (j : json) : json_loads (json_dumps j) = Some j.
Proof.
  unfold json_loads, json_dumps.
  pose proof (skip_ws_dumps 0 j []) as Hws.
  pose proof (scan_once_dumps (S (length (dumps_at 0 j))) j 0 []) as Hscan.
  rewrite app_nil_r in Hws, Hscan. rewrite Hws, Hscan; [done|].
  pose proof (weight_length j 0). lia.
Qed.

(** ** The ledger as a document *)

Lemma foldl_insert_notin {A} (l : list (pystr * A)) (acc : gmap pystr A) k :
  k ∉ l.*1 → foldl (λ m kv, <[kv.1 := kv.2]> m) acc l !! k = acc !! k.
Proof.
  revert acc. induction l as [|[k' v'] l IH]; intros acc Hk; [done|].
  cbn [foldl fst snd]. rewrite fmap_cons, not_elem_of_cons in Hk.
  destruct Hk as [Hne Hk]. cbn in Hne.
  rewrite IH by done. by rewrite lookup_insert_ne.
Qed.

Lemma foldl_insert_in {A} (l : list (pystr * A)) (acc : gmap pystr A) k v :
  NoDup l.*1 → (k, v) ∈ l →
  foldl (λ m kv, <[kv.1 := kv.2]> m) acc l !! k = Some v.
Proof.
  revert acc. induction l as [|[k' v'] l IH]; intros acc Hnd Hin.
  - by apply elem_of_nil in Hin.
  - rewrite fmap_cons in Hnd. apply NoDup_cons in Hnd as [Hk' Hnd].
    cbn [foldl fst snd]. apply elem_of_cons in Hin as [[= <- <-]|Hin].
    + rewrite foldl_insert_notin by done. by rewrite lookup_insert_eq.
    + by apply IH.
Qed.

(** The dict built from the members of a dict is that dict. *)
Lemma dict_of_pairs_to_list {A} (m : gmap pystr A) :
  dict_of_pairs (map_to_list m) = m.
Proof.
  apply map_eq. intros k. unfold dict_of_pairs.
  destruct (m !! k) as [v|] eqn:E.
  - apply foldl_insert_in; [apply NoDup_fst_map_to_list|].
    by apply elem_of_map_to_list.
  - rewrite foldl_insert_notin; [done|].
    intros [[k' v] [-> Hin]]%list_elem_of_fmap.
    apply elem_of_map_to_list in Hin. cbn in *. congruence.
Qed.

Lemma field_of_to_json (f : option pystr) :
  field_of_json (field_to_json f) = Some f.
Proof. by destruct f. Qed.

Lemma entry_of_to_json (e : entry) : entry_of_json (entry_to_json e) = Some e.
Proof.
  unfold entry_of_json, entry_to_json. rewrite dict_of_pairs_to_list.
  destruct (decide _) as [_|Hn].
  - f_equal. apply map_eq. intros k.
    rewrite lookup_omap, lookup_fmap.
    destruct (e !! k) as [f|]; [|done]. cbn. apply field_of_to_json.
  - exfalso. apply Hn. intros k v. rewrite lookup_fmap.
    destruct (e !! k) as [f|]; [|done]. intros [= <-].
    rewrite field_of_to_json. by eexists.
Qed.

(** A ledger read from its own document is the ledger. *)
Lemma ledger_of_to_json (l : ledger) : ledger_of_json (ledger_to_json l) = Some l.
Proof.
  unfold ledger_of_json, ledger_to_json. rewrite dict_of_pairs_to_list.
  destruct (decide _) as [_|Hn].
  - f_equal. apply map_eq. intros k.
    rewrite lookup_omap, lookup_fmap.
    destruct (l !! k) as [e|]; [|done]. cbn. apply entry_of_to_json.
  - exfalso. apply Hn. intros k v. rewrite lookup_fmap.
    destruct (l !! k) as [e|]; [|done]. intros [= <-].
    rewrite entry_of_to_json. by eexists.
Qed.

(** ** The text of a ledger of characters is made of characters *)

Lemma scalar_str_app (a b : pystr) :
  scalar_str (a ++ b) ↔ scalar_str a ∧ scalar_str b.
Proof. unfold scalar_str. by rewrite forallb_app, andb_true_iff. Qed.

Lemma scalar_ascii (c : N) : c < 128 → is_scalar c = true.
Proof.
  intros. unfold is_scalar, is_codepoint, is_surrogate.
  rewrite andb_true_iff, negb_true_iff, andb_false_iff, N.leb_le, !N.leb_gt. lia.
Qed.

Lemma scalar_hex_fixed (n : nat) (x : N) : scalar_str (hex_fixed n x).
Proof.
  revert x. induction n as [|n IH]; intros x; [done|].
  cbn [hex_fixed]. apply scalar_str_app. split; [apply IH|].
  unfold scalar_str. cbn [forallb]. rewrite andb_true_r.
  apply scalar_ascii. unfold hex_digit.
  pose proof (N.mod_lt x 16 ltac:(lia)).
  destruct (N.ltb_spec (x mod 16) 10); lia.
Qed.

Lemma scalar_escape_char (c : N) : is_scalar c = true → scalar_str (escape_char c).
Proof.
  intros Hc. unfold escape_char.
  repeat (case_match; [done|]).
  case_match; [|unfold scalar_str; cbn [forallb]; by rewrite Hc].
  apply scalar_str_app. split; [done|apply scalar_hex_fixed].
Qed.

Lemma scalar_encode_basestring (s : pystr) :
  scalar_str s → scalar_str (encode_basestring s).
Proof.
  intros Hs. unfold encode_basestring.
  apply scalar_str_app. split; [done|]. apply scalar_str_app. split; [|done].
  induction s as [|c s IH]; [done|].
  unfold scalar_str in Hs. cbn [forallb] in Hs. apply andb_prop in Hs as [Hc Hs].
  cbn [flat_map]. apply scalar_str_app. split; [by apply scalar_escape_char|auto].
Qed.

Lemma scalar_newline_indent (level : nat) : scalar_str (newline_indent level).
Proof.
  unfold newline_indent, scalar_str. cbn [forallb].
  induction (2 * level)%nat as [|n IH]; [done|]. exact IH.
Qed.

Lemma scalar_dumps (j : json) :
  scalar_json j → ∀ level, scalar_str (dumps_at level j).
Proof.
  induction j as [|b|s|l IH|ms IH] using json_ind'; intros Hj level.
  - done.
  - by destruct b.
  - by apply scalar_encode_basestring.
  - destruct l as [|x xs]; [done|].
    apply Forall_cons in IH as [Hx Hxs]. destruct Hj as [Hjx Hjxs].
    cbn [dumps_at]. rewrite !scalar_str_app.
    split_and!; [done|apply scalar_newline_indent|by apply Hx|
                 |apply scalar_newline_indent|done].
    induction Hxs as [|y ys Hy _ IHys]; [done|].
    destruct Hjxs as [Hjy Hjys]. cbn [flat_map]. rewrite !scalar_str_app.
    split_and!; [done|apply scalar_newline_indent|by apply Hy|by apply IHys].
  - destruct ms as [|kv ms]; [done|].
    apply Forall_cons in IH as [Hx Hxs]. destruct Hj as (Hk & Hjx & Hjxs).
    cbn [dumps_at]. rewrite !scalar_str_app.
    split_and!; [done|apply scalar_newline_indent|by apply scalar_encode_basestring
                 |done|by apply Hx| |apply scalar_newline_indent|done].
    induction Hxs as [|y ys Hy _ IHys]; [done|].
    destruct Hjxs as (Hky & Hjy & Hjys). cbn [flat_map]. rewrite !scalar_str_app.
    split_and!; [done|apply scalar_newline_indent|by apply scalar_encode_basestring
                 |done|by apply Hy|by apply IHys].
Qed.

Lemma scalar_entry_to_json (e : entry) :
  map_Forall (λ f (v : option pystr), scalar_str f ∧ ∀ s, v = Some s → scalar_str s) e →
  scalar_json (entry_to_json e).
Proof.
  intros He. unfold entry_to_json. cbn [scalar_json].
  assert (Hl : ∀ kv, kv ∈ map_to_list (field_to_json <$> e) →
                     scalar_str kv.1 ∧ scalar_json kv.2).
  { intros [k v] Hin%elem_of_map_to_list. rewrite lookup_fmap in Hin.
    destruct (e !! k) as [f|] eqn:E; [|done]. injection Hin as <-.
    destruct (He k f E) as [Hk Hf]. split; [done|].
    destruct f as [s|]; cbn; [by apply Hf|done]. }
  induction (map_to_list (field_to_json <$> e)) as [|kv l IH]; [done|].
  cbn [foldr]. destruct (Hl kv ltac:(left)) as [??].
  split_and!; [done|done|]. apply IH. intros ??. apply Hl. by right.
Qed.

Lemma scalar_ledger_to_json (l : ledger) :
  scalar_ledger l → scalar_json (ledger_to_json l).
Proof.
  intros Hl. unfold ledger_to_json. cbn [scalar_json].
  assert (H : ∀ kv, kv ∈ map_to_list (entry_to_json <$> l) →
                    scalar_str kv.1 ∧ scalar_json kv.2).
  { intros [k v] Hin%elem_of_map_to_list. rewrite lookup_fmap in Hin.
    destruct (l !! k) as [e|] eqn:E; [|done]. injection Hin as <-.
    destruct (Hl k e E) as [Hk He]. split; [done|].
    by apply scalar_entry_to_json. }
  induction (map_to_list (entry_to_json <$> l)) as [|kv ms IH]; [done|].
  cbn [foldr]. destruct (H kv ltac:(left)) as [??].
  split_and!; [done|done|]. apply IH. intros ??. apply H. by right.
Qed.

(** ** Strings in the text *)

(** A character that is neither the quote nor the backslash nor a
    control character is written as it is. *)
Lemma escape_char_verbatim (c : N) :
  32 ≤ c → c ≠ 34 → c ≠ 92 → escape_char c = [c].
Proof.
  intros. unfold escape_char.
  repeat match goal with
  | |- context [N.eqb ?a ?b] => destruct (N.eqb_spec a b); [lia|]
  end.
  by destruct (N.ltb_spec c 32); [lia|].
Qed.

Lemma encode_basestring_verbatim (s : pystr) :
  Forall (λ c, 32 ≤ c ∧ c ≠ 34 ∧ c ≠ 92) s → encode_basestring s = [34] ++ s ++ [34].
Proof.
  intros Hs. unfold encode_basestring. do 2 f_equal.
  induction Hs as [|c s (? & ? & ?) _ IH]; [done|].
  cbn [flat_map]. by rewrite escape_char_verbatim, IH.
Qed.

Lemma flat_map_infix {A} (F : A → pystr) (x : pystr) (l : list A) (y : A) :
  y ∈ l → (∃ a b, F y = a ++ x ++ b) → ∃ a b, flat_map F l = a ++ x ++ b.
Proof.
  intros Hin (a & b & Hy). induction l as [|z l IH]; [by apply elem_of_nil in Hin|].
  apply elem_of_cons in Hin as [<-|Hin]; cbn [flat_map].
  - exists a, (b ++ flat_map F l). rewrite Hy. by rewrite <-!app_assoc.
  - destruct (IH Hin) as (a' & b' & ->).
    exists (F z ++ a'), b'. by rewrite <-!app_assoc.
Qed.

(** Every key of an object stands in its text as a string literal. *)
Lemma dumps_obj_key (level : nat) (ms : list (pystr * json)) k v :
  (k, v) ∈ ms → ∃ a b, dumps_at level (JObj ms) = a ++ encode_basestring k ++ b.
Proof.
  destruct ms as [|kv ms]; [by intros ?%elem_of_nil|].
  intros [<-|Hin]%elem_of_cons; cbn [dumps_at fst snd].
  - eexists ([123] ++ newline_indent (S level)), _. apply app_assoc.
  - destruct (flat_map_infix
        (λ kv', [44] ++ newline_indent (S level) ++ encode_basestring kv'.1
                ++ py ": " ++ dumps_at (S level) kv'.2)
        (encode_basestring k) ms (k, v) Hin) as (a & b & ->).
    { exists ([44] ++ newline_indent (S level)), (py ": " ++ dumps_at (S level) v).
      cbn [fst snd]. by rewrite <-!app_assoc. }
    exists ([123] ++ newline_indent (S level) ++ encode_basestring kv.1
            ++ py ": " ++ dumps_at (S level) kv.2 ++ a),
           (b ++ newline_indent level ++ [125]).
    by rewrite <-!app_assoc.
Qed.

(** ** Persistence: [_save_state] then [_load_state] *)

Section Persistence.
Context {World : Type} `{!Client World, !Host World}.
Local Abbreviation M := (@M World).
Local Abbreviation Machine := (@Machine World).

(** What [_save_state] writes for a ledger of characters, and that the
    ledger comes back from it. *)
Lemma save_state_scalar (m : Machine) :
  scalar_ledger (m_state m) →
  ∃ data,
    utf8_encode (json_dumps (ledger_to_json (m_state m))) = Some data
    ∧ utf8_decode data = Some (json_dumps (ledger_to_json (m_state m)))
    ∧ _save_state m =
        (Ok (), add_event (WriteText (Some data)) (set_file (Some data) m))
    ∧ _load_state (Some data) = m_state m.
Proof.
  intros Hl.
  destruct (utf8_roundtrip (json_dumps (ledger_to_json (m_state m)))) as (data & He & Hd).
  { apply scalar_dumps. by apply scalar_ledger_to_json. }
  exists data. split; [done|]. split; [done|]. split.
  - unfold _save_state. by rewrite He.
  - unfold _load_state. by rewrite Hd, json_loads_dumps, ledger_of_to_json.
Qed.

(** C8: for a ledger whose keys, field names and values are strings of
    characters (Unicode scalar values: every character, ASCII or not,
    but no lone surrogate), [_save_state] writes the state file and
    [_load_state] of that file is the same ledger. The file is the UTF-8
    form of the printed ledger, every key of the ledger stands in that
    text as a string literal, and in a string literal every character
    other than the quote, the backslash and the controls below U+0020
    stands for itself, so a non-ASCII character is not escaped. *)
Theorem save_load_roundtrip (m : Machine) :
  scalar_ledger (m_state m) →
  ∃ data,
    _save_state m =
      (Ok (), add_event (WriteText (Some data)) (set_file (Some data) m))
    ∧ _load_state (Some data) = m_state m
    ∧ utf8_decode data = Some (json_dumps (ledger_to_json (m_state m)))
    ∧ (∀ k, is_Some (m_state m !! k) →
         ∃ a b, json_dumps (ledger_to_json (m_state m))
                = a ++ encode_basestring k ++ b)
    ∧ (∀ s, Forall (λ c, 32 ≤ c ∧ c ≠ 34 ∧ c ≠ 92) s →
         encode_basestring s = [34] ++ s ++ [34]).
Proof.
  intros Hl. destruct (save_state_scalar m Hl) as (data & _ & Hd & Hs & Hload).
  exists data. split_and!; [done..| |apply encode_basestring_verbatim].
  intros k [e He]. apply (dumps_obj_key 0 _ k (entry_to_json e)).
  apply elem_of_map_to_list. by rewrite lookup_fmap, He.
Qed.

End Persistence.

(** C8 on the ledger of the repository's test script: the key and the
    file name hold the letter U+1EA5, the file is written, and the
    ledger read back from the file is the ledger. *)
Lemma save_load_roundtrip_witness :
  let name := py "test_" ++ [7845] ++ py "n.txt" in
  let m := Sim.seeded
    {[ py "/srv/docs/" ++ name :=
         <[py "file_id" := Some (py "fake-id")]> {[ py "file_name" := Some name ]} ]} in
  (_save_state m).1 = Ok ()
  ∧ _load_state (m_file (_save_state m).2) = m_state m.
Proof.
  intros name m.
  destruct (save_load_roundtrip m) as (data & Hs & Hl & _).
  - apply map_Forall_singleton. split; [reflexivity|].
    apply map_Forall_insert_2; [|apply map_Forall_singleton];
      (split; [reflexivity|]); intros s [= <-]; reflexivity.
  - rewrite Hs. cbn [fst snd m_file set_file add_event]. by split.
Defined.

(** A key with a lone surrogate, as the name of a file whose bytes are
    no UTF-8 gives one: the text cannot be encoded, [_save_state] raises,
    the state file is left empty and the ledger does not come back. *)
Lemma save_state_lone_surrogate :
  let key := py "/srv/docs/" ++ [56448] ++ py ".txt" in
  let m := Sim.seeded {[ key := Sim.entry_with (py "files/ok-1") ]} in
  (_save_state m).1 = Raise UnicodeEncodeError
  ∧ m_file (_save_state m).2 = Some []
  ∧ _load_state (m_file (_save_state m).2) ≠ m_state m.
Proof. intros key m. split; [|split]; run_eq. Qed.

(** * Further properties *)

(** ** The references [_is_valid_file_id] accepts *)

Lemma re_match_id_newline (run : pystr) :
  run ≠ [] → forallb id_char run = true → re_match_id (run ++ [10]) = true.
Proof.
  intros Hne Hall. unfold re_match_id.
  rewrite take_while_stop, drop_while_stop by done.
  by destruct run.
Qed.

(** X1: [_is_valid_file_id] accepts exactly the strings made of the prefix
    ["files/"], a non-empty run of characters from [[a-z0-9-]] and, at
    most, one line feed after the run, the run and the line feed being
    at most forty characters together. *)
Theorem is_valid_file_id_language (file_ref : pystr) :
  _is_valid_file_id (PStr file_ref) = true ↔
  ∃ run tail,
    file_ref = py "files/" ++ run ++ tail
    ∧ run ≠ [] ∧ forallb id_char run = true
    ∧ (tail = [] ∨ tail = [10])
    ∧ (length (run ++ tail) ≤ 40)%nat.
Proof.
  split.
  - intros Hv.
    assert (Hpre : startswith file_ref (py "files/") = true).
    { unfold _is_valid_file_id in Hv.
      by destruct (startswith file_ref (py "files/")). }
    apply startswith_inv in Hpre. rewrite Hpre in Hv |- *.
    set (id := drop (length (py "files/")) file_ref) in *. clearbody id.
    rewrite is_valid_prefixed in Hv.
    apply andb_prop in Hv as [[_ Hlen]%andb_prop Hm].
    apply Nat.leb_le in Hlen.
    destruct (re_match_id_inv _ Hm) as (run & Hne & Hall & [->| ->]).
    + exists run, []. rewrite app_nil_r. by split_and!; [..|left|].
    + exists run, [10]. by split_and!; [..|right|].
  - intros (run & tail & -> & Hne & Hall & Htail & Hlen).
    rewrite is_valid_prefixed.
    rewrite (proj2 (Nat.leb_le _ _) Hlen), andb_true_r.
    apply andb_true_intro. split.
    + apply negb_true_iff, bool_decide_eq_false_2. by destruct run.
    + destruct Htail as [-> | ->].
      * rewrite app_nil_r, re_match_id_class by done.
        apply negb_true_iff, bool_decide_eq_false_2. done.
      * by apply re_match_id_newline.
Qed.

(** ** Bare identifiers *)

Lemma id_char_no_slash (id : pystr) : forallb id_char id = true → 47 ∉ id.
Proof.
  intros Hall Hin. apply forallb_Forall_iff in Hall.
  by apply (proj1 (Forall_forall _ _) Hall) in Hin.
Qed.

Lemma startswith_files_slash (s : pystr) :
  startswith s (py "files/") = true → 47 ∈ s.
Proof.
  intros ->%startswith_inv. rewrite py_files. set_solver.
Qed.

Section BareIds.
Context {World : Type} `{!Client World, !Host World}.
Local Abbreviation M := (@M World).
Local Abbreviation Machine := (@Machine World).

(** What a run adds to the trace comes after what was there. *)
Lemma import_failed_grows store file_ref e (m : Machine) :
  ∃ t, m_trace (import_failed store file_ref e m).2 = m_trace m ++ t.
Proof.
  destruct (runs_import_failed (λ _, True) false (λ _ _, I) store file_ref e m)
    as [(t & Ht & _) _].
  by exists t.
Qed.

Lemma wait_done_grows fuel op (m : Machine) :
  ∃ t, m_trace (wait_done fuel op m).2 = m_trace m ++ t.
Proof.
  destruct (wait_done_trace (λ _, True) fuel (λ _ _, I) op m) as [(t & Ht & _) _].
  by exists t.
Qed.

(** Once the identifier is not empty and passes the check in its
    normalized form, the import request is issued. *)
Lemma import_request_issued fuel store file_name (m : Machine) :
  file_name ≠ [] →
  _is_valid_file_id (PStr (normalize_ref file_name)) = true →
  CallImport store (normalize_ref file_name)
    ∈ m_trace (import_file_to_store fuel store file_name m).2.
Proof.
  intros Hne Hv.
  destruct (file_search_stores_import_file store (normalize_ref file_name) (m_world m))
    as [r w] eqn:Hcall.
  rewrite (import_issued _ _ _ _ _ _ Hne Hv Hcall). cbn zeta.
  set (m2 := set_world w _).
  assert (Hin : CallImport store (normalize_ref file_name) ∈ m_trace m2).
  { subst m2. cbn. rewrite !elem_of_app, !elem_of_cons. tauto. }
  destruct r as [e|op].
  - destruct (import_failed_grows store (normalize_ref file_name) e m2) as [t ->].
    apply elem_of_app. by left.
  - rewrite bind_run. destruct (wait_done_grows fuel op m2) as [t Ht].
    destruct (wait_done fuel op m2) as [[op'|e|] m3]; cbn [fst snd] in Ht;
      cbv beta iota; unfold mret, M_ret; cbn [fst snd];
      rewrite Ht; apply elem_of_app; by left.
Qed.

(** X12: an identifier without the prefix, such as ["fake-id"], is treated in
    two ways. As the [file_id] of a ledger entry it fails the check, and
    [clean_state] removes the entry. Handed to [import_file_to_store] it
    is given the prefix first, passes the check, and the import request
    is issued for it. *)
Theorem bare_id_pruned_but_imported (fuel : nat) (store k id : pystr)
    (e : entry) (m m0 : Machine) :
  id ≠ [] → (length id ≤ 40)%nat → forallb id_char id = true →
  m_state m !! k = Some e →
  e !! py "file_id" = Some (Some id) →
  m_state (clean_state m).2 !! k = None
  ∧ CallImport store (py "files/" ++ id)
      ∈ m_trace (import_file_to_store fuel store id m0).2.
Proof.
  intros Hne Hlen Hall Hk He.
  assert (Hpre : startswith id (py "files/") = false).
  { apply not_true_is_false. intros H%startswith_files_slash.
    by apply id_char_no_slash in Hall. }
  assert (Hnorm : normalize_ref id = py "files/" ++ id)
    by (unfold normalize_ref; by rewrite Hpre).
  split.
  - rewrite clean_state_state. apply map_lookup_filter_None. right.
    intros e' He'. assert (e' = e) as -> by congruence. cbn [snd].
    unfold keeps, invalid_file_id, entry_get. rewrite He.
    unfold _is_valid_file_id. rewrite Hpre. cbn [negb]. by rewrite orb_true_r.
  - rewrite <-Hnorm. apply import_request_issued; [done|].
    rewrite Hnorm, is_valid_prefixed, re_match_id_class by done.
    rewrite (proj2 (Nat.leb_le _ _) Hlen).
    destruct id; [done|]. by rewrite bool_decide_eq_false_2.
Qed.

End BareIds.

(** The entry of the repository's test script, with [file_id]
    ["fake-id"]: pruned from the ledger, imported when asked for. *)
Lemma bare_id_pruned_but_imported_witness :
  let k := py "/srv/docs/test.txt" in
  let e : entry := <[py "file_id" := Some (py "fake-id")]>
                     {[ py "file_name" := Some (py "test.txt") ]} in
  m_state (clean_state (Sim.seeded {[ k := e ]})).2 !! k = None
  ∧ CallImport (py "fileSearchStores/my-docs") (py "files/fake-id")
      ∈ m_trace (import_file_to_store 1 (py "fileSearchStores/my-docs")
                   (py "fake-id") (Sim.boot [])).2.
Proof.
  intros k e.
  apply (bare_id_pruned_but_imported 1 _ k (py "fake-id") e); try reflexivity.
  - discriminate.
  - cbn. lia.
Defined.

(** ** What [import_file_to_store] returns *)

Section ImportResult.
Context {World : Type} `{!Client World, !Host World}.
Local Abbreviation M := (@M World).
Local Abbreviation Machine := (@Machine World).

(** The wait loop hands back only an operation that is done. *)
Lemma wait_done_done fuel op (m m' : Machine) op' :
  wait_done fuel op m = (Ok op', m') → op_done op' = true.
Proof.
  revert op m. induction fuel as [|n IH]; intros op m; cbn [wait_done].
  - destruct (op_done op) eqn:Hd; [|done]. by intros [= <- _].
  - destruct (op_done op) eqn:Hd; [by intros [= <- _]|].
    rewrite bind_run. cbn [emit]. rewrite bind_run. cbn [emit].
    rewrite bind_run. unfold call.
    destruct (operations_get op _) as [[e|op1] w]; [done|]. apply IH.
Qed.

(** An operation that is done when the request returns is handed back
    at once: no sleep, no poll. *)
Lemma wait_done_at_once fuel op (m : Machine) :
  op_done op = true → wait_done fuel op m = (Ok op, m).
Proof. intros Hd. destruct fuel; cbn [wait_done]; by rewrite Hd. Qed.

(** X11: when [import_file_to_store] returns an operation, the identifier
    was not empty, its normalized form passed the check, the import
    request was issued for that form, and the operation is done; in
    every other case that returns, the result is [None]. *)
Theorem import_returns_done (fuel : nat) (store file_name : pystr)
    (m m' : Machine) (op : Operation) :
  import_file_to_store fuel store file_name m = (Ok (Some op), m') →
  op_done op = true
  ∧ file_name ≠ []
  ∧ _is_valid_file_id (PStr (normalize_ref file_name)) = true
  ∧ CallImport store (normalize_ref file_name) ∈ m_trace m'.
Proof.
  intros Hrun.
  destruct (decide (file_name = [])) as [->|Hne].
  { by rewrite import_skip_missing in Hrun. }
  destruct (_is_valid_file_id (PStr (normalize_ref file_name))) eqn:Hv.
  2: { by rewrite import_skip_invalid in Hrun. }
  split_and!; [|done|done|].
  - destruct (file_search_stores_import_file store (normalize_ref file_name) (m_world m))
      as [r w] eqn:Hcall.
    rewrite (import_issued _ _ _ _ _ _ Hne Hv Hcall) in Hrun. cbn zeta in Hrun.
    destruct r as [e|op0].
    + destruct (import_failed_run store (normalize_ref file_name) e
        (set_world w (add_event (CallImport store (normalize_ref file_name))
           (add_event (Print (MsgImporting (normalize_ref file_name) store)) m))))
        as (mf & Hf & _).
      rewrite Hf in Hrun. done.
    + rewrite bind_run in Hrun.
      destruct (wait_done fuel op0 _) as [[op'|e|] m3] eqn:Hw; [|done..].
      injection Hrun as <- <-. by apply wait_done_done in Hw.
  - pose proof (import_request_issued fuel store file_name m Hne Hv) as Hin.
    by rewrite Hrun in Hin.
Qed.

End ImportResult.

(** In the simulated service the import of ["abc"] is done after one
    poll. *)
Lemma import_returns_done_witness :
  let r := import_file_to_store 1 (py "fileSearchStores/my-docs") (py "abc") (Sim.boot []) in
  r.1 = Ok (Some {| op_done := true; op_name := py "files/abc" |})
  ∧ CallImport (py "fileSearchStores/my-docs") (py "files/abc") ∈ m_trace r.2.
Proof.
  intros r.
  destruct (import_returns_done 1 (py "fileSearchStores/my-docs") (py "abc")
              (Sim.boot []) r.2 {| op_done := true; op_name := py "files/abc" |})
    as (_ & _ & _ & Hin).
  - run_eq.
  - split; [run_eq|exact Hin].
Defined.

(** ** What [clean_state] does, event by event *)

Section PruneTrace.
Context {World : Type} `{!Client World, !Host World}.
Local Abbreviation M := (@M World).
Local Abbreviation Machine := (@Machine World).

Lemma removal_reports (items : list (pystr * entry)) :
  concat (removal <$> items) =
    (λ kv, Print (MsgRemoving kv.1 (entry_get kv.2 (py "file_id"))))
      <$> filter (λ kv, keeps kv.2 = false) items.
Proof.
  induction items as [|kv items IH]; [done|].
  rewrite fmap_cons. cbn [concat]. rewrite IH, filter_cons. unfold removal.
  destruct (keeps kv.2) eqn:Hk.
  - by rewrite decide_False by done.
  - by rewrite decide_True by done.
Qed.

Lemma removed_exists (items : list (pystr * entry)) :
  existsb (λ kv, negb (keeps kv.2)) items
  = negb (bool_decide (filter (λ kv, keeps kv.2 = false) items = [])).
Proof.
  induction items as [|kv items IH]; [done|].
  cbn [existsb]. rewrite filter_cons, IH.
  destruct (keeps kv.2) eqn:Hk; cbn [negb orb].
  - by rewrite decide_False by done.
  - by rewrite decide_True by done.
Qed.

(** X13: [clean_state] prints one report for every entry it removes, in
    the order in which the ledger is enumerated (here that of the finite
    map, where Python has the order of insertion), and nothing else; it
    then writes the state file once if it removed an entry, and not at
    all if it removed none. It never calls the remote service or the
    host: the world is as it was. *)
Theorem clean_state_trace (m : Machine) :
  let removed := filter (λ kv, keeps kv.2 = false) (map_to_list (m_state m)) in
  let reports :=
    (λ kv, Print (MsgRemoving kv.1 (entry_get kv.2 (py "file_id")))) <$> removed in
  m_world (clean_state m).2 = m_world m
  ∧ (removed = [] →
       m_trace (clean_state m).2 = m_trace m ∧ m_file (clean_state m).2 = m_file m)
  ∧ (removed ≠ [] →
       ∃ d, m_trace (clean_state m).2 = m_trace m ++ reports ++ [WriteText d]
            ∧ m_file (clean_state m).2 = Some (default [] d)).
Proof.
  intros removed reports.
  unfold clean_state. rewrite bind_run. cbn [get_state].
  rewrite bind_run, clean_loop_run. cbn [orb].
  rewrite removed_exists, removal_reports.
  fold removed. fold reports.
  destruct (decide (removed = [])) as [Hr|Hr].
  - rewrite bool_decide_eq_true_2 by done. cbn [negb].
    split; [done|]. split; [|done]. intros _. cbn.
    subst reports. rewrite Hr. cbn. by rewrite app_nil_r.
  - rewrite bool_decide_eq_false_2 by done. cbn [negb].
    unfold _save_state. cbn [m_state].
    destruct (utf8_encode _) as [data|]; cbn.
    + split; [done|]. split; [done|]. intros _. exists (Some data).
      by rewrite <-app_assoc.
    + split; [done|]. split; [done|]. intros _. exists None.
      by rewrite <-app_assoc.
Qed.

End PruneTrace.

(** ** Runs that leave the ledger alone *)

Section Frames.
Context {World : Type} `{!Client World, !Host World}.
Local Abbreviation M := (@M World).
Local Abbreviation Machine := (@Machine World).

Lemma frames_ret {A} (a : A) : frames (mret a : M A).
Proof. by intros m. Qed.

Lemma frames_emit (e : event) : frames (emit e : M unit).
Proof. by intros m. Qed.

Lemma frames_call {A} (f : World → (exn + A) * World) : frames (call f).
Proof. intros m. unfold call. by destruct (f (m_world m)) as [[e|a] w]. Qed.

Lemma frames_bind {A B} (c : M A) (f : A → M B) :
  frames c → (∀ a, frames (f a)) → frames (c ≫= f).
Proof.
  intros Hc Hf m. rewrite bind_run. destruct (Hc m) as (Hs & Hfile).
  destruct (c m) as [[a|e|] m1]; cbn [fst snd] in *; [|done..].
  destruct (Hf a m1) as (Hs' & Hfile'). by rewrite Hs', Hfile'.
Qed.

Lemma frames_try_except {A} (c : M A) (h : exn → M A) :
  frames c → (∀ e, frames (h e)) → frames (try_except c h).
Proof.
  intros Hc Hh m. unfold try_except. destruct (Hc m) as (Hs & Hfile).
  destruct (c m) as [[a|e|] m1]; cbn [fst snd] in *; [done| |done].
  destruct (Hh e m1) as (Hs' & Hfile'). by rewrite Hs', Hfile'.
Qed.

Lemma frames_try_finally {A} (c : M A) (fin : M unit) :
  frames c → frames fin → frames (try_finally c fin).
Proof.
  intros Hc Hf m. unfold try_finally. destruct (Hc m) as (Hs & Hfile).
  destruct (c m) as [r m1]; cbn [fst snd] in *.
  destruct (Hf m1) as (Hs' & Hfile').
  destruct (fin m1) as [[[]|e|] m2]; cbn [fst snd] in *;
    by rewrite ?Hs', ?Hfile'.
Qed.

Lemma frames_ascii_safe (s : pystr) : frames (_ascii_safe s : M pystr).
Proof.
  intros m. unfold _ascii_safe.
  destruct (sanitize_base_total (splitext platform s).1 m)
    as (out & m' & -> & _ & _ & Hs & Hf & _).
  done.
Qed.

Lemma frames_try_upload (file_path : Path) (name : pystr) :
  frames (try_upload_with_name file_path name : M RemoteFile).
Proof.
  unfold try_upload_with_name. destruct (negb _).
  - apply frames_bind; [apply frames_call|]. intros temp_path.
    apply frames_try_finally.
    + apply frames_bind; [apply frames_emit|]. intros _. apply frames_call.
    + apply frames_try_except; [apply frames_call|]. intros _. apply frames_ret.
  - apply frames_bind; [apply frames_emit|]. intros _. apply frames_call.
Qed.

(** The wait for an operation, and the import as a whole. *)
Lemma frames_wait_done fuel op : frames (wait_done fuel op : M Operation).
Proof.
  revert op. induction fuel as [|n IH]; intros op; cbn [wait_done];
    (destruct (op_done op); [apply frames_ret|]); [done|].
  apply frames_bind; [apply frames_emit|]. intros _.
  apply frames_bind; [apply frames_emit|]. intros _.
  apply frames_bind; [apply frames_call|]. apply IH.
Qed.

Lemma frames_import fuel store file_name :
  frames (import_file_to_store fuel store file_name : M (option Operation)).
Proof.
  unfold import_file_to_store, import_failed, safe_print.
  repeat first
    [ apply frames_ret | apply frames_call | apply frames_emit
    | apply frames_wait_done
    | apply frames_bind; [|intros ?]
    | apply frames_try_except; [|intros ?]
    | case_match ].
Qed.

End Frames.

(** ** A state file that was written reads back *)

Lemma utf8_encode_char_scalar (c : N) (b : bytes) :
  utf8_encode_char c = Some b → is_scalar c = true.
Proof.
  assert (Hscalar : c ≤ 1114111 → (c < 55296 ∨ 57343 < c) → is_scalar c = true).
  { intros H1 H2. unfold is_scalar, is_codepoint, is_surrogate.
    apply andb_true_intro. split; [by apply N.leb_le|].
    apply negb_true_iff, andb_false_iff. by rewrite !N.leb_gt. }
  unfold utf8_encode_char.
  destruct (N.ltb_spec c 128); [intros _; apply Hscalar; lia|].
  destruct (N.ltb_spec c 2048); [intros _; apply Hscalar; lia|].
  destruct (N.ltb_spec c 65536).
  - destruct (is_surrogate c) eqn:E; [done|]. intros _.
    unfold is_surrogate in E. apply andb_false_iff in E.
    rewrite !N.leb_gt in E. apply Hscalar; lia.
  - unfold is_codepoint. destruct (N.leb_spec c 1114111); [|done]. intros _.
    apply Hscalar; lia.
Qed.

Lemma utf8_encode_scalar (s : pystr) (data : bytes) :
  utf8_encode s = Some data → scalar_str s.
Proof.
  unfold scalar_str. revert data. induction s as [|c s IH]; intros data; [done|].
  cbn [utf8_encode forallb].
  destruct (utf8_encode_char c) as [b|] eqn:Ec; [|done].
  destruct (utf8_encode s) as [bs|] eqn:Es; [|done]. intros _.
  by rewrite (utf8_encode_char_scalar _ _ Ec), (IH bs).
Qed.

(** What the encoder accepts, the decoder gives back. *)
Lemma utf8_decode_encode (s : pystr) (data : bytes) :
  utf8_encode s = Some data → utf8_decode data = Some s.
Proof.
  intros He. destruct (utf8_roundtrip s (utf8_encode_scalar _ _ He)) as (d & He' & Hd).
  congruence.
Qed.

Section UploadMore.
Context {World : Type} `{!Client World, !Host World}.
Local Abbreviation M := (@M World).
Local Abbreviation Machine := (@Machine World).
Variable self : Config.

(** Whenever [_save_state] returns, the file it wrote holds the ledger. *)
Lemma save_state_ok (m m' : Machine) :
  _save_state m = (Ok (), m') →
  m_state m' = m_state m ∧ m_world m' = m_world m
  ∧ _load_state (m_file m') = m_state m
  ∧ ∃ data, m_file m' = Some data ∧ m_trace m' = m_trace m ++ [WriteText (Some data)].
Proof.
  unfold _save_state.
  destruct (utf8_encode _) as [data|] eqn:He; [|done]. intros [= <-].
  split; [done|]. split; [done|]. split; [|by exists data].
  cbn [m_file add_event set_file _load_state].
  by rewrite (utf8_decode_encode _ _ He), json_loads_dumps, ledger_of_to_json.
Qed.

(** When [_save_state] raises, the text could not be encoded and the
    file is left empty. *)
Lemma save_state_raise (m m' : Machine) e :
  _save_state m = (Raise e, m') →
  e = UnicodeEncodeError ∧ m_state m' = m_state m ∧ m_file m' = Some [].
Proof.
  unfold _save_state. destruct (utf8_encode _); [done|]. by intros [= <- <-].
Qed.

Lemma frames_attempt file_path safe_name : frames (attempt self file_path safe_name : M RemoteFile).
Proof.
  unfold attempt. destruct (prefer_utf8 self); [|apply frames_try_upload].
  apply frames_try_except; [apply frames_try_upload|]. intros _.
  apply frames_bind; [apply frames_emit|]. intros _. apply frames_try_upload.
Qed.

(** A call for a path whose entry has no [file_id], step by step. *)
Lemma upload_file_miss (file_path : Path) (m : Machine) :
  truthy (entry_get (default ∅ (m_state m !! path_resolved file_path))
            (py "file_id")) = false →
  ∃ safe_name m1,
    _ascii_safe (path_name file_path)
      (add_event (Print (MsgUploading (path_name file_path))) m) = (Ok safe_name, m1)
    ∧ (length safe_name ≤ 40)%nat ∧ forallb id_char safe_name = true
    ∧ m_state m1 = m_state m ∧ m_file m1 = m_file m
    ∧ upload_file self file_path m =
        match attempt self file_path safe_name m1 with
        | (Ok resource, m2) =>
            let info := file_info resource file_path safe_name in
            (_save_state ;; mret info)
              (set_state (<[path_resolved file_path := info]> (m_state m2)) m2)
        | (Raise e, m2) => (Raise e, m2)
        | (Blocked, m2) => (Blocked, m2)
        end.
Proof.
  intros Hmiss. unfold upload_file. rewrite bind_run. cbn [get_state].
  rewrite Hmiss. rewrite bind_run. cbn [safe_print emit].
  unfold _ascii_safe.
  destruct (sanitize_base_total (splitext platform (path_name file_path)).1
              (add_event (Print (MsgUploading (path_name file_path))) m))
    as (safe_name & m1 & Hsafe & Hlen & Hclass & Hs & Hf & _).
  exists safe_name, m1. rewrite bind_run, Hsafe.
  split_and!; [done..|].
  rewrite bind_run. fold (attempt self file_path safe_name).
  by destruct (attempt self file_path safe_name m1) as [[resource|e|] m2].
Qed.

(** A path without an entry has no [file_id]. *)
Lemma truthy_lookup (st : ledger) (key : pystr) :
  truthy (entry_get (default ∅ (st !! key)) (py "file_id")) = true →
  ∃ e, st !! key = Some e.
Proof. destruct (st !! key) as [e|]; [by exists e|done]. Qed.

(** X10: when [upload_file] raises, one of two things happened. Either the
    upload failed: then the ledger and the state file are as they were.
    Or the upload succeeded and the write of the state file failed on a
    text that has no UTF-8 form: then the new entry is in the ledger in
    memory and the state file is empty. *)
Theorem upload_file_raises (file_path : Path) (m m' : Machine) (e : exn) :
  upload_file self file_path m = (Raise e, m') →
  (m_state m' = m_state m ∧ m_file m' = m_file m)
  ∨ (e = UnicodeEncodeError ∧ m_file m' = Some []
     ∧ ∃ info, m_state m' = <[path_resolved file_path := info]> (m_state m)).
Proof.
  destruct (truthy (entry_get (default ∅ (m_state m !! path_resolved file_path))
                      (py "file_id"))) eqn:Ht.
  - destruct (truthy_lookup _ _ Ht) as [e0 He0].
    rewrite He0 in Ht. by rewrite (upload_file_hit self _ _ _ He0 Ht).
  - destruct (upload_file_miss file_path m Ht)
      as (safe_name & m1 & _ & _ & _ & Hs1 & Hf1 & ->).
    destruct (frames_attempt file_path safe_name m1) as (Hs2 & Hf2).
    destruct (attempt self file_path safe_name m1) as [[resource|e'|] m2];
      cbn [fst snd] in *; [| |done].
    + cbn zeta. rewrite bind_run.
      destruct (_save_state _) as [[[]|e'|] m3] eqn:Hsave; [done| |done].
      intros [= <- <-]. apply save_state_raise in Hsave as (-> & Hs3 & Hf3).
      right. split; [done|]. split; [done|].
      eexists. rewrite Hs3. cbn [m_state set_state]. by rewrite Hs2, Hs1.
    + intros [= <- <-]. left. by rewrite Hs2, Hf2, Hs1, Hf1.
Qed.


End UploadMore.

(** A refused upload in the simulated service: the ledger and the state
    file stay as they were. *)
Lemma upload_file_raises_witness :
  let m := Sim.seeded Sim.ledger3 in
  let m' := (upload_file Sim.config (Sim.file "broken.pdf") m).2 in
  m_state m' = m_state m ∧ m_file m' = m_file m.
Proof.
  intros m m'.
  destruct (upload_file_raises Sim.config (Sim.file "broken.pdf") m m' Sim.remote_error)
    as [H|(H & _)]; [run_eq|exact H|discriminate H].
Defined.


(** ** Store resolution: [create_or_get_file_search_store] *)

Section StoreResolution.
Context {World : Type} `{!Client World, !Host World}.
Local Abbreviation M := (@M World).
Local Abbreviation Machine := (@Machine World).
Variable self : Config.

(** The function up to the search in the listing. *)
Lemma store_resolution_run (m : Machine) stores w :
  file_search_stores_list (m_world m) = (inr stores, w) →
  ∃ safe_display m1,
    _ascii_safe (store_display_name self)
      (set_world w (add_event CallListStores m)) = (Ok safe_display, m1)
    ∧ m_state m1 = m_state m ∧ m_file m1 = m_file m
    ∧ m_trace m1 = m_trace m ++ [CallListStores]
    ∧ create_or_get_file_search_store self m =
        match find (matches_name self safe_display) stores with
        | Some s => (Ok s, m1)
        | None =>
            if prefer_utf8 self then
              try_except (create_store (store_display_name self))
                (λ _, safe_print MsgFallbackStore ;; create_store safe_display) m1
            else create_store safe_display m1
        end.
Proof.
  intros Hlist. unfold create_or_get_file_search_store, list_stores.
  unfold _ascii_safe.
  destruct (sanitize_base_total (splitext platform (store_display_name self)).1
              (set_world w (add_event CallListStores m)))
    as (safe & m1 & Hsafe & _ & _ & Hs & Hf & Ht).
  cbn in Hs, Hf, Ht.
  exists safe, m1. split_and!; [done..|].
  rewrite bind_run, bind_run. cbn [emit]. unfold call. cbn [m_world add_event].
  rewrite Hlist. rewrite bind_run, Hsafe.
  unfold matches_name.
  destruct (find _ stores); [reflexivity|]. by destruct (prefer_utf8 self).
Qed.

(** X5: when the service lists a store whose display name is the one asked
    for, the function returns a listed store: the first whose display
    name is the name asked for or its sanitized form. No store is
    created: the listing is the only call, and the ledger and the state
    file are untouched. *)
Theorem store_reused (m : Machine) (stores : list StoreRef) w (s : StoreRef) :
  file_search_stores_list (m_world m) = (inr stores, w) →
  s ∈ stores →
  sr_display_name s = Some (store_display_name self) →
  ∃ safe_display s' m',
    _ascii_safe (store_display_name self)
      (set_world w (add_event CallListStores m)) = (Ok safe_display, m')
    ∧ find (matches_name self safe_display) stores = Some s'
    ∧ create_or_get_file_search_store self m = (Ok s', m')
    ∧ m_trace m' = m_trace m ++ [CallListStores]
    ∧ m_state m' = m_state m ∧ m_file m' = m_file m.
Proof.
  intros Hlist Hin Hname.
  destruct (store_resolution_run m stores w Hlist)
    as (safe & m1 & Hsafe & Hs & Hf & Ht & ->).
  destruct (find (matches_name self safe) stores) as [s'|] eqn:Hfind.
  - by exists safe, s', m1.
  - exfalso. apply list_elem_of_In in Hin.
    pose proof (find_none _ _ Hfind s Hin) as Hno.
    unfold matches_name in Hno. by rewrite bool_decide_eq_true_2 in Hno.
Qed.

(** X6: when no listed store has the name asked for or its sanitized form,
    and [prefer_utf8] is off, one store is created, under the sanitized
    name, and what the creation returns or raises is what the function
    returns or raises. *)
Theorem store_created (m : Machine) (stores : list StoreRef) w :
  file_search_stores_list (m_world m) = (inr stores, w) →
  prefer_utf8 self = false →
  ∃ safe_display m1,
    _ascii_safe (store_display_name self)
      (set_world w (add_event CallListStores m)) = (Ok safe_display, m1)
    ∧ (find (matches_name self safe_display) stores = None →
       create_or_get_file_search_store self m = create_store safe_display m1
       ∧ m_trace (create_or_get_file_search_store self m).2
         = m_trace m ++ [CallListStores; CallCreateStore safe_display]).
Proof.
  intros Hlist Hpref.
  destruct (store_resolution_run m stores w Hlist)
    as (safe & m1 & Hsafe & Hs & Hf & Ht & ->).
  exists safe, m1. split; [done|]. intros ->. rewrite Hpref. split; [done|].
  unfold create_store. rewrite bind_run. cbn [emit]. unfold call.
  destruct (file_search_stores_create safe _) as [[e|s] w']; cbn;
    by rewrite Ht, <-app_assoc.
Qed.

End StoreResolution.

(** Two stores are listed, the second under the name asked for: it is
    the one returned, and the list of the service is as it was. *)
Lemma store_reused_witness :
  let other := Listed.new_store (py "other") in
  let mine := Listed.new_store (py "My Docs") in
  let r := create_or_get_file_search_store Listed.config (Listed.boot [other; mine]) in
  r.1 = Ok mine ∧ m_trace r.2 = [CallListStores]
  ∧ Listed.stores (m_world r.2) = [other; mine].
Proof.
  intros other mine r.
  destruct (store_reused Listed.config (Listed.boot [other; mine]) [other; mine]
              (m_world (Listed.boot [other; mine])) mine)
    as (safe & s' & m' & _ & _ & Hrun & Ht & _).
  - reflexivity.
  - set_solver.
  - reflexivity.
  - subst r. rewrite Hrun. cbn [fst snd]. rewrite Ht.
    split; [|split; [done|]].
    + assert ((create_or_get_file_search_store Listed.config
                 (Listed.boot [other; mine])).1 = Ok mine) as Hr by run_eq.
      by rewrite Hrun in Hr.
    + assert (Listed.stores (m_world (create_or_get_file_search_store Listed.config
                 (Listed.boot [other; mine])).2) = [other; mine]) as Hw by run_eq.
      by rewrite Hrun in Hw.
Defined.

(** No store is listed: one is created under the name ["my-docs"], and
    a second call finds it. *)
Lemma store_created_witness :
  let r := create_or_get_file_search_store Listed.config (Listed.boot []) in
  r.1 = Ok (Listed.new_store (py "my-docs"))
  ∧ m_trace r.2 = [CallListStores; CallCreateStore (py "my-docs")]
  ∧ (create_or_get_file_search_store Listed.config r.2).1 = r.1.
Proof.
  intros r.
  destruct (store_created Listed.config (Listed.boot []) []
              (m_world (Listed.boot [])))
    as (safe & m1 & Hsafe & Hrun); [reflexivity..|].
  destruct (Hrun eq_refl) as [_ Ht].
  split; [run_eq|]. split; [|run_eq].
  subst r. rewrite Ht. f_equal. f_equal. f_equal.
  assert ((_ascii_safe (store_display_name Listed.config)
             (set_world (m_world (Listed.boot [])) (add_event CallListStores (Listed.boot [])))).1
          = Ok (py "my-docs")) as Hs by run_eq.
  rewrite Hsafe in Hs. by injection Hs.
Defined.

(** ** The batch at its edges *)

Section PrepareEdges.
Context {World : Type} `{!Client World, !Host World}.
Local Abbreviation M := (@M World).
Local Abbreviation Machine := (@Machine World).
Variables (self : Config) (fuel : nat).

Lemma frames_resolution :
  frames (create_or_get_file_search_store self : M StoreRef).
Proof.
  unfold create_or_get_file_search_store, list_stores, create_store, safe_print.
  repeat first
    [ apply frames_ret | apply frames_call | apply frames_emit
    | apply frames_ascii_safe
    | apply frames_bind; [|intros ?]
    | apply frames_try_except; [|intros ?]
    | case_match ].
Qed.

Lemma frames_list_docs : frames (_list_docs self : M (list Path)).
Proof.
  intros m. unfold _list_docs. case_match; [apply frames_call|done].
Qed.

(** What [prepare] has done when the listing begins. *)
Lemma prepare_resolved (m m1 : Machine) store :
  create_or_get_file_search_store self (add_event (Print MsgPreparing) m)
    = (Ok store, m1) →
  m_state m1 = m_state m ∧ m_file m1 = m_file m
  ∧ ∃ t, m_trace m1 = m_trace m ++ t ∧ Forall resolution_event t.
Proof.
  intros Hs.
  destruct (frames_resolution (add_event (Print MsgPreparing) m)) as (H1 & H2).
  destruct (runs_resolution self false (add_event (Print MsgPreparing) m))
    as [(t & Ht & HP) _].
  rewrite Hs in H1, H2, Ht. cbn in H1, H2, Ht.
  split; [done|]. split; [done|].
  exists (Print MsgPreparing :: t). rewrite Ht, <-app_assoc. split; [done|].
  by constructor.
Qed.

(** X14: when the directory holds no file, [prepare] returns the store after
    saying so. The ledger is not pruned, the state file is not written,
    and nothing is uploaded or imported: the ledger and the state file
    are as they were, invalid entries included, and the trace holds
    nothing but the listing and creation of stores and what was
    printed. *)
Theorem prepare_no_files (m m1 m2 : Machine) (store : StoreRef) :
  create_or_get_file_search_store self (add_event (Print MsgPreparing) m)
    = (Ok store, m1) →
  _list_docs self m1 = (Ok [], m2) →
  let r := prepare self fuel m in
  r.1 = Ok store
  ∧ m_state r.2 = m_state m ∧ m_file r.2 = m_file m
  ∧ ∃ t, m_trace r.2 = m_trace m ++ t ∧ Forall resolution_event t.
Proof.
  intros Hs Hl r. subst r. unfold prepare.
  rewrite bind_run. cbn [safe_print emit]. rewrite bind_run, Hs.
  rewrite bind_run, Hl. cbn [fst snd].
  destruct (prepare_resolved m m1 store Hs) as (H1 & H2 & t & Ht & HP).
  destruct (frames_list_docs m1) as (H3 & H4).
  destruct (runs_list_docs resolution_event false self m1) as [(t' & Ht' & HP') _].
  rewrite Hl in H3, H4, Ht'. cbn [fst snd] in *.
  change ((safe_print MsgNoFiles ≫= λ _ : (), mret store) m2)
    with (Ok store, add_event (Print MsgNoFiles) m2).
  cbn [fst snd m_state m_file m_trace add_event].
  split; [done|]. split; [congruence|]. split; [congruence|].
  exists (t ++ t' ++ [Print MsgNoFiles]).
  rewrite Ht', Ht, <-!app_assoc. split; [done|].
  repeat (apply Forall_app; split); [done..|]. by constructor.
Qed.

(** X15: when the directory does not exist, [prepare] raises
    [FileNotFoundError], but only after the store has been resolved: a
    store may have been created by then. The ledger and the state file
    are as they were. *)
Theorem prepare_missing_dir (m m1 : Machine) (store : StoreRef) :
  create_or_get_file_search_store self (add_event (Print MsgPreparing) m)
    = (Ok store, m1) →
  dir_exists (docs_dir self) (m_world m1) = false →
  prepare self fuel m = (Raise (FileNotFoundError (docs_dir self)), m1)
  ∧ m_state m1 = m_state m ∧ m_file m1 = m_file m.
Proof.
  intros Hs Hd. unfold prepare.
  rewrite bind_run. cbn [safe_print emit]. rewrite bind_run, Hs.
  rewrite bind_run. unfold _list_docs. rewrite Hd.
  destruct (prepare_resolved m m1 store Hs) as (H1 & H2 & _).
  done.
Qed.

End PrepareEdges.

(** An empty directory and a ledger with two bad entries: the store is
    created and returned, and the ledger still has its three entries. *)
Lemma prepare_no_files_witness :
  let r := prepare Sim.config 1 (Sim.seeded Sim.ledger3) in
  r.1 = Ok {| sr_name := py "fileSearchStores/my-docs";
              sr_display_name := Some (py "my-docs") |}
  ∧ m_state r.2 = Sim.ledger3 ∧ m_file r.2 = None.
Proof.
  intros r.
  pose (store := {| sr_name := py "fileSearchStores/my-docs";
                    sr_display_name := Some (py "my-docs") |}).
  pose (m1 := (create_or_get_file_search_store Sim.config
                 (add_event (Print MsgPreparing) (Sim.seeded Sim.ledger3))).2).
  destruct (prepare_no_files Sim.config 1 (Sim.seeded Sim.ledger3) m1 m1 store)
    as (H1 & H2 & H3 & _); [run_eq..|].
  by split_and!.
Defined.

(** A directory that does not exist: the store ["my-docs"] is created
    all the same, and then the call raises. *)
Lemma prepare_missing_dir_witness :
  let cfg := {| docs_dir := py "nowhere"; store_display_name := py "My Docs";
                prefer_utf8 := false |} in
  let r := prepare cfg 1 (Listed.boot []) in
  r.1 = Raise (FileNotFoundError (py "nowhere"))
  ∧ Listed.stores (m_world r.2) = [Listed.new_store (py "my-docs")].
Proof.
  intros cfg r.
  pose (m1 := (create_or_get_file_search_store cfg
                 (add_event (Print MsgPreparing) (Listed.boot []))).2).
  destruct (prepare_missing_dir cfg 1 (Listed.boot []) m1 (Listed.new_store (py "my-docs")))
    as (Hrun & _); [run_eq|reflexivity|].
  subst r. rewrite Hrun. split; [done|]. run_eq.
Defined.

(** ** The round of a file that is in the ledger *)

Section CachedRound.
Context {World : Type} `{!Client World, !Host World}.
Local Abbreviation M := (@M World).
Local Abbreviation Machine := (@Machine World).
Variables (self : Config) (fuel : nat).

Lemma import_events_wait_done op :
  runs import_event false (wait_done fuel op : M Operation).
Proof.
  revert op. induction fuel as [|n IH]; intros op; cbn [wait_done].
  - destruct (op_done op); [apply runs_ret|].
    apply runs_intro; [|done]. intros m. exists []. by rewrite app_nil_r.
  - destruct (op_done op); [apply runs_ret|].
    apply runs_bind; [by apply runs_emit|]. intros _.
    apply runs_bind; [by apply runs_emit|]. intros _.
    apply runs_bind; [apply runs_call|]. apply IH.
Qed.

Lemma import_events store file_name :
  runs import_event false
    (import_file_to_store fuel store file_name : M (option Operation)).
Proof.
  unfold import_file_to_store, import_failed, safe_print.
  repeat first
    [ apply runs_ret | apply runs_call | apply runs_emit; exact I
    | apply import_events_wait_done
    | apply runs_bind; [|intros ?]
    | apply runs_try_except; [|intros ?]
    | case_match ].
Qed.

(** The round of a file whose entry has a non-empty [file_id], step by
    step: the entry is taken from the ledger and its id is imported. *)
Lemma prepare_file_hit (store : pystr) (f : Path) (m : Machine) (e : entry)
    (file_id : pystr) :
  m_state m !! path_resolved f = Some e →
  e !! py "file_id" = Some (Some file_id) → file_id ≠ [] →
  prepare_file self fuel store f m =
    match import_file_to_store fuel store file_id m with
    | (Ok None, m') => (Ok (), add_event (Print (MsgImportSkipped (path_name f))) m')
    | (Ok (Some _), m') => (Ok (), m')
    | (Raise err, m') =>
        (Ok (), add_event (Print (MsgImportingFailed (path_name f) err)) m')
    | (Blocked, m') => (Blocked, m')
    end.
Proof.
  intros Hl Hid Hne.
  assert (Ht : truthy (entry_get e (py "file_id")) = true).
  { unfold entry_get. rewrite Hid. cbn. by rewrite bool_decide_eq_false_2. }
  unfold prepare_file. rewrite bind_run. unfold try_except at 1.
  rewrite bind_run, (upload_file_hit self f m e Hl Ht).
  cbn [mret M_ret]. rewrite Ht. cbn [negb orb].
  rewrite bool_decide_eq_false_2, orb_false_l.
  2: { intros ->. by rewrite lookup_empty in Hid. }
  unfold try_except. rewrite bind_run. rewrite Hid. cbn [mret M_ret].
  rewrite bind_run.
  by destruct (import_file_to_store fuel store file_id m) as [[[op|]|err|] m'].
Qed.

(** X16: for a file that is in the ledger with a non-empty [file_id], the
    round of [prepare] uploads nothing and writes nothing: the ledger
    and the state file are as they were, and the events of the round
    are those of an import. The import is made again on every run: when
    the id passes the check in its normalized form, the request is
    issued. *)
Theorem prepare_file_cached (store : pystr) (f : Path) (m : Machine) (e : entry)
    (file_id : pystr) :
  m_state m !! path_resolved f = Some e →
  e !! py "file_id" = Some (Some file_id) → file_id ≠ [] →
  let m' := (prepare_file self fuel store f m).2 in
  m_state m' = m_state m ∧ m_file m' = m_file m
  ∧ (∃ t, m_trace m' = m_trace m ++ t ∧ Forall import_event t)
  ∧ (_is_valid_file_id (PStr (normalize_ref file_id)) = true →
     CallImport store (normalize_ref file_id) ∈ m_trace m').
Proof.
  intros Hl Hid Hne m'. subst m'.
  rewrite (prepare_file_hit store f m e file_id Hl Hid Hne).
  destruct (frames_import fuel store file_id m) as (Hs & Hf).
  destruct (import_events store file_id m) as [(t & Ht & HP) _].
  pose proof (import_request_issued fuel store file_id m Hne) as Hreq.
  destruct (import_file_to_store fuel store file_id m) as [[[op|]|err|] m1];
    cbn [fst snd m_state m_file m_trace add_event] in *.
  - split_and!; [done|done|by exists t|done].
  - split_and!; [done|done| |].
    + exists (t ++ [Print (MsgImportSkipped (path_name f))]).
      rewrite Ht, <-app_assoc. split; [done|].
      apply Forall_app. split; [done|]. by constructor.
    + intros Hv. apply elem_of_app. left. by apply Hreq.
  - split_and!; [done|done| |].
    + exists (t ++ [Print (MsgImportingFailed (path_name f) err)]).
      rewrite Ht, <-app_assoc. split; [done|].
      apply Forall_app. split; [done|]. by constructor.
    + intros Hv. apply elem_of_app. left. by apply Hreq.
  - split_and!; [done|done|by exists t|done].
Qed.

End CachedRound.

(** The valid entry of the ledger of three: its file is not uploaded
    again, and its id is imported. *)
Lemma prepare_file_cached_witness :
  let store := py "fileSearchStores/my-docs" in
  let m' := (prepare_file Sim.config 1 store (Sim.file "ok.txt")
               (Sim.seeded Sim.ledger3)).2 in
  m_state m' = Sim.ledger3 ∧ m_file m' = None
  ∧ CallImport store (py "files/ok-1") ∈ m_trace m'
  ∧ filter (λ ev, is_upload ev = true) (m_trace m') = [].
Proof.
  intros store m'.
  destruct (prepare_file_cached Sim.config 1 store (Sim.file "ok.txt")
              (Sim.seeded Sim.ledger3) (Sim.entry_with (py "files/ok-1")) (py "files/ok-1"))
    as (Hs & Hf & _ & Hreq); [reflexivity|reflexivity|discriminate|].
  split; [exact Hs|]. split; [exact Hf|]. split; [by apply Hreq|run_eq].
Defined.

(** ** Valid entries survive a run of [prepare] *)

Section Preservation.
Context {World : Type} `{!Client World, !Host World}.
Local Abbreviation M := (@M World).
Local Abbreviation Machine := (@Machine World).
Variables (self : Config) (fuel : nat).

Lemma extends_refl (st : ledger) : extends st st.
Proof. by intros k e. Qed.

Lemma extends_trans (a b c : ledger) : extends a b → extends b c → extends a c.
Proof. intros Hab Hbc k e Hl Hk. apply Hbc; [|done]. by apply Hab. Qed.

Lemma preserves_frames {A} (c : M A) : frames c → preserves c.
Proof. intros Hc m. destruct (Hc m) as [-> _]. apply extends_refl. Qed.

Lemma preserves_bind {A B} (c : M A) (f : A → M B) :
  preserves c → (∀ a, preserves (f a)) → preserves (c ≫= f).
Proof.
  intros Hc Hf m. rewrite bind_run. specialize (Hc m).
  destruct (c m) as [[a|e|] m1]; cbn [fst snd] in *; [|done..].
  eapply extends_trans; [exact Hc|apply Hf].
Qed.

Lemma preserves_try_except {A} (c : M A) (h : exn → M A) :
  preserves c → (∀ e, preserves (h e)) → preserves (try_except c h).
Proof.
  intros Hc Hh m. unfold try_except. specialize (Hc m).
  destruct (c m) as [[a|e|] m1]; cbn [fst snd] in *; [done| |done].
  eapply extends_trans; [exact Hc|apply Hh].
Qed.

Lemma preserves_for_each {A} (xs : list A) (body : A → M unit) :
  (∀ x, preserves (body x)) → preserves (for_each xs body).
Proof.
  intros Hb. induction xs as [|x xs IH]; cbn [for_each].
  - apply preserves_frames, frames_ret.
  - apply preserves_bind; [apply Hb|]. by intros _.
Qed.

Lemma keeps_truthy (e : entry) :
  keeps e = true → truthy (entry_get e (py "file_id")) = true.
Proof.
  unfold keeps, invalid_file_id. intros H%negb_true_iff.
  apply orb_false_elim in H as [H _]. by apply negb_false_iff.
Qed.

(** [upload_file] writes only under a path that had no [file_id]. *)
Lemma preserves_upload_file (f : Path) : preserves (upload_file self f : M entry).
Proof.
  intros m.
  destruct (truthy (entry_get (default ∅ (m_state m !! path_resolved f))
                      (py "file_id"))) eqn:Ht.
  - destruct (truthy_lookup _ _ Ht) as [e0 He0]. rewrite He0 in Ht.
    rewrite (upload_file_hit self _ _ _ He0 Ht). apply extends_refl.
  - destruct (upload_file_miss self f m Ht)
      as (safe_name & m1 & _ & _ & _ & Hs1 & _ & ->).
    destruct (frames_attempt self f safe_name m1) as (Hs2 & _).
    destruct (attempt self f safe_name m1) as [[resource|e'|] m2];
      cbn [fst snd] in *; [|rewrite Hs2, Hs1; apply extends_refl..].
    cbn zeta. rewrite bind_run.
    assert (Hst : m_state (_save_state
                (set_state (<[path_resolved f := file_info resource f safe_name]>
                              (m_state m2)) m2)).2
              = <[path_resolved f := file_info resource f safe_name]> (m_state m)).
    { rewrite save_state_state. cbn. by rewrite Hs2, Hs1. }
    assert (Hext : extends (m_state m)
              (<[path_resolved f := file_info resource f safe_name]> (m_state m))).
    { intros k e Hl Hk. destruct (decide (k = path_resolved f)) as [->|Hne].
      - rewrite Hl in Ht. change (default ∅ (Some e)) with e in Ht.
        by rewrite (keeps_truthy _ Hk) in Ht.
      - by rewrite lookup_insert_ne. }
    destruct (_save_state _) as [[[]|e'|] m3]; cbn [fst snd] in Hst;
      cbv beta iota; unfold mret, M_ret; cbn [fst snd]; by rewrite Hst.
Qed.

Lemma preserves_clean_state : preserves (clean_state : M unit).
Proof.
  intros m k e Hl Hk. rewrite clean_state_state.
  by apply map_lookup_filter_Some.
Qed.

Lemma preserves_prepare_file store (f : Path) :
  preserves (prepare_file self fuel store f : M unit).
Proof.
  unfold prepare_file, safe_print.
  repeat first
    [ apply preserves_upload_file
    | apply preserves_frames;
        first [apply frames_ret | apply frames_emit | apply frames_import | done]
    | apply preserves_bind; [|intros ?]
    | apply preserves_try_except; [|intros ?]
    | case_match ].
Qed.

(** X17: whatever a run of [prepare] does and however it ends, an entry of
    the ledger whose [file_id] is non-empty and passes the identifier
    check is in the ledger afterwards, unchanged. *)
Theorem prepare_keeps_valid_entries (m : Machine) (k : pystr) (e : entry) :
  m_state m !! k = Some e →
  keeps e = true →
  m_state (prepare self fuel m).2 !! k = Some e.
Proof.
  revert k e. change (extends (m_state m) (m_state (prepare self fuel m).2)).
  revert m. change (preserves (prepare self fuel : M StoreRef)).
  unfold prepare, safe_print.
  apply preserves_bind; [apply preserves_frames, frames_emit|]. intros _.
  apply preserves_bind; [apply preserves_frames, frames_resolution|]. intros store.
  apply preserves_bind; [apply preserves_frames, frames_list_docs|]. intros files.
  destruct files as [|f files].
  - apply preserves_bind; [apply preserves_frames, frames_emit|]. intros _.
    apply preserves_frames, frames_ret.
  - apply preserves_bind; [apply preserves_clean_state|]. intros _.
    apply preserves_bind.
    + apply preserves_for_each. intros x. apply preserves_prepare_file.
    + intros _. apply preserves_bind; [apply preserves_frames, frames_emit|].
      intros _. apply preserves_frames, frames_ret.
Qed.

End Preservation.

(** The run of three files, the second of which cannot be uploaded,
    from the ledger of three entries: the valid entry is still there. *)
Lemma prepare_keeps_valid_entries_witness :
  let fs := [Sim.file "a.txt"; Sim.file "broken.pdf"; Sim.file "c.md"] in
  let m := {| m_world := {| Sim.rng := 0; Sim.files := fs |};
              m_state := Sim.ledger3; m_file := None; m_trace := [] |} in
  m_state (prepare Sim.config 1 m).2 !! py "/srv/docs/ok.txt"
  = Some (Sim.entry_with (py "files/ok-1")).
Proof.
  intros fs m. apply (prepare_keeps_valid_entries Sim.config 1 m); reflexivity.
Defined.

(** ** The prune comes before the loop *)

Section PruneFirst.
Context {World : Type} `{!Client World, !Host World}.
Local Abbreviation M := (@M World).
Local Abbreviation Machine := (@Machine World).
Variables (self : Config) (fuel : nat).

(** An entry that stays has a non-empty [file_id] that passes the
    check as it stands. *)
Lemma keeps_valid_id (e : entry) :
  keeps e = true →
  ∃ file_id, e !! py "file_id" = Some (Some file_id) ∧ file_id ≠ []
             ∧ _is_valid_file_id (PStr file_id) = true.
Proof.
  unfold keeps, invalid_file_id, entry_get. intros H%negb_true_iff.
  apply orb_false_elim in H as [Ht%negb_false_iff Hv%negb_false_iff].
  destruct (e !! py "file_id") as [[s|]|]; [|done..].
  exists s. split; [done|]. split; [|done].
  intros ->. by cbn in Ht.
Qed.

(** The rounds of the loop keep the entries of the pruned ledger. *)
Lemma loop_extends store (pre : list Path) (m : Machine) :
  extends (m_state m)
    (m_state (foldl (λ mx f, (prepare_file self fuel store f mx).2) m pre)).
Proof.
  revert m. induction pre as [|f pre IH]; intros m; cbn [foldl].
  - apply extends_refl.
  - eapply extends_trans; [apply (preserves_prepare_file self fuel store f m)|].
    apply IH.
Qed.

(** C9: in a run of [prepare] that resolves the store and finds files,
    the trace falls into three parts in this order. First store
    resolution and listing: no upload, no import, no write. Then the
    prune: removal reports and the write of the ledger. Then the loop
    over the files, in which every import request carries a reference
    that passes the predicate. The loop starts from the ledger that
    [prepare] found, less the entries whose [file_id] is empty or fails
    the predicate: an entry that was invalid when [prepare] began is
    not there to be served. In every round for a file that has an entry
    in the pruned ledger, that entry is what [upload_file] returns,
    and the import input of the round is its [file_id], which is not
    empty and passes the predicate as it stands. *)
Theorem prepare_prunes_before_loop (m m1 m2 : Machine) store files :
  create_or_get_file_search_store self (add_event (Print MsgPreparing) m) = (Ok store, m1) →
  _list_docs self m1 = (Ok files, m2) →
  files ≠ [] →
  let m3 := (clean_state m2).2 in
  let round mx f := (prepare_file self fuel (sr_name store) f mx).2 in
  (∃ t1 t2 t3,
     m_trace m2 = m_trace m ++ t1 ∧ Forall resolution_event t1
     ∧ m_trace m3 = m_trace m2 ++ t2 ∧ Forall prune_event t2
     ∧ map_Forall (λ _ e, keeps e = true) (m_state m3)
     ∧ m_trace (prepare self fuel m).2 = m_trace m3 ++ t3 ∧ Forall valid_import t3
     ∧ prepare self fuel m =
         (clean_state ;;
          for_each files (prepare_file self fuel (sr_name store)) ;;
          safe_print MsgAllDone ;;
          mret store) m2)
  ∧ m_state m3 = filter (λ kv, keeps kv.2 = true) (m_state m)
  ∧ (∀ k e, m_state m !! k = Some e → keeps e = false → m_state m3 !! k = None)
  ∧ (∀ pre f post e,
       files = pre ++ f :: post →
       m_state m3 !! path_resolved f = Some e →
       let mx := foldl round m3 pre in
       ∃ file_id,
         e !! py "file_id" = Some (Some file_id) ∧ file_id ≠ []
         ∧ _is_valid_file_id (PStr file_id) = true
         ∧ upload_file self f mx = (Ok e, mx)
         ∧ prepare_file self fuel (sr_name store) f mx =
             match import_file_to_store fuel (sr_name store) file_id mx with
             | (Ok None, m') =>
                 (Ok (), add_event (Print (MsgImportSkipped (path_name f))) m')
             | (Ok (Some _), m') => (Ok (), m')
             | (Raise err, m') =>
                 (Ok (), add_event (Print (MsgImportingFailed (path_name f) err)) m')
             | (Blocked, m') => (Blocked, m')
             end).
Proof.
  intros Hs Hl Hne m3 round.
  destruct (runs_resolution self false (add_event (Print MsgPreparing) m))
    as [(ta & Hta & HPa) _]. rewrite Hs in Hta. cbn in Hta.
  destruct (runs_list_docs resolution_event false self m1)
    as [(tb & Htb & HPb) _]. rewrite Hl in Htb. cbn in Htb.
  destruct (runs_clean_state false m2) as [(t2 & Ht2 & HP2) _].
  pose proof (prepare_unfold self fuel _ _ _ _ _ Hs Hl Hne) as Hrun.
  assert (Hrest : runs valid_import false
            (for_each files (prepare_file self fuel (sr_name store)) ;;
             safe_print MsgAllDone ;; mret store : M StoreRef)).
  { apply runs_bind.
    - apply runs_for_each. intros f.
      by apply (runs_prepare_file valid_import false fuel self).
    - intros _. apply runs_bind; [by apply runs_emit|].
      intros _. apply runs_ret. }
  assert (Ht3 : ∃ t3, m_trace (prepare self fuel m).2 = m_trace m3 ++ t3
                      ∧ Forall valid_import t3).
  { rewrite Hrun, bind_run. subst m3.
    destruct (clean_state m2) as [[[]|e|] mc]; cbn [fst snd].
    - apply Hrest.
    - exists []. by rewrite app_nil_r.
    - exists []. by rewrite app_nil_r. }
  destruct Ht3 as (t3 & Ht3 & HP3).
  assert (Hst : m_state m3 = filter (λ kv, keeps kv.2 = true) (m_state m)).
  { subst m3. rewrite clean_state_state.
    destruct (frames_list_docs self m1) as [H2 _]. rewrite Hl in H2.
    destruct (frames_resolution self (add_event (Print MsgPreparing) m)) as [H1 _].
    rewrite Hs in H1. cbn [fst snd m_state add_event] in H1, H2.
    by rewrite H2, H1. }
  split; [|split; [done|split]].
  - exists ([Print MsgPreparing] ++ ta ++ tb), t2, t3.
    split; [by rewrite Htb, Hta, <-!app_assoc|].
    split; [repeat (apply Forall_app; split); [by constructor|done|done]|].
    split; [done|]. split; [done|].
    split; [apply clean_state_clean|].
    split; [done|]. split; [done|]. done.
  - intros k e Hk He. rewrite Hst. apply map_lookup_filter_None. right.
    intros e' He'. cbn. rewrite Hk in He'. injection He' as <-. by rewrite He.
  - intros pre f post e _ He mx.
    assert (Hk : keeps e = true) by (by apply (clean_state_clean m2 _ _ He)).
    destruct (keeps_valid_id e Hk) as (file_id & Hid & Hn & Hv).
    assert (Hx : m_state mx !! path_resolved f = Some e)
      by exact (loop_extends (sr_name store) pre m3 (path_resolved f) e He Hk).
    exists file_id. split; [done|]. split; [done|]. split; [done|]. split.
    + apply upload_file_hit; [done|]. by apply keeps_truthy.
    + exact (prepare_file_hit self fuel (sr_name store) f mx e file_id Hx Hid Hn).
Qed.

End PruneFirst.

(** C9 from a ledger with two bad entries: they are gone before the
    first file is looked at, the good entry is served from the ledger,
    and the one import request of the run carries its valid id. *)
Lemma prepare_prunes_before_loop_witness :
  let fs := [Sim.file "ok.txt"] in
  let m := {| m_world := {| Sim.rng := 0; Sim.files := fs |};
              m_state := Sim.ledger3; m_file := None; m_trace := [] |} in
  ∃ t1 t2 t3,
    m_trace (prepare Sim.config 1 m).2 = t1 ++ t2 ++ t3
    ∧ Forall resolution_event t1 ∧ Forall prune_event t2 ∧ Forall valid_import t3
    ∧ length t2 = 3%nat
    ∧ length (filter (λ e, is_import e = true) t3) = 1%nat.
Proof.
  intros fs m.
  pose (store := {| sr_name := py "fileSearchStores/my-docs";
                    sr_display_name := Some (py "my-docs") |}).
  pose (m1 := (create_or_get_file_search_store Sim.config
                 (add_event (Print MsgPreparing) m)).2).
  pose (m2 := (_list_docs Sim.config m1).2).
  destruct (prepare_prunes_before_loop Sim.config 1 m m1 m2 store fs)
    as ((t1 & t2 & t3 & H1 & HP1 & H2 & HP2 & _ & H3 & HP3 & _) & _).
  - run_eq.
  - run_eq.
  - discriminate.
  - assert (Et1 : t1 = m_trace m2) by (by rewrite H1).
    assert (Et2 : t2 = drop (length t1) (m_trace (clean_state m2).2))
      by (by rewrite H2, H1, drop_app_length).
    assert (Et3 : t3 = drop (length (t1 ++ t2)) (m_trace (prepare Sim.config 1 m).2)).
    { rewrite H3, H2, H1. cbn [m_trace m app]. by rewrite drop_app_length. }
    exists t1, t2, t3.
    split; [by rewrite H3, H2, H1, <-app_assoc|].
    split; [done|]. split; [done|]. split; [done|].
    clear H1 H2 H3 HP1 HP2 HP3. subst t3 t2 t1.
    split; run_eq.
Defined.

(** C9 as stated fails for a directory without files: [prepare] returns
    after the listing and the prune does not run. The entry with the id
    of fifty characters, which the predicate refuses, is still in the
    ledger, and nothing was reported as removed or written. *)
Lemma prepare_empty_listing_skips_prune :
  let r := prepare Sim.config 1 (Sim.seeded Sim.ledger3) in
  let bad := Sim.entry_with (py "files/" ++ replicate 50 97) in
  r.1 = Ok {| sr_name := py "fileSearchStores/my-docs";
              sr_display_name := Some (py "my-docs") |}
  ∧ m_trace r.2 = [Print MsgPreparing; CallListStores;
                   CallCreateStore (py "my-docs"); Print MsgNoFiles]
  ∧ m_state r.2 !! py "/srv/docs/long.txt" = Some bad
  ∧ keeps bad = false
  ∧ m_file r.2 = None.
Proof. intros r bad. split_and!; run_eq. Qed.

(** ** The shape of a sanitized name *)

Lemma take_while_eqb_replicate (c : N) (l : pystr) :
  take_while (N.eqb c) l = replicate (length (take_while (N.eqb c) l)) c.
Proof.
  induction l as [|x l IH]; [done|]. cbn [take_while].
  destruct (N.eqb_spec c x) as [<-|]; [|done]. cbn. by rewrite <-IH.
Qed.

(** [rstrip] cuts a run of the character off the end, and what is left
    does not end in it. *)
Lemma rstrip_spec (c : N) (t : pystr) :
  (∃ k, t = rstrip c t ++ replicate k c) ∧ last (rstrip c t) ≠ Some c.
Proof.
  unfold rstrip, lstrip. split.
  - exists (length (take_while (N.eqb c) (reverse t))).
    rewrite <-(reverse_involutive t) at 1.
    rewrite <-(take_drop_while (N.eqb c) (reverse t)) at 1.
    rewrite reverse_app. f_equal.
    rewrite (take_while_eqb_replicate c (reverse t)) at 1.
    by rewrite reverse_replicate.
  - rewrite last_reverse.
    destruct (drop_while (N.eqb c) (reverse t)) as [|x r] eqn:E; [done|].
    apply drop_while_head in E. cbn. intros [= ->]. by rewrite N.eqb_refl in E.
Qed.

Lemma lstrip_head (c : N) (s : pystr) : head (lstrip c s) ≠ Some c.
Proof.
  unfold lstrip. destruct (drop_while (N.eqb c) s) as [|x r] eqn:E; [done|].
  apply drop_while_head in E. cbn. intros [= ->]. by rewrite N.eqb_refl in E.
Qed.

(** A prefix of a string that does not start with the character, cut
    off before a run of it, starts as the string does. *)
Lemma rstrip_head (c : N) (t : pystr) :
  head t ≠ Some c → t ≠ [] → rstrip c t ≠ [] ∧ head (rstrip c t) = head t.
Proof.
  intros Hh Hne. destruct (rstrip_spec c t) as [[k Hk] _].
  destruct (rstrip c t) as [|x r] eqn:E.
  - exfalso. cbn in Hk. rewrite Hk in Hh, Hne. by destruct k.
  - split; [done|]. by rewrite Hk.
Qed.

Lemma strip_shape (c : N) (s : pystr) :
  head (strip c s) ≠ Some c ∧ last (strip c s) ≠ Some c.
Proof.
  unfold strip. split; [|apply rstrip_spec].
  pose proof (lstrip_head c s) as Hh.
  destruct (lstrip c s) as [|x r] eqn:E; [done|].
  destruct (rstrip_head c (x :: r) Hh) as [_ ->]; done.
Qed.

Lemma enforce_max_shape (slug : pystr) :
  slug ≠ [] → head slug ≠ Some 45 → last slug ≠ Some 45 →
  enforce_max slug ≠ [] ∧ head (enforce_max slug) ≠ Some 45
  ∧ last (enforce_max slug) ≠ Some 45.
Proof.
  intros Hne Hh Hl. unfold enforce_max.
  destruct (40 <? length slug)%nat; [|done].
  destruct slug as [|x r]; [done|].
  destruct (rstrip_head 45 (take 40 (x :: r))) as [H1 H2]; [done..|].
  split; [done|]. split; [by rewrite H2|apply rstrip_spec].
Qed.

Lemma hex_digit_not_dash (d : N) : d < 16 → hex_digit d ≠ 45.
Proof. intros H. unfold hex_digit. destruct (N.ltb_spec d 10); lia. Qed.

Lemma fallback_shape (r : N) :
  let token := py "file-" ++ uuid4_hex r in
  enforce_max token = token ∧ head token = Some 102 ∧ last token ≠ Some 45.
Proof.
  intros token. split; [|split; [done|]].
  - unfold enforce_max. subst token. by rewrite fallback_length.
  - subst token. unfold uuid4_hex. cbn [hex_fixed].
    rewrite app_assoc, last_snoc. intros [= H].
    by apply hex_digit_not_dash in H; [|apply N.mod_lt].
Qed.

Section Shape.
Context {World : Type} `{!Client World, !Host World}.
Local Abbreviation M := (@M World).
Local Abbreviation Machine := (@Machine World).

(** X2: the name [_ascii_safe] returns is never empty and neither starts
    nor ends with a dash. When nothing of the input is left after
    slugging, it is ["file-"] followed by the 32 hexadecimal digits of a
    fresh UUID; otherwise no randomness is drawn and the call changes
    nothing. *)
Theorem ascii_safe_shape (s : pystr) (m : Machine) :
  ∃ out m',
    _ascii_safe s m = (Ok out, m')
    ∧ out ≠ [] ∧ head out ≠ Some 45 ∧ last out ≠ Some 45
    ∧ (if bool_decide (slug_of unicodedata_nfkd (splitext platform s).1 = [])
       then out = py "file-" ++ uuid4_hex (os_urandom16 (m_world m)).1
            ∧ length out = 37%nat
            ∧ m' = set_world (os_urandom16 (m_world m)).2 m
       else m' = m).
Proof.
  unfold _ascii_safe. rewrite sanitize_base_run.
  case_bool_decide as Hslug.
  - destruct (fallback_shape (os_urandom16 (m_world m)).1) as (Hid & Hh & Hl).
    eexists _, _. split; [done|]. rewrite Hid.
    split_and!; [done|by rewrite Hh|done|done|apply fallback_length|done].
  - destruct (strip_shape 45 (re_sub_dash (lower (ascii_ignore
                (unicodedata_nfkd (splitext platform s).1))))) as [Hh Hl].
    destruct (enforce_max_shape _ Hslug Hh Hl) as (H1 & H2 & H3).
    eexists _, _. split; [done|]. by split_and!.
Qed.

End Shape.

(** ** The temporary copy of [try_upload_with_name] *)

Section TempCopy.
Context {World : Type} `{!Client World, !Host World}.
Local Abbreviation M := (@M World).
Local Abbreviation Machine := (@Machine World).

(** X7: a file whose name is not ASCII is uploaded from a copy in the
    temporary directory, made under the upload name. Once the copy is
    made it is removed after the upload, whether the upload returned or
    raised, and a failure of the removal is ignored: the call ends as
    the upload ended. When the copy cannot be made the call raises and
    no upload is attempted. A file whose name is ASCII is uploaded from
    its own path, and the host is not touched. *)
Theorem try_upload_temp_copy (file_path : Path) (name : pystr) (m : Machine) :
  let mime := mime_of file_path in
  (isascii (path_name file_path) = false →
     (∀ e w1, shutil_copy2 file_path name (m_world m) = (inl e, w1) →
        try_upload_with_name file_path name m = (Raise e, set_world w1 m))
     ∧ (∀ temp w1, shutil_copy2 file_path name (m_world m) = (inr temp, w1) →
        let up := files_upload temp name mime w1 in
        let rm := unlink_if_exists temp up.2 in
        try_upload_with_name file_path name m =
          (match up.1 with inl e => Raise e | inr r => Ok r end,
           set_world rm.2 (add_event (CallUpload temp name mime) m))))
  ∧ (isascii (path_name file_path) = true →
     let up := files_upload (path_str file_path) name mime (m_world m) in
     try_upload_with_name file_path name m =
       (match up.1 with inl e => Raise e | inr r => Ok r end,
        set_world up.2 (add_event (CallUpload (path_str file_path) name mime) m))).
Proof.
  intros mime. subst mime. unfold try_upload_with_name, mime_of.
  set (mime := match mimetypes_guess_type (path_name file_path) with
               | Some (c :: t) => c :: t
               | _ => default_mime
               end).
  split.
  - intros ->. cbn [negb]. split.
    + intros e w1 Hcopy. rewrite bind_run. unfold call. by rewrite Hcopy.
    + intros temp w1 Hcopy. cbv zeta. rewrite bind_run. unfold call at 1.
      rewrite Hcopy. unfold try_finally, try_except.
      rewrite bind_run. cbn [emit]. unfold call. cbn [m_world set_world add_event].
      destruct (files_upload temp name mime w1) as [[e|r] w2];
        cbn [fst snd m_world set_world add_event];
        by destruct (unlink_if_exists temp w2) as [[e'|[]] w3].
  - intros ->. cbn [negb]. cbv zeta. rewrite bind_run. cbn [emit].
    unfold call. cbn [m_world add_event].
    by destruct (files_upload (path_str file_path) name mime (m_world m)) as [[e|r] w2].
Qed.

End TempCopy.

(** A file named with an accented letter, in the simulated world: it is
    uploaded from its copy under the temporary directory. *)
Lemma try_upload_temp_copy_witness :
  let f := {| path_str := py "docs/r" ++ [233] ++ py "sum.pdf";
              path_name := py "r" ++ [233] ++ py "sum.pdf";
              path_resolved := py "/srv/docs/r" ++ [233] ++ py "sum.pdf" |} in
  m_trace (try_upload_with_name f (py "r-sum") (Sim.boot [])).2
  = [CallUpload (py "/tmp/r-sum") (py "r-sum") default_mime].
Proof.
  intros f.
  destruct (try_upload_temp_copy f (py "r-sum") (Sim.boot [])) as [Hcopy _].
  destruct (Hcopy eq_refl) as [_ Hup].
  by rewrite (Hup (py "/tmp/r-sum") (m_world (Sim.boot [])) eq_refl).
Defined.

(** ** [safe_print] on a strict stream *)

Module ConsoleFacts.
Import Console.












End ConsoleFacts.

(** A report with an accented name on an ASCII stream: the report is
    begun, fails at the name, and is printed again in full with question
    marks. *)
Example safe_print_ascii_stream :
  Console.safe_print Console.Ascii
    [py "Uploading"; py "r" ++ [233] ++ py "sum" ++ [233] ++ py ".pdf"] []
  = (true, py "Uploading Uploading r?sum?.pdf" ++ [10]).
Proof. reflexivity. Qed.

(** ** What [upload_file] looks at *)

Section CacheTest.
Context {World : Type} `{!Client World, !Host World}.
Local Abbreviation M := (@M World).
Local Abbreviation Machine := (@Machine World).
Variable self : Config.

Lemma ascii_safe_trace (s : pystr) (m : Machine) :
  m_trace (_ascii_safe s m).2 = m_trace m.
Proof.
  unfold _ascii_safe.
  by destruct (sanitize_base_total (splitext platform s).1 m)
    as (out & m' & -> & _ & _ & _ & _ & Ht).
Qed.

Lemma attempt_grows (f : Path) (safe_name : pystr) (m : Machine) :
  ∃ t, m_trace (attempt self f safe_name m).2 = m_trace m ++ t.
Proof.
  assert (H : runs (λ _, True) false (attempt self f safe_name : M RemoteFile)).
  { unfold attempt. destruct (prefer_utf8 self).
    - apply runs_try_except; [by apply runs_try_upload|]. intros _.
      apply runs_bind; [by apply runs_emit|]. intros _. by apply runs_try_upload.
    - by apply runs_try_upload. }
  destruct (H m) as [(t & Ht & _) _]. by exists t.
Qed.

(** X8: [upload_file] looks at one thing only: whether the ledger has an
    entry for the path with a non-empty [file_id]. If it has, the entry
    is returned, whether or not the id passes the identifier check, and
    nothing else happens. If it has not, the upload is announced and
    attempted. *)
Theorem upload_file_cache_test (f : Path) (m : Machine) :
  let cached :=
    truthy (entry_get (default ∅ (m_state m !! path_resolved f)) (py "file_id")) in
  (cached = true →
     ∃ e, m_state m !! path_resolved f = Some e
          ∧ upload_file self f m = (Ok e, m))
  ∧ (cached = false →
     ∃ t, m_trace (upload_file self f m).2
          = m_trace m ++ Print (MsgUploading (path_name f)) :: t).
Proof.
  intros cached. subst cached. split.
  - intros Ht. destruct (truthy_lookup _ _ Ht) as [e He].
    exists e. split; [done|]. rewrite He in Ht. by apply upload_file_hit.
  - intros Ht.
    destruct (upload_file_miss self f m Ht)
      as (safe_name & m1 & Hsafe & _ & _ & _ & _ & ->).
    pose proof (ascii_safe_trace (path_name f)
                  (add_event (Print (MsgUploading (path_name f))) m)) as Ht1.
    rewrite Hsafe in Ht1. cbn [fst snd m_trace add_event] in Ht1.
    destruct (attempt_grows f safe_name m1) as [t2 Ht2].
    destruct (attempt self f safe_name m1) as [[resource|e'|] m2];
      cbn [fst snd] in *.
    + cbn zeta. rewrite bind_run.
      destruct (runs_save_state_gen (λ _, True) false (λ _, I)
                  (set_state (<[path_resolved f := file_info resource f safe_name]>
                                (m_state m2)) m2)) as [(t3 & Ht3 & _) _].
      cbn [m_trace set_state] in Ht3.
      destruct (_save_state _) as [[[]|e'|] m3]; cbn [fst snd] in Ht3;
        cbv beta iota; unfold mret, M_ret; cbn [fst snd];
        exists (t2 ++ t3); rewrite Ht3, Ht2, Ht1, <-!app_assoc; done.
    + exists t2. by rewrite Ht2, Ht1, <-app_assoc.
    + exists t2. by rewrite Ht2, Ht1, <-app_assoc.
Qed.

End CacheTest.

(** ** The two ways [_save_state] ends *)

Section SaveOutcomes.
Context {World : Type} `{!Client World, !Host World}.
Local Abbreviation M := (@M World).
Local Abbreviation Machine := (@Machine World).

(** X4: for every ledger, [_save_state] ends in one of two ways. Either it
    returns: then the state file holds bytes from which [_load_state]
    gives the ledger back. Or it raises [UnicodeEncodeError]: then the
    state file is left empty, [_load_state] gives the empty ledger, and
    the ledger holds a key, a field name or a value with a code point
    that is no character. Either way the ledger in memory is as it
    was. *)
Theorem save_state_outcomes (m : Machine) :
  ((∃ data,
      _save_state m =
        (Ok (), add_event (WriteText (Some data)) (set_file (Some data) m))
      ∧ _load_state (Some data) = m_state m)
   ∨ (_save_state m =
        (Raise UnicodeEncodeError, add_event (WriteText None) (set_file (Some []) m))
      ∧ _load_state (Some []) = ∅
      ∧ ¬ scalar_ledger (m_state m)))
  ∧ m_state (_save_state m).2 = m_state m.
Proof.
  split; [|apply save_state_state].
  destruct (utf8_encode (json_dumps (ledger_to_json (m_state m)))) as [data|] eqn:He.
  - left. exists data.
    assert (Hrun : _save_state m =
              (Ok (), add_event (WriteText (Some data)) (set_file (Some data) m)))
      by (unfold _save_state; by rewrite He).
    split; [done|]. by destruct (save_state_ok m _ Hrun) as (_ & _ & Hl & _).
  - right. split; [unfold _save_state; by rewrite He|]. split; [done|].
    intros Hs. destruct (save_state_scalar m Hs) as (data & He' & _). congruence.
Qed.

End SaveOutcomes.

(** ** The entry of an upload passes the identifier check *)

Section UploadedEntry.
Context {World : Type} `{!Client World, !Host World}.
Local Abbreviation M := (@M World).
Local Abbreviation Machine := (@Machine World).
Variable self : Config.

Lemma ascii_safe_nonempty (s : pystr) (m m' : Machine) (out : pystr) :
  _ascii_safe s m = (Ok out, m') → out ≠ [].
Proof.
  unfold _ascii_safe. rewrite sanitize_base_run.
  case_bool_decide as Hslug; intros Hrun.
  - destruct (fallback_shape (os_urandom16 (m_world m)).1) as (Hid & _ & _).
    cbv zeta in Hid.
    assert (out = py "file-" ++ uuid4_hex (os_urandom16 (m_world m)).1) as ->
      by congruence.
    intros H. apply (f_equal length) in H. by rewrite fallback_length in H.
  - destruct (strip_shape 45 (re_sub_dash (lower (ascii_ignore
                (unicodedata_nfkd (splitext platform s).1))))) as [Hh Hl].
    destruct (enforce_max_shape _ Hslug Hh Hl) as (H1 & _).
    assert (out = enforce_max (slug_of unicodedata_nfkd (splitext platform s).1))
      as -> by congruence.
    done.
Qed.

(** X18: the limits [_ascii_safe] puts on a name are those
    [_is_valid_file_id] asks of an identifier. When [upload_file]
    uploads a file under its sanitized name and the service names the
    resource [files/<that name>], the entry it records has a [file_id]
    that is non-empty and passes the check: [clean_state] keeps the
    entry, and the next [upload_file] for the path returns it without
    uploading. *)
Theorem uploaded_entry_is_valid (f : Path) (m m' : Machine) (info : entry)
    (safe : pystr) :
  truthy (entry_get (default ∅ (m_state m !! path_resolved f)) (py "file_id"))
    = false →
  upload_file self f m = (Ok info, m') →
  info !! py "safe_file_name" = Some (Some safe) →
  info !! py "file_id" = Some (Some (py "files/" ++ safe)) →
  keeps info = true
  ∧ m_state (clean_state m').2 !! path_resolved f = Some info
  ∧ upload_file self f (clean_state m').2 = (Ok info, (clean_state m').2).
Proof.
  intros Ht Hrun Hsafe Hid.
  assert (Hk : keeps info = true).
  { destruct (upload_file_miss self f m Ht)
      as (safe_name & m1 & Hs & Hlen & Hclass & _ & _ & Hup).
    rewrite Hup in Hrun.
    destruct (attempt self f safe_name m1) as [[resource|e'|] m2]; [|done..].
    cbn zeta in Hrun. rewrite bind_run in Hrun.
    destruct (_save_state _) as [[[]|e'|] m3]; [|done..].
    injection Hrun as <- _.
    assert (safe = safe_name) as -> by (by injection Hsafe).
    apply ascii_safe_nonempty in Hs.
    unfold keeps, invalid_file_id, entry_get. rewrite Hid.
    rewrite is_valid_prefixed, re_match_id_class by done.
    rewrite (proj2 (Nat.leb_le _ _) Hlen).
    cbn [truthy]. rewrite !bool_decide_eq_false_2; [done|done|].
    rewrite py_files. done. }
  pose proof (upload_file_records self f m m' info Hrun) as Hl.
  assert (Hl' : m_state (clean_state m').2 !! path_resolved f = Some info).
  { rewrite clean_state_state. by apply map_lookup_filter_Some. }
  split; [done|]. split; [done|].
  apply upload_file_hit; [done|].
  unfold keeps, invalid_file_id in Hk. apply negb_true_iff in Hk.
  apply orb_false_elim in Hk as [Hk _]. by apply negb_false_iff.
Qed.

End UploadedEntry.

(** The first upload of ["a.txt"] in the simulated service, which names
    the resource [files/a]. *)
Lemma uploaded_entry_is_valid_witness :
  let r := upload_file Sim.config (Sim.file "a.txt") (Sim.boot []) in
  let info := file_info {| rf_name := Some (py "files/a") |} (Sim.file "a.txt") (py "a") in
  keeps info = true
  ∧ upload_file Sim.config (Sim.file "a.txt") (clean_state r.2).2
    = (Ok info, (clean_state r.2).2).
Proof.
  intros r info.
  destruct (uploaded_entry_is_valid Sim.config (Sim.file "a.txt") (Sim.boot [])
              r.2 info (py "a")) as (Hk & _ & Hhit);
    [reflexivity|run_eq|reflexivity|reflexivity|].
  by split.
Defined.

(** ** How many uploads and imports a run makes *)

Section Budget.
Context {World : Type} `{!Client World, !Host World}.
Local Abbreviation M := (@M World).
Local Abbreviation Machine := (@Machine World).
Variable p : event → bool.

Lemma calls_weaken {A} (n n' : nat) (c : M A) :
  (n ≤ n')%nat → calls p n c → calls p n' c.
Proof.
  intros Hn Hc m. destruct (Hc m) as (t & Ht & Hl). exists t. split; [done|lia].
Qed.

Lemma calls_silent {A} (c : M A) :
  (∀ m, m_trace (c m).2 = m_trace m) → calls p 0 c.
Proof. intros H m. exists []. by rewrite app_nil_r. Qed.

Lemma calls_ret {A} (a : A) : calls p 0 (mret a : M A).
Proof. by apply calls_silent. Qed.

Lemma calls_raise {A} (e : exn) : calls p 0 (raise e : M A).
Proof. by apply calls_silent. Qed.

Lemma calls_get_state : calls p 0 (get_state : M ledger).
Proof. by apply calls_silent. Qed.

Lemma calls_put_state st : calls p 0 (put_state st : M unit).
Proof. by apply calls_silent. Qed.

Lemma calls_call {A} (f : World → (exn + A) * World) : calls p 0 (call f).
Proof.
  apply calls_silent. intros m. unfold call.
  by destruct (f (m_world m)) as [[e|a] w].
Qed.

Lemma calls_emit (e : event) : calls p (if p e then 1 else 0) (emit e : M unit).
Proof.
  intros m. exists [e]. split; [done|]. rewrite filter_cons, filter_nil.
  destruct (p e); [by rewrite decide_True|by rewrite decide_False].
Qed.

Lemma calls_emit_other (e : event) : p e = false → calls p 0 (emit e : M unit).
Proof. intros H. pose proof (calls_emit e) as Hc. by rewrite H in Hc. Qed.

Lemma calls_bind {A B} (n1 n2 : nat) (c : M A) (f : A → M B) :
  calls p n1 c → (∀ a, calls p n2 (f a)) → calls p (n1 + n2) (c ≫= f).
Proof.
  intros Hc Hf m. rewrite bind_run. destruct (Hc m) as (t & Ht & Hl).
  destruct (c m) as [[a|e|] m1]; cbn [fst snd] in *.
  - destruct (Hf a m1) as (t' & Ht' & Hl'). exists (t ++ t').
    rewrite Ht', Ht, app_assoc. split; [done|].
    rewrite filter_app, length_app. lia.
  - exists t. split; [done|lia].
  - exists t. split; [done|lia].
Qed.

Lemma calls_try_except {A} (n1 n2 : nat) (c : M A) (h : exn → M A) :
  calls p n1 c → (∀ e, calls p n2 (h e)) → calls p (n1 + n2) (try_except c h).
Proof.
  intros Hc Hh m. unfold try_except. destruct (Hc m) as (t & Ht & Hl).
  destruct (c m) as [[a|e|] m1]; cbn [fst snd] in *.
  - exists t. split; [done|lia].
  - destruct (Hh e m1) as (t' & Ht' & Hl'). exists (t ++ t').
    rewrite Ht', Ht, app_assoc. split; [done|].
    rewrite filter_app, length_app. lia.
  - exists t. split; [done|lia].
Qed.

Lemma calls_try_finally {A} (n1 n2 : nat) (c : M A) (fin : M unit) :
  calls p n1 c → calls p n2 fin → calls p (n1 + n2) (try_finally c fin).
Proof.
  intros Hc Hf m. unfold try_finally. destruct (Hc m) as (t & Ht & Hl).
  destruct (c m) as [r m1]; cbn [fst snd] in *.
  destruct (Hf m1) as (t' & Ht' & Hl').
  assert (Hall : m_trace (fin m1).2 = m_trace m ++ t ++ t')
    by (by rewrite Ht', Ht, app_assoc).
  assert (Hlen : (length (filter (λ e, p e = true) (t ++ t')) ≤ n1 + n2)%nat)
    by (rewrite filter_app, length_app; lia).
  destruct (fin m1) as [[[]|e|] m2]; cbn [fst snd] in *; by exists (t ++ t').
Qed.

Lemma calls_for_each {A} (n : nat) (xs : list A) (body : A → M unit) :
  (∀ x, calls p n (body x)) → calls p (length xs * n) (for_each xs body).
Proof.
  intros Hb. induction xs as [|x xs IH]; cbn [for_each length].
  - apply calls_ret.
  - change (S (length xs) * n)%nat with (n + length xs * n)%nat.
    apply calls_bind; [apply Hb|]. by intros _.
Qed.

Lemma calls_ascii_safe (s : pystr) : calls p 0 (_ascii_safe s : M pystr).
Proof. apply calls_silent. intros m. apply ascii_safe_trace. Qed.

Lemma calls_list_docs self : calls p 0 (_list_docs self : M (list Path)).
Proof.
  apply calls_silent. intros m. unfold _list_docs.
  case_match; [|done]. unfold call. by destruct (rglob_files _ _) as [[e|a] w].
Qed.

End Budget.

Section Bounds.
Context {World : Type} `{!Client World, !Host World}.
Local Abbreviation M := (@M World).
Local Abbreviation Machine := (@Machine World).
Variables (self : Config) (fuel : nat).

(** The kind of event that is counted, [nu] for an upload request and
    [ni] for an import request, and nothing for any other event. *)
Variables (p : event → bool) (nu ni : nat).
Hypothesis Hupload : ∀ a b c, ((if p (CallUpload a b c) then 1 else 0) ≤ nu)%nat.
Hypothesis Himport : ∀ a b, ((if p (CallImport a b) then 1 else 0) ≤ ni)%nat.
Hypothesis Hother : ∀ e, is_upload e = false → is_import e = false → p e = false.

Ltac calls_leaf :=
  first
    [ apply calls_ret | apply calls_raise | apply calls_get_state
    | apply calls_put_state | apply calls_call | apply calls_ascii_safe
    | apply calls_emit_other; by apply Hother ].

Lemma calls_upload_request a b c : calls p nu (emit (CallUpload a b c) : M unit).
Proof. eapply calls_weaken; [apply Hupload|apply calls_emit]. Qed.

Lemma calls_import_request a b : calls p ni (emit (CallImport a b) : M unit).
Proof. eapply calls_weaken; [apply Himport|apply calls_emit]. Qed.

Lemma calls_save_state : calls p 0 (_save_state : M unit).
Proof.
  intros m. unfold _save_state.
  destruct (utf8_encode _); cbn; eexists [_]; (split; [done|]);
    rewrite filter_cons, filter_nil, decide_False; try done;
    by rewrite Hother.
Qed.

Lemma calls_try_upload (f : Path) (name : pystr) :
  calls p nu (try_upload_with_name f name : M RemoteFile).
Proof.
  unfold try_upload_with_name. destruct (negb _).
  - apply (calls_weaken p (0 + ((nu + 0) + (0 + 0)))); [lia|].
    apply calls_bind; [calls_leaf|]. intros temp. apply calls_try_finally.
    + apply calls_bind; [apply calls_upload_request|]. intros _. calls_leaf.
    + apply calls_try_except; [calls_leaf|]. intros _. calls_leaf.
  - apply (calls_weaken p (nu + 0)); [lia|].
    apply calls_bind; [apply calls_upload_request|]. intros _. calls_leaf.
Qed.

(** One upload request, or two when the original name is tried first. *)
Lemma calls_attempt (f : Path) (safe_name : pystr) :
  calls p ((if prefer_utf8 self then 2 else 1) * nu)
    (attempt self f safe_name : M RemoteFile).
Proof.
  unfold attempt. destruct (prefer_utf8 self).
  - apply (calls_weaken p (nu + (0 + nu))); [lia|].
    apply calls_try_except; [apply calls_try_upload|]. intros _.
    apply calls_bind; [unfold safe_print; calls_leaf|]. intros _.
    apply calls_try_upload.
  - apply (calls_weaken p nu); [lia|]. apply calls_try_upload.
Qed.

Lemma calls_upload_file (f : Path) :
  calls p ((if prefer_utf8 self then 2 else 1) * nu) (upload_file self f : M entry).
Proof.
  set (k := ((if prefer_utf8 self then 2 else 1) * nu)%nat).
  unfold upload_file. apply (calls_weaken p (0 + k)); [lia|].
  apply calls_bind; [calls_leaf|]. intros st. destruct (truthy _).
  - apply (calls_weaken p 0); [lia|]. destruct (st !! _); calls_leaf.
  - apply (calls_weaken p (0 + (0 + (k + (0 + (0 + (0 + 0))))))); [lia|].
    apply calls_bind; [unfold safe_print; calls_leaf|]. intros _.
    apply calls_bind; [calls_leaf|]. intros safe_name.
    apply calls_bind; [apply calls_attempt|]. intros resource. cbv zeta.
    apply calls_bind; [calls_leaf|]. intros st'.
    apply calls_bind; [calls_leaf|]. intros _.
    apply calls_bind; [apply calls_save_state|]. intros _. calls_leaf.
Qed.

Lemma calls_wait_done op : calls p 0 (wait_done fuel op : M Operation).
Proof.
  revert op. induction fuel as [|n IH]; intros op; cbn [wait_done];
    (destruct (op_done op); [calls_leaf|]).
  - by apply calls_silent.
  - apply (calls_weaken p (0 + (0 + (0 + 0)))); [lia|].
    apply calls_bind; [calls_leaf|]. intros _.
    apply calls_bind; [calls_leaf|]. intros _.
    apply calls_bind; [calls_leaf|]. apply IH.
Qed.

Lemma calls_import (store file_name : pystr) :
  calls p ni (import_file_to_store fuel store file_name : M (option Operation)).
Proof.
  unfold import_file_to_store, safe_print. case_bool_decide.
  { apply (calls_weaken p (0 + 0)); [lia|].
    apply calls_bind; [calls_leaf|]. intros _. calls_leaf. }
  destruct (negb _).
  { apply (calls_weaken p (0 + 0)); [lia|].
    apply calls_bind; [calls_leaf|]. intros _. calls_leaf. }
  apply (calls_weaken p (0 + (((ni + (0 + 0)) + 0) + 0))); [lia|].
  apply calls_bind; [calls_leaf|]. intros _.
  apply calls_bind.
  - apply calls_try_except.
    + apply calls_bind; [apply calls_import_request|]. intros _.
      apply calls_bind; [calls_leaf|]. intros op. calls_leaf.
    + intros e. unfold import_failed, safe_print.
      apply (calls_weaken p (0 + (0 + (0 + 0)))); [lia|].
      apply calls_bind; [calls_leaf|]. intros _.
      apply calls_bind; [case_match; calls_leaf|]. intros _.
      apply calls_bind; [case_match; calls_leaf|]. intros _. calls_leaf.
  - intros [op|]; [|calls_leaf].
    apply (calls_weaken p (0 + 0)); [lia|].
    apply calls_bind; [apply calls_wait_done|]. intros op'. calls_leaf.
Qed.

Lemma calls_prepare_file (store : pystr) (f : Path) :
  calls p ((if prefer_utf8 self then 2 else 1) * nu + ni)
    (prepare_file self fuel store f : M unit).
Proof.
  set (k := ((if prefer_utf8 self then 2 else 1) * nu)%nat).
  unfold prepare_file, safe_print.
  apply calls_bind.
  - apply (calls_weaken p ((k + 0) + (0 + 0))); [lia|].
    apply calls_try_except.
    + apply calls_bind; [apply calls_upload_file|]. intros info. calls_leaf.
    + intros e. apply calls_bind; [calls_leaf|]. intros _. calls_leaf.
  - intros [info|]; [|apply (calls_weaken p 0); [lia|calls_leaf]].
    destruct (_ || _); [apply (calls_weaken p 0); [lia|calls_leaf]|].
    apply (calls_weaken p ((0 + (ni + 0)) + 0)); [lia|].
    apply calls_try_except; [|intros e; calls_leaf].
    apply calls_bind; [case_match; [case_match|]; calls_leaf|]. intros file_id.
    apply calls_bind; [apply calls_import|]. intros [op|]; calls_leaf.
Qed.

(** Events of a kind that is not counted add nothing to the count. *)
Lemma calls_of_runs {A} (Q : event → Prop) (c : M A) :
  runs Q false c → (∀ e, Q e → p e = false) → calls p 0 c.
Proof.
  intros Hc HQ m. destruct (Hc m) as [(t & Ht & Hall) _].
  exists t. split; [done|].
  assert (filter (λ e, p e = true) t = []) as ->; [|done].
  clear Ht. induction Hall as [|e t He _ IH]; [done|].
  rewrite filter_cons. destruct (decide _) as [Hp|]; [|exact IH].
  cbv beta in Hp. by rewrite (HQ e He) in Hp.
Qed.

Lemma resolution_event_other (e : event) : resolution_event e → p e = false.
Proof. destruct e; try done; intros _; by apply Hother. Qed.

Lemma prune_event_other (e : event) : prune_event e → p e = false.
Proof. destruct e as [| | | | | | |[]]; try done; intros _; by apply Hother. Qed.

(** The whole of [prepare], once the store is resolved and the
    directory listed. *)
Lemma calls_prepare (m m1 m2 : Machine) (store : StoreRef) (files : list Path) :
  create_or_get_file_search_store self (add_event (Print MsgPreparing) m)
    = (Ok store, m1) →
  _list_docs self m1 = (Ok files, m2) →
  ∃ t, m_trace (prepare self fuel m).2 = m_trace m ++ t
       ∧ (length (filter (λ e, p e = true) t)
          ≤ length files * ((if prefer_utf8 self then 2 else 1) * nu + ni))%nat.
Proof.
  intros Hs Hl.
  destruct (calls_of_runs resolution_event _ (runs_resolution self false)
              resolution_event_other (add_event (Print MsgPreparing) m))
    as (ta & Hta & Hla).
  destruct (calls_list_docs p self m1) as (tb & Htb & Hlb).
  rewrite Hs in Hta. rewrite Hl in Htb. cbn [fst snd m_trace add_event] in Hta, Htb.
  assert (Hpre : ∃ t1, m_trace m2 = m_trace m ++ t1
                       ∧ length (filter (λ e, p e = true) t1) = 0%nat).
  { exists ([Print MsgPreparing] ++ ta ++ tb).
    rewrite Htb, Hta, <-!app_assoc. split; [done|].
    rewrite !filter_app, !length_app, filter_cons, filter_nil, decide_False.
    - cbn [length]. lia.
    - by rewrite Hother. }
  destruct Hpre as (t1 & Ht1 & Hl1).
  destruct files as [|f files].
  - exists (t1 ++ [Print MsgNoFiles]).
    unfold prepare. rewrite bind_run. cbn [safe_print emit].
    rewrite bind_run, Hs, bind_run, Hl. cbn [fst snd].
    change ((safe_print MsgNoFiles ≫= λ _ : (), mret store) m2)
      with (Ok store, add_event (Print MsgNoFiles) m2).
    cbn [fst snd m_trace add_event]. rewrite Ht1, <-app_assoc. split; [done|].
    rewrite filter_app, length_app, filter_cons, filter_nil, decide_False.
    + cbn [length]. lia.
    + by rewrite Hother.
  - rewrite (prepare_unfold self fuel m m1 m2 store (f :: files) Hs Hl) by done.
    set (n := (length (f :: files) * ((if prefer_utf8 self then 2 else 1) * nu + ni))%nat).
    assert (Hc : calls p (0 + (n + (0 + 0)))
              (clean_state ;;
               for_each (f :: files) (prepare_file self fuel (sr_name store)) ;;
               safe_print MsgAllDone ;; mret store : M StoreRef)).
    { apply calls_bind.
      - apply (calls_of_runs prune_event); [apply runs_clean_state|].
        apply prune_event_other.
      - intros _. apply calls_bind.
        + apply calls_for_each. intros x. apply calls_prepare_file.
        + intros _. apply calls_bind; [unfold safe_print; calls_leaf|].
          intros _. calls_leaf. }
    destruct (Hc m2) as (t2 & Ht2 & Hl2).
    exists (t1 ++ t2). rewrite Ht2, Ht1, <-app_assoc. split; [done|].
    rewrite filter_app, length_app. lia.
Qed.

End Bounds.

Section Budgets.
Context {World : Type} `{!Client World, !Host World}.
Local Abbreviation M := (@M World).
Local Abbreviation Machine := (@Machine World).
Variables (self : Config) (fuel : nat).

(** X19: a run of [prepare] makes at most one upload request for each
    file of the listing, or two when [prefer_utf8] is set, and at most
    one import request for each file. *)
Theorem prepare_call_budget (m m1 m2 : Machine) (store : StoreRef)
    (files : list Path) :
  create_or_get_file_search_store self (add_event (Print MsgPreparing) m)
    = (Ok store, m1) →
  _list_docs self m1 = (Ok files, m2) →
  ∃ t, m_trace (prepare self fuel m).2 = m_trace m ++ t
       ∧ (length (filter (λ e, is_upload e = true) t)
          ≤ (if prefer_utf8 self then 2 else 1) * length files)%nat
       ∧ (length (filter (λ e, is_import e = true) t) ≤ length files)%nat.
Proof.
  intros Hs Hl.
  destruct (calls_prepare self fuel is_upload 1 0) with (m := m) (m1 := m1)
    (m2 := m2) (store := store) (files := files) as (t & Ht & Hu); [..|done|done|].
  { intros a b c. cbn. lia. }
  { intros a b. cbn. lia. }
  { intros e He _. exact He. }
  destruct (calls_prepare self fuel is_import 0 1) with (m := m) (m1 := m1)
    (m2 := m2) (store := store) (files := files) as (t' & Ht' & Hi); [..|done|done|].
  { intros a b c. cbn. lia. }
  { intros a b. cbn. lia. }
  { intros e _ He. exact He. }
  assert (t' = t) as -> by (rewrite Ht in Ht'; by apply app_inv_head in Ht').
  exists t. split; [done|]. split; [|lia].
  destruct (prefer_utf8 self); lia.
Qed.

End Budgets.

(** Three files, the upload of the second refused: three upload
    requests, two import requests. *)
Lemma prepare_call_budget_witness :
  let fs := [Sim.file "a.txt"; Sim.file "broken.pdf"; Sim.file "c.md"] in
  let t := m_trace (prepare Sim.config 1 (Sim.boot fs)).2 in
  (length (filter (λ e, is_upload e = true) t) ≤ 3)%nat
  ∧ (length (filter (λ e, is_import e = true) t) ≤ 3)%nat.
Proof.
  intros fs t.
  pose (m1 := (create_or_get_file_search_store Sim.config
                 (add_event (Print MsgPreparing) (Sim.boot fs))).2).
  destruct (prepare_call_budget Sim.config 1 (Sim.boot fs) m1 m1
              {| sr_name := py "fileSearchStores/my-docs";
                 sr_display_name := Some (py "my-docs") |} fs)
    as (t' & Ht & Hu & Hi); [run_eq..|].
  subst t. rewrite Ht. by split.
Defined.
